(** * movingpandas: the trajectory plotter

    A shallow embedding of [movingpandas/trajectory_plotter.py]: the
    single-trajectory styler [_TrajectoryPlotter] and the collection styler
    [_TrajectoryCollectionPlotter].

    The stylers are plumbing: they consume a mutable keyword bag and hand
    tables to two renderers.  The embedding therefore keeps

    - Python values as an inductive type with Python's truthiness;
    - the keyword bag as a finite map from option names to values;
    - trajectories as objects in a store, so that [traj.copy()] and the
      in-place edits of a trajectory's table are visible;
    - every renderer call as an event carrying the keywords it received;
    - exceptions as outcomes of a state-and-exception monad in which the
      state survives a raise, as it does in Python. *)

From stdpp Require Import base option list strings gmap.
From Stdlib Require Import ZArith String Lia.

(** ** Python values *)

Set Warnings "-register-all".

Inductive pyval : Type :=
  | PNone
  | PBool (b : bool)
  | PNum (z : Z)
  | PNaN
  | PStr (s : string)
  | PObj (h : nat)
  | PDim (c : string)
  | PList (l : list pyval)
  | PDict (d : list (pyval * pyval)).

(** Numbers are integers here: the module only compares, negates and passes
    numbers on.  [PNaN] is the float not-a-number, which pandas puts where a
    value is missing.  [PObj] is an opaque external object (an axis);
    [PDim c] is holoviews' [dim(c)]. *)

Definition as_num (v : pyval) : option Z :=
  match v with
  | PNum z => Some z
  | PBool b => Some (Z.b2z b)
  | _ => None
  end.

(** Python's [==]: booleans are numbers, everything else is structural. *)
Fixpoint py_eq (a b : pyval) {struct a} : bool :=
  match a, b with
  | PNone, PNone => true
  | PBool x, PBool y => Bool.eqb x y
  | PBool x, PNum y => (Z.b2z x =? y)%Z
  | PNum x, PBool y => (x =? Z.b2z y)%Z
  | PNum x, PNum y => (x =? y)%Z
  | PStr x, PStr y => String.eqb x y
  | PObj x, PObj y => Nat.eqb x y
  | PDim x, PDim y => String.eqb x y
  | PList l1, PList l2 =>
      (fix go (l1 l2 : list pyval) : bool :=
         match l1, l2 with
         | [], [] => true
         | x :: xs, y :: ys => py_eq x y && go xs ys
         | _, _ => false
         end) l1 l2
  | PDict d1, PDict d2 =>
      (fix go (d1 d2 : list (pyval * pyval)) : bool :=
         match d1, d2 with
         | [], [] => true
         | (k1, v1) :: xs, (k2, v2) :: ys =>
             py_eq k1 k2 && py_eq v1 v2 && go xs ys
         | _, _ => false
         end) d1 d2
  | _, _ => false
  end.

(** Python's truth test, as used by [if self.column], [if not self.ax],
    [if hover_cols] and the like. *)
Definition truthy (v : pyval) : bool :=
  match v with
  | PNone => false
  | PBool b => b
  | PNum z => negb (z =? 0)%Z
  | PNaN => true
  | PStr s => negb (String.eqb s "")
  | PObj _ => true
  | PDim _ => true
  | PList l => match l with [] => false | _ => true end
  | PDict d => match d with [] => false | _ => true end
  end.

(** Python's [<] on the values a table column holds: numbers with numbers,
    strings with strings; not-a-number is below no number and no number is
    below it; anything else is a [TypeError] ([None]). *)
Definition py_lt (a b : pyval) : option bool :=
  match as_num a, as_num b with
  | Some x, Some y => Some (x <? y)%Z
  | _, _ =>
      match a, b with
      | PStr x, PStr y => Some (String.ltb x y)
      | PNaN, (PNaN | PNum _ | PBool _) | (PNum _ | PBool _), PNaN =>
          Some false
      | _, _ => None
      end
  end.

(** ** Tables and trajectories *)

(** A table maps a column name to the series of its cells, top row first. *)
Abbreviation frame := (gmap string (list pyval)).

(** A geo table as handed to a renderer: its columns, the name of the active
    geometry column and its coordinate reference system. *)
Record gdf : Type := Gdf {
  cols : frame;
  geometry : string;
  gdf_crs : pyval
}.

(** A trajectory object: its attribute table [df], its [crs], whether it is
    in latitude/longitude, and what [get_speed_column_name()],
    [get_direction_column_name()] and [get_geom_column_name()] answer. *)
Record trajectory : Type := Trajectory {
  df : frame;
  crs : pyval;
  is_latlon : bool;
  speed_column_name : string;
  direction_column_name : string;
  geom_column_name : string
}.

Definition set_df (f : frame -> frame) (t : trajectory) : trajectory :=
  {| df := f (df t); crs := crs t; is_latlon := is_latlon t;
     speed_column_name := speed_column_name t;
     direction_column_name := direction_column_name t;
     geom_column_name := geom_column_name t |}.

(** ** Exceptions *)

Inductive builtin_exn : Type :=
  KeyError | IndexError | ValueError | TypeError | ReferenceError.

(** [ImportError] is what the module's own [raise] statement builds;
    [Builtin] exceptions come from the interpreter (a missing key, an index
    out of range, a keyword given twice); [Collaborator] exceptions come out
    of the trajectory library and are passed on untouched. *)
Inductive exn : Type :=
  | ImportError (msg : string)
  | Builtin (e : builtin_exn)
  | Collaborator (what : string).

Inductive outcome (A : Type) : Type :=
  | Ok (a : A)
  | Raise (e : exn).
Arguments Ok {A} a.
Arguments Raise {A} e.

(** ** The collaborators

    What the styler consumes from the trajectory library and from pandas
    without looking inside: the derived series, the segment geometry, the
    maximum of a series, reprojection and the collection's aggregates. *)
Class Collaborators : Type := {
  compute_speed : trajectory -> list Z;
  compute_direction : trajectory -> list Z;
  segments : trajectory -> list pyval;
  prev_points : trajectory -> list pyval;
  along_segments : list pyval -> list pyval;
  series_max : list pyval -> pyval;
  to_crs : Z -> gdf -> gdf;
  get_min : list trajectory -> pyval -> string + pyval;
  get_max : list trajectory -> pyval -> string + pyval
}.

(** ** Renderer calls and the styler's state *)

(** The three places that call a renderer: the static line plot, the
    interactive line plot and the interactive end marker. *)
Inductive call_site : Type := LinePlot | LineHvplot | EndTriangleHvplot.

(** A renderer call as the renderer sees it: the table it is called on, the
    positional arguments and the keywords after [**self.kwargs] is merged
    with the keywords written at the call. *)
Record render_call : Type := RenderCall {
  site : call_site;
  table : gdf;
  positional : list pyval;
  keywords : gmap string pyval
}.

Inductive event : Type :=
  | Render (c : render_call)
  | Figure (figsize : pyval)
  | OverlayDefaults (width height : pyval).

(** What the interactive renderer returns, and holoviews' [*]. *)
Inductive drawable : Type :=
  | Drawn (c : render_call)
  | Over (a b : drawable).

(** The fields of [_TrajectoryPlotter]; [_speeds] is the one field the
    collection styler adds.  [D] is the type of [self.data]: a trajectory
    reference for the single styler, a list of them for the collection. *)
Record styler (D : Type) : Type := Styler {
  data : D;
  args : list pyval;
  kwargs : gmap string pyval;
  width : pyval;
  height : pyval;
  figsize : pyval;
  column : pyval;
  ax : pyval;
  colormap : pyval;
  min_value : pyval;
  max_value : pyval;
  overlay : option drawable;
  hvplot_is_geo : pyval;
  hvplot_tiles : pyval;
  marker_size : pyval;
  marker_color : pyval;
  line_width : pyval;
  _speeds : list (list pyval)
}.
Arguments Styler {D}.
Arguments data {D}.
Arguments args {D}.
Arguments kwargs {D}.
Arguments width {D}.
Arguments height {D}.
Arguments figsize {D}.
Arguments column {D}.
Arguments ax {D}.
Arguments colormap {D}.
Arguments min_value {D}.
Arguments max_value {D}.
Arguments overlay {D}.
Arguments hvplot_is_geo {D}.
Arguments hvplot_tiles {D}.
Arguments marker_size {D}.
Arguments marker_color {D}.
Arguments line_width {D}.
Arguments _speeds {D}.

(** The interpreter state around a styler: the store of trajectory objects
    (a reference is an index), the next fresh external object, the events
    seen by the renderers so far, whether the two interactive modules of the
    [try] block can be imported, and whether GeoViews is installed.  The
    module names GeoViews in its error message but imports nothing of it,
    so no definition below reads [has_geoviews]. *)
Record world (D : Type) : Type := World {
  heap : list trajectory;
  next_obj : nat;
  events : list event;
  has_hvplot_pandas : bool;
  has_holoviews_opts : bool;
  has_geoviews : bool;
  self : styler D
}.
Arguments World {D}.
Arguments heap {D}.
Arguments next_obj {D}.
Arguments events {D}.
Arguments has_hvplot_pandas {D}.
Arguments has_holoviews_opts {D}.
Arguments has_geoviews {D}.
Arguments self {D}.

Section Setters.
Context {D : Type}.

Definition with_self (f : styler D -> styler D) (w : world D) : world D :=
    World (heap w) (next_obj w) (events w)
          (has_hvplot_pandas w) (has_holoviews_opts w)
          (has_geoviews w) (f (self w)).
Definition with_heap (f : list trajectory -> list trajectory) (w : world D)
    : world D :=
    World (f (heap w)) (next_obj w) (events w)
          (has_hvplot_pandas w) (has_holoviews_opts w)
          (has_geoviews w) (self w).
Definition with_next_obj (n : nat) (w : world D) : world D :=
    World (heap w) n (events w)
          (has_hvplot_pandas w) (has_holoviews_opts w)
          (has_geoviews w) (self w).
Definition with_event (e : event) (w : world D) : world D :=
    World (heap w) (next_obj w) (events w ++ [e])
          (has_hvplot_pandas w) (has_holoviews_opts w)
          (has_geoviews w) (self w).

Definition set_kwargs (k : gmap string pyval) (s : styler D) : styler D :=
    Styler (data s) (args s) k (width s) (height s) (figsize s) (column s)
           (ax s) (colormap s) (min_value s) (max_value s) (overlay s)
           (hvplot_is_geo s) (hvplot_tiles s) (marker_size s) (marker_color s)
           (line_width s) (_speeds s).
Definition set_ax (a : pyval) (s : styler D) : styler D :=
    Styler (data s) (args s) (kwargs s) (width s) (height s) (figsize s)
           (column s) a (colormap s) (min_value s) (max_value s) (overlay s)
           (hvplot_is_geo s) (hvplot_tiles s) (marker_size s) (marker_color s)
           (line_width s) (_speeds s).
Definition set_min_value (v : pyval) (s : styler D) : styler D :=
    Styler (data s) (args s) (kwargs s) (width s) (height s) (figsize s)
           (column s) (ax s) (colormap s) v (max_value s) (overlay s)
           (hvplot_is_geo s) (hvplot_tiles s) (marker_size s) (marker_color s)
           (line_width s) (_speeds s).
Definition set_max_value (v : pyval) (s : styler D) : styler D :=
    Styler (data s) (args s) (kwargs s) (width s) (height s) (figsize s)
           (column s) (ax s) (colormap s) (min_value s) v (overlay s)
           (hvplot_is_geo s) (hvplot_tiles s) (marker_size s) (marker_color s)
           (line_width s) (_speeds s).
Definition set_overlay (o : option drawable) (s : styler D) : styler D :=
    Styler (data s) (args s) (kwargs s) (width s) (height s) (figsize s)
           (column s) (ax s) (colormap s) (min_value s) (max_value s) o
           (hvplot_is_geo s) (hvplot_tiles s) (marker_size s) (marker_color s)
           (line_width s) (_speeds s).
Definition set_hvplot_tiles (v : pyval) (s : styler D) : styler D :=
    Styler (data s) (args s) (kwargs s) (width s) (height s) (figsize s)
           (column s) (ax s) (colormap s) (min_value s) (max_value s)
           (overlay s) (hvplot_is_geo s) v (marker_size s) (marker_color s)
           (line_width s) (_speeds s).
Definition set_speeds (v : list (list pyval)) (s : styler D) : styler D :=
    Styler (data s) (args s) (kwargs s) (width s) (height s) (figsize s)
           (column s) (ax s) (colormap s) (min_value s) (max_value s)
           (overlay s) (hvplot_is_geo s) (hvplot_tiles s) (marker_size s)
           (marker_color s) (line_width s) v.
End Setters.

(** ** The monad: state that survives an exception *)

Definition M (D A : Type) : Type := world D -> outcome A * world D.

Section Monad.
Context {D : Type}.

Definition ret {A} (a : A) : M D A := fun w => (Ok a, w).
Definition bind {A B} (m : M D A) (k : A -> M D B) : M D B :=
    fun w => match m w with
             | (Ok a, w') => k a w'
             | (Raise e, w') => (Raise e, w')
             end.
Definition raise {A} (e : exn) : M D A := fun w => (Raise e, w).
Definition gets {A} (f : world D -> A) : M D A := fun w => (Ok (f w), w).
Definition modify (f : world D -> world D) : M D unit :=
    fun w => (Ok tt, f w).

  (** [try: body except KeyError: handler] *)
Definition try_except_KeyError {A} (body handler : M D A) : M D A :=
    fun w => match body w with
             | (Raise (Builtin KeyError), w') => handler w'
             | r => r
             end.
End Monad.

Declare Scope py_scope.
Delimit Scope py_scope with py.
Notation "x <- m ;; k" := (bind m (fun x => k))
  (at level 100, m at next level, k at level 200, right associativity)
  : py_scope.
Notation "m ;; k" := (bind m (fun _ => k))
  (at level 100, k at level 200, right associativity) : py_scope.
Local Open Scope py_scope.

(** ** Built-in operations of the interpreter *)

(** [d.get(k, dflt)] and [d.pop(k, dflt)] on a keyword bag. *)
Definition dict_get (k : string) (dflt : pyval) (bag : gmap string pyval)
  : pyval := default dflt (bag !! k).
Definition dict_pop (k : string) (dflt : pyval) (bag : gmap string pyval)
  : pyval * gmap string pyval := (default dflt (bag !! k), delete k bag).

Definition is_none (v : pyval) : bool :=
  match v with PNone => true | _ => false end.

Definition hashable (v : pyval) : bool :=
  match v with PList _ | PDict _ => false | _ => true end.

(** [d[key]] on the pairs of a dict: the first key equal to [key]. *)
Fixpoint dict_lookup (key : pyval) (d : list (pyval * pyval)) : option pyval :=
  match d with
  | [] => None
  | (k, v) :: rest => if py_eq key k then Some v else dict_lookup key rest
  end.

(** [a + b] where [a] is a list: concatenation, or a [TypeError]. *)
Definition py_add (a b : pyval) : option pyval :=
  match a, b with
  | PList x, PList y => Some (PList (x ++ y))
  | _, _ => None
  end.

(** The built-ins [min] and [max] over a list: the first element is the
    candidate, and a later element replaces it when it is strictly below
    (above) it. *)
Fixpoint py_min_from (best : pyval) (l : list pyval) : option pyval :=
  match l with
  | [] => Some best
  | x :: xs =>
      match py_lt x best with
      | Some b => py_min_from (if b then x else best) xs
      | None => None
      end
  end.

Fixpoint py_max_from (best : pyval) (l : list pyval) : option pyval :=
  match l with
  | [] => Some best
  | x :: xs =>
      match py_lt best x with
      | Some b => py_max_from (if b then x else best) xs
      | None => None
      end
  end.

Definition py_min (l : list pyval) : builtin_exn + pyval :=
  match l with
  | [] => inl ValueError
  | x :: xs =>
      match py_min_from x xs with Some m => inr m | None => inl TypeError end
  end.

Definition py_max (l : list pyval) : builtin_exn + pyval :=
  match l with
  | [] => inl ValueError
  | x :: xs =>
      match py_max_from x xs with Some m => inr m | None => inl TypeError end
  end.

(** [series * -1.0], cell by cell: a number is negated; a missing cell
    ([None] or not-a-number) is skipped by pandas and comes out as
    not-a-number; any other cell refuses the product ([TypeError]). *)
Definition py_negate (v : pyval) : option pyval :=
  match v with
  | PNone | PNaN => Some PNaN
  | _ => z ← as_num v; Some (PNum (- z))
  end.

(** Keywords written at a call merged with [**bag]: a keyword given both
    ways is a [TypeError]. *)
Fixpoint bind_keywords (written : list (string * pyval))
    (bag : gmap string pyval) : option (gmap string pyval) :=
  match written with
  | [] => Some bag
  | (k, v) :: rest =>
      match bag !! k with
      | Some _ => None
      | None => (<[k := v]>) <$> bind_keywords rest bag
      end
  end.

(** ** Table operations (pandas) *)

Definition has_column (c : string) (f : frame) : bool :=
  match f !! c with Some _ => true | None => false end.

(** [v in f.columns]; column labels are strings. *)
Definition in_columns (v : pyval) (f : frame) : bool :=
  match v with PStr c => has_column c f | _ => false end.

(** [f[key]] *)
Definition frame_getitem (f : frame) (key : pyval) : option (list pyval) :=
  match key with PStr c => f !! c | _ => None end.

(** [f.tail(1)]: the last row. *)
Definition last_row (f : frame) : frame :=
  (fun s : list pyval => drop (List.length s - 1) s) <$> f.

(** [f.drop(labels, axis=1)]: a [KeyError] unless every label is there. *)
Definition drop_labels (labels : list string) (f : frame) : option frame :=
  if forallb (fun c => has_column c f) labels
  then Some (foldr delete f labels) else None.

(** [f.rename(columns={old: new})]: a missing [old] is ignored. *)
Definition rename (old new : string) (f : frame) : frame :=
  match f !! old with
  | Some s => <[new := s]> (delete old f)
  | None => f
  end.

(** [g.set_geometry(c)]: a [ValueError] when there is no column [c]. *)
Definition set_geometry (c : string) (g : gdf) : option gdf :=
  if has_column c (cols g) then Some (Gdf (cols g) c (gdf_crs g)) else None.

Definition set_crs (c : pyval) (g : gdf) : gdf :=
  Gdf (cols g) (geometry g) c.

(** The message of the one exception the module raises itself. *)
Definition missing_dependencies : string :=
  "Missing optional dependencies. To use interactive plotting, " ++
  "install hvplot and GeoViews (see " ++
  "https://hvplot.holoviz.org/getting_started/installation.html and " ++
  "https://geoviews.org).".

(** ** Monadic primitives *)

Section Primitives.
Context {D : Type} `{Collaborators}.

Definition lift_builtin {A} (r : builtin_exn + A) : M D A :=
  match r with inr a => ret a | inl e => raise (Builtin e) end.

Definition lift_collaborator {A} (r : string + A) : M D A :=
  match r with inr a => ret a | inl e => raise (Collaborator e) end.

Definition or_raise {A} (e : builtin_exn) (o : option A) : M D A :=
  match o with Some a => ret a | None => raise (Builtin e) end.

Fixpoint for_each {X} (l : list X) (body : X -> M D unit) : M D unit :=
  match l with
  | [] => ret tt
  | x :: xs => body x;; for_each xs body
  end.

(** [for i, x in enumerate(l)], counting from [i]. *)
Fixpoint for_enumerate {X} (i : nat) (l : list X)
    (body : nat -> X -> M D unit) : M D unit :=
  match l with
  | [] => ret tt
  | x :: xs => body i x;; for_enumerate (S i) xs body
  end.

(** [[f(x) for x in l]] *)
Fixpoint comprehension {X Y} (f : X -> M D Y) (l : list X) : M D (list Y) :=
  match l with
  | [] => ret []
  | x :: xs => y <- f x;; ys <- comprehension f xs;; ret (y :: ys)
  end.

Definition kwargs_pop (k : string) (dflt : pyval) : M D pyval :=
  fun w =>
    let '(v, bag) := dict_pop k dflt (kwargs (self w)) in
    (Ok v, with_self (set_kwargs bag) w).

Definition kwargs_set (k : string) (v : pyval) : M D unit :=
  modify (with_self (fun s => set_kwargs (<[k := v]> (kwargs s)) s)).

Definition kwargs_getitem (k : string) : M D pyval :=
  bag <- gets (fun w => kwargs (self w));;
  or_raise KeyError (bag !! k).

(** The object a reference points to.  [ReferenceError] marks a reference
    to no object, which a running program never holds. *)
Definition deref (r : nat) : M D trajectory :=
  h <- gets heap;; or_raise ReferenceError (h !! r).

Definition store (r : nat) (t : trajectory) : M D unit :=
  modify (with_heap (fun h => <[r := t]> h)).

Definition fresh_obj : M D pyval :=
  n <- gets next_obj;; modify (with_next_obj (S n));; ret (PObj n).

(** [plt.figure(figsize=figsize).add_subplot(1, 1, 1)] *)
Definition new_subplot (size : pyval) : M D pyval :=
  modify (with_event (Figure size));; fresh_obj.

(** Modelled from the spec: [Trajectory.copy] is not part of
    trajectory_plotter.py; the spec
    has the styler work "on a private copy", so a copy is a new object with
    the same table. *)
Definition copy (r : nat) : M D nat :=
  t <- deref r;;
  n <- gets (fun w => List.length (heap w));;
  modify (with_heap (fun h => h ++ [t]));;
  ret n.

(** Modelled from the spec: [Trajectory.add_speed(overwrite=True)] is not
    part of trajectory_plotter.py; the spec has it "compute and attach" the
    speed attribute to the trajectory's table, here under the trajectory's
    speed column name. *)
Definition add_speed (r : nat) : M D unit :=
  t <- deref r;;
  store r (set_df (<[speed_column_name t := PNum <$> compute_speed t]>) t).

(** Modelled from the spec: [Trajectory.add_direction(name=...)] is not
    part of trajectory_plotter.py; the spec has it compute the "direction"
    attribute on the trajectory's own table, under the name it is given. *)
Definition add_direction (r : nat) (name : string) : M D unit :=
  t <- deref r;;
  store r (set_df (<[name := PNum <$> compute_direction t]>) t).

(** [traj.df.drop(columns=[name], inplace=True)] *)
Definition drop_inplace (r : nat) (name : string) : M D unit :=
  t <- deref r;;
  f <- or_raise KeyError (drop_labels [name] (df t));;
  store r (set_df (fun _ => f) t).

(** [traj.df[key] = series] *)
Definition df_setitem (r : nat) (key : pyval) (series : list pyval)
  : M D unit :=
  t <- deref r;;
  match key with
  | PStr c => store r (set_df (<[c := series]>) t)
  | _ => raise (Builtin TypeError)
  end.

(** Modelled from the spec: [Trajectory._to_line_df] is not part of
    trajectory_plotter.py; the spec has it build "consecutive-position line segments with
    associated attribute columns", with the segment geometry in a column
    "line" and a helper column "prev_pt". *)
Definition _to_line_df (t : trajectory) : gdf :=
  Gdf (<["line" := segments t]>
         (<["prev_pt" := prev_points t]> (along_segments <$> df t)))
      "line" (crs t).

(** A call [tbl.method(written..., *self.args, **self.kwargs)]. *)
Definition call (s : call_site) (tbl : gdf) (written : list (string * pyval))
  : M D render_call :=
  a <- gets (fun w => args (self w));;
  bag <- gets (fun w => kwargs (self w));;
  kws <- or_raise TypeError (bind_keywords written bag);;
  let c := RenderCall s tbl a kws in
  modify (with_event (Render c));;
  ret c.

(** Modelled from the spec: the static renderer is "a call accepting a
    geometry table, target axis, ... returning a reusable axis handle": it
    draws on the axis it is given and returns it, and makes a new one when
    it is given [None]. *)
Definition gdf_plot (tbl : gdf) (written : list (string * pyval))
  : M D pyval :=
  c <- call LinePlot tbl written;;
  match keywords c !! "ax" with
  | Some a => if is_none a then fresh_obj else ret a
  | None => fresh_obj
  end.

(** The interactive renderer returns a drawable. *)
Definition gdf_hvplot (s : call_site) (tbl : gdf)
    (written : list (string * pyval)) : M D drawable :=
  c <- call s tbl written;; ret (Drawn c).

(** [container[key]] for a value-to-color mapping.  A dict is looked up by
    key; subscripting anything else with a table cell is a [TypeError] (the
    numbers of a table are floats, which index neither a list nor a
    string). *)
Definition subscript (container key : pyval) : M D pyval :=
  match container with
  | PDict d =>
      if hashable key then or_raise KeyError (dict_lookup key d)
      else raise (Builtin TypeError)
  | _ => raise (Builtin TypeError)
  end.

(** [traj.df[self.column].max()] *)
Definition column_max (traj : nat) : M D pyval :=
  t <- deref traj;;
  c <- gets (fun w => column (self w));;
  s <- or_raise KeyError (frame_getitem (df t) c);;
  ret (series_max s).

(** The [try: import hvplot.pandas; from holoviews import opts] block with
    its [except ImportError: raise ImportError(...)]. *)
Definition import_interactive : M D unit :=
  a <- gets has_hvplot_pandas;;
  b <- gets has_holoviews_opts;;
  if a && b then ret tt else raise (ImportError missing_dependencies).

(** [opts.defaults(opts.Overlay(width=..., height=..., ...))] *)
Definition overlay_defaults : M D unit :=
  w <- gets (fun w => width (self w));;
  h <- gets (fun w => height (self w));;
  modify (with_event (OverlayDefaults w h)).

End Primitives.

(** ** The single-trajectory styler *)

Module _TrajectoryPlotter.
Section Methods.
Context {D : Type} `{Collaborators}.

Definition __init__ (data : D) (args : list pyval)
    (kwargs : gmap string pyval) : styler D :=
  let '(width, kw) := dict_pop "width" (PNum 900) kwargs in
  let '(height, kw) := dict_pop "height" (PNum 700) kw in
  let '(figsize, kw) := dict_pop "figsize" PNone kw in
  let column := dict_get "column" PNone kw in
  let column := dict_get "c" column kw in
  let '(ax, kw) := dict_pop "ax" PNone kw in
  let '(colormap, kw) := dict_pop "colormap" PNone kw in
  let '(colormap, kw) := dict_pop "column_to_color" colormap kw in
  let min_value := dict_get "vmin" PNone kw in
  let max_value := dict_get "vmax" PNone kw in
  let '(geo, kw) := dict_pop "geo" (PBool true) kw in
  let '(tiles, kw) := dict_pop "tiles" (PStr "OSM") kw in
  let '(marker_size, kw) := dict_pop "marker_size" (PNum 200) kw in
  let '(marker_color, kw) := dict_pop "marker_color" PNone kw in
  let '(line_width, kw) := dict_pop "line_width" (PNum 3) kw in
  Styler data args kw width height figsize column ax colormap
         min_value max_value None geo tiles marker_size marker_color
         line_width [].

Definition _make_line_df (traj : nat) : M D gdf :=
  temp <- copy traj;;
  column <- gets (fun w => column (self w));;
  (if truthy column then
     t <- deref traj;;
     let speed_col_name := speed_column_name t in
     if py_eq column (PStr speed_col_name)
        && negb (has_column speed_col_name (df t))
     then add_speed temp
     else ret tt
   else ret tt);;
  tmp <- deref temp;;
  let line_gdf := _to_line_df tmp in
  f <- or_raise KeyError
         (drop_labels [geom_column_name tmp; "prev_pt"] (cols line_gdf));;
  let line_gdf := Gdf f (geometry line_gdf) (gdf_crs line_gdf) in
  let line_gdf :=
    Gdf (rename "line" "geometry" (cols line_gdf))
        (geometry line_gdf) (gdf_crs line_gdf) in
  line_gdf <- or_raise ValueError (set_geometry "geometry" line_gdf);;
  t <- deref traj;;
  if truthy (crs t) then ret (set_crs (crs t) line_gdf) else ret line_gdf.

Definition _get_trajectory_end_with_direction (traj : nat) : M D gdf :=
  t <- deref traj;;
  let direction_column_name := direction_column_name t in
  let direction_exists := has_column direction_column_name (df t) in
  (if direction_exists then ret tt
   else add_direction traj direction_column_name);;
  t <- deref traj;;
  let tmp := last_row (df t) in
  d <- or_raise KeyError (frame_getitem tmp (PStr direction_column_name));;
  angle <- or_raise TypeError (mapM py_negate d);;
  let tmp := <["triangle_angle" := angle]> tmp in
  (if negb direction_exists then drop_inplace traj direction_column_name
   else ret tt);;
  ret (Gdf tmp (geom_column_name t) (crs t)).

(** The [try ... except KeyError] that resolves the fixed color. *)
Definition resolve_color (traj : nat) : M D pyval :=
  try_except_KeyError
    (cm <- gets (fun w => colormap (self w));;
     key <- column_max traj;;
     subscript cm key)
    (ret (PStr "grey")).

Definition _plot_trajectory (traj : nat) : M D pyval :=
  line_df <- _make_line_df traj;;
  column <- gets (fun w => column (self w));;
  colormap <- gets (fun w => colormap (self w));;
  if truthy column && truthy colormap then
    color <- resolve_color traj;;
    ax <- gets (fun w => ax (self w));;
    gdf_plot line_df [("ax", ax); ("color", color)]
  else
    kwargs_pop "vmin" PNone;;
    kwargs_pop "vmax" PNone;;
    ax <- gets (fun w => ax (self w));;
    vmin <- gets (fun w => min_value (self w));;
    vmax <- gets (fun w => max_value (self w));;
    gdf_plot line_df [("ax", ax); ("vmin", vmin); ("vmax", vmax)].

Definition _hvplot_end_triangle (traj : nat) : M D drawable :=
  kwargs_pop "tiles" PNone;;
  hover_cols <- kwargs_pop "hover_cols" PNone;;
  kwargs_set "hover_cols" (PList [PStr "triangle_angle"]);;
  (if truthy hover_cols then
     cur <- kwargs_getitem "hover_cols";;
     v <- or_raise TypeError (py_add cur hover_cols);;
     kwargs_set "hover_cols" v
   else ret tt);;
  marker_color <- gets (fun w => marker_color (self w));;
  (if truthy marker_color then kwargs_set "color" marker_color else ret tt);;
  column <- gets (fun w => column (self w));;
  (if truthy column then
     cur <- kwargs_getitem "hover_cols";;
     v <- or_raise TypeError (py_add cur (PList [column]));;
     kwargs_set "hover_cols" v
   else ret tt);;
  end_pt_df <- _get_trajectory_end_with_direction traj;;
  geo <- gets (fun w => hvplot_is_geo (self w));;
  t <- deref traj;;
  let end_pt_df :=
    if truthy geo && negb (is_latlon t) && negb (is_none (crs t))
    then to_crs 4326 end_pt_df else end_pt_df in
  size <- gets (fun w => marker_size (self w));;
  gdf_hvplot EndTriangleHvplot end_pt_df
    [("geo", geo); ("tiles", PNone); ("marker", PStr "triangle");
     ("angle", PDim "triangle_angle"); ("size", size)].

Definition _hvplot_trajectory (traj : nat) : M D drawable :=
  line_gdf <- _make_line_df traj;;
  geo <- gets (fun w => hvplot_is_geo (self w));;
  t <- deref traj;;
  let line_gdf :=
    if truthy geo && negb (is_latlon t) && negb (is_none (crs t))
    then to_crs 4326 line_gdf else line_gdf in
  column <- gets (fun w => column (self w));;
  colormap <- gets (fun w => colormap (self w));;
  line_width <- gets (fun w => line_width (self w));;
  tiles <- gets (fun w => hvplot_tiles (self w));;
  line_plot <-
    (if truthy column && truthy colormap then
       color <- resolve_color traj;;
       label <- column_max traj;;
       gdf_hvplot LineHvplot line_gdf
         [("color", color); ("line_width", line_width); ("geo", geo);
          ("tiles", tiles); ("label", label)]
     else
       bag <- gets (fun w => kwargs (self w));;
       (if negb (bool_decide (is_Some (bag !! "colorbar")))
        then kwargs_set "colorbar" (PBool true) else ret tt);;
       gdf_hvplot LineHvplot line_gdf
         [("line_width", line_width); ("geo", geo); ("tiles", tiles)]);;
  end_pt_plot <- _hvplot_end_triangle traj;;
  ret (Over line_plot end_pt_plot).

End Methods.

Section EntryPoints.
Context `{Collaborators}.

Definition plot : M nat pyval :=
  a <- gets (fun w => ax (self w));;
  (if negb (truthy a) then
     size <- gets (fun w => figsize (self w));;
     a <- new_subplot size;;
     modify (with_self (set_ax a))
   else ret tt);;
  traj <- gets (fun w => data (self w));;
  a <- _plot_trajectory traj;;
  kwargs_set "legend" (PBool false);;
  kwargs_pop "column" PNone;;
  ret a.

Definition hvplot : M nat drawable :=
  import_interactive;;
  overlay_defaults;;
  traj <- gets (fun w => data (self w));;
  _hvplot_trajectory traj.

End EntryPoints.
End _TrajectoryPlotter.

(** ** The collection styler *)

Module _TrajectoryCollectionPlotter.
Import _TrajectoryPlotter.
Section Methods.
Context `{Collaborators}.

Definition __init__ (data : list nat) (args : list pyval)
    (kwargs : gmap string pyval) : styler (list nat) :=
  set_speeds [] (_TrajectoryPlotter.__init__ data args kwargs).

(** The body of the loop of [get_min_max_speed]. *)
Definition cache_speed (traj : nat) : M (list nat) unit :=
  temp <- copy traj;;
  add_speed temp;;
  t <- deref temp;;
  c <- gets (fun w => column (self w));;
  s <- or_raise KeyError (frame_getitem (df t) c);;
  modify (with_self (fun st => set_speeds (_speeds st ++ [s]) st)).

Definition get_min_max_speed : M (list nat) (pyval * pyval) :=
  trajs <- gets (fun w => data (self w));;
  for_each trajs cache_speed;;
  speeds <- gets (fun w => _speeds (self w));;
  mins <- comprehension (fun s => lift_builtin (py_min s)) speeds;;
  min_value <- lift_builtin (py_min mins);;
  maxs <- comprehension (fun s => lift_builtin (py_max s)) speeds;;
  max_value <- lift_builtin (py_max maxs);;
  ret (min_value, max_value).

Definition get_min_max_values : M (list nat) (pyval * pyval) :=
  trajs <- gets (fun w => data (self w));;
  r0 <- or_raise IndexError (trajs !! 0);;
  first <- deref r0;;
  let column_names := df first in
  let speed_column_name := speed_column_name first in
  c <- gets (fun w => column (self w));;
  bounds <-
    (if py_eq c (PStr speed_column_name) && negb (in_columns c column_names)
     then get_min_max_speed
     else
       h <- gets heap;;
       members <- or_raise ReferenceError (mapM (fun r => h !! r) trajs);;
       mn <- lift_collaborator (get_min members c);;
       mx <- lift_collaborator (get_max members c);;
       ret (mn, mx));;
  let '(min_value, max_value) := bounds in
  vmin <- kwargs_pop "vmin" min_value;;
  modify (with_self (set_min_value vmin));;
  vmax <- kwargs_pop "vmax" max_value;;
  modify (with_self (set_max_value vmax));;
  ret (min_value, max_value).

(** The body of the loop of [plot], for the member [traj] at index [i]. *)
Definition plot_member (i : nat) (traj : nat) : M (list nat) unit :=
  t <- deref traj;;
  let speed_col_name := speed_column_name t in
  c <- gets (fun w => column (self w));;
  (if py_eq c (PStr speed_col_name) && negb (in_columns c (df t)) then
     temp <- copy traj;;
     speeds <- gets (fun w => _speeds (self w));;
     s <- or_raise IndexError (speeds !! i);;
     df_setitem temp c s;;
     a <- _plot_trajectory temp;;
     modify (with_self (set_ax a))
   else
     a <- _plot_trajectory traj;;
     modify (with_self (set_ax a)));;
  kwargs_set "legend" (PBool false).

Definition plot : M (list nat) pyval :=
  c <- gets (fun w => column (self w));;
  (if truthy c then get_min_max_values;; ret tt else ret tt);;
  a <- gets (fun w => ax (self w));;
  (if negb (truthy a) then
     size <- gets (fun w => figsize (self w));;
     a <- new_subplot size;;
     modify (with_self (set_ax a))
   else ret tt);;
  trajs <- gets (fun w => data (self w));;
  for_enumerate 0 trajs plot_member;;
  gets (fun w => ax (self w)).

(** The body of the loop of [hvplot]. *)
Definition hvplot_member (traj : nat) : M (list nat) unit :=
  o <- _hvplot_trajectory traj;;
  acc <- gets (fun w => overlay (self w));;
  match acc with
  | Some a => modify (with_self (set_overlay (Some (Over a o))))
  | None => modify (with_self (set_overlay (Some o)))
  end;;
  modify (with_self (set_hvplot_tiles (PBool false))).

Definition hvplot : M (list nat) (option drawable) :=
  import_interactive;;
  overlay_defaults;;
  trajs <- gets (fun w => data (self w));;
  for_each trajs hvplot_member;;
  gets (fun w => overlay (self w)).

End Methods.
End _TrajectoryCollectionPlotter.

(** ** Sample data

    A concrete collaborator and two small trajectories, used to run the
    stylers on explicit inputs.  The sample speed of a trajectory is read
    off its "dist" column and its direction off its "heading" column. *)

Definition numbers (cells : list pyval) : list Z := omap as_num cells.

Definition sample_aggregate (pick : list pyval -> builtin_exn + pyval)
    (members : list trajectory) (c : pyval) : string + pyval :=
  match pick (List.concat (omap (fun t => frame_getitem (df t) c) members)) with
  | inr v => inr v
  | inl _ => inl "no values"
  end.

Definition sample_collaborators : Collaborators := {|
  compute_speed t := numbers (default [] (df t !! "dist"));
  compute_direction t := numbers (default [] (df t !! "heading"));
  segments t := [PStr "segment"];
  prev_points t := [PStr "point"];
  along_segments s := tail s;
  series_max s := match py_max s with inr v => v | inl _ => PNone end;
  to_crs _ g := g;
  get_min := sample_aggregate py_min;
  get_max := sample_aggregate py_max
|}.

Definition sample_traj (dist heading : list Z) : trajectory :=
  Trajectory
    (<["geometry" := [PStr "p0"; PStr "p1"; PStr "p2"]]>
       (<["dist" := PNum <$> dist]>
          (<["heading" := PNum <$> heading]>
             (<["kind" := [PStr "ferry"; PStr "ferry"; PStr "ferry"]]> ∅))))
    PNone true "speed" "direction" "geometry".

Definition sample_heap : list trajectory :=
  [sample_traj [3; 1; 2]%Z [10; 20; 30]%Z;
   sample_traj [7; 5; 6]%Z [40; 50; 60]%Z].

(** A world right after construction, before any method has run. *)
Definition fresh_world {D} (h : list trajectory) (hv ho gv : bool)
    (s : styler D) : world D :=
  World h 0 [] hv ho gv s.

Definition sample_single (kw : gmap string pyval) : world nat :=
  fresh_world sample_heap true true true (_TrajectoryPlotter.__init__ 0 [] kw).

Definition sample_collection (kw : gmap string pyval) : world (list nat) :=
  fresh_world sample_heap true true true
    (_TrajectoryCollectionPlotter.__init__ [0; 1] [] kw).

(** The renderer calls among a list of events, in order. *)
Definition renders (es : list event) : list render_call :=
  omap (fun e => match e with Render c => Some c | _ => None end) es.

Definition same_site (a b : call_site) : bool :=
  match a, b with
  | LinePlot, LinePlot => true
  | LineHvplot, LineHvplot => true
  | EndTriangleHvplot, EndTriangleHvplot => true
  | _, _ => false
  end.

(** The calls issued from the call site [s], in order. *)
Definition calls_at (s : call_site) (cs : list render_call)
  : list render_call :=
  List.filter (fun c => same_site (site c) s) cs.

Definition tiles_of (c : render_call) : option pyval := keywords c !! "tiles".

Definition hover_cols_of (c : render_call) : option pyval :=
  keywords c !! "hover_cols".

(** Whether [needle] occurs in [hay]. *)
Definition mentions (needle hay : string) : bool :=
  match String.index 0 needle hay with Some _ => true | None => false end.

(** The option names the constructor pops, in the order of the source. *)
Definition popped_keys : list string :=
  ["width"; "height"; "figsize"; "ax"; "colormap"; "column_to_color";
   "geo"; "tiles"; "marker_size"; "marker_color"; "line_width"].

(** ** Reading aids for the statements below *)

(** The direction series the end marker is computed from: the column the
    trajectory already has, or else the one [add_direction] computes. *)
Definition direction_series `{Collaborators} (t : trajectory) : list pyval :=
  default (PNum <$> compute_direction t) (df t !! direction_column_name t).

(** The trajectory's table with the direction attribute in place. *)
Definition with_direction `{Collaborators} (t : trajectory) : frame :=
  match df t !! direction_column_name t with
  | Some _ => df t
  | None => <[direction_column_name t := PNum <$> compute_direction t]> (df t)
  end.

(** Whether the styler must compute the speed of [t] itself: the
    color-by-column [c] is the trajectory's speed column and the table does
    not have it. *)
Definition needs_speed (c : pyval) (t : trajectory) : bool :=
  truthy c && py_eq c (PStr (speed_column_name t))
  && negb (has_column (speed_column_name t) (df t)).

(** The private copy [_make_line_df] works on. *)
Definition private_copy `{Collaborators} (c : pyval) (t : trajectory)
  : trajectory :=
  if needs_speed c t
  then set_df (<[speed_column_name t := PNum <$> compute_speed t]>) t
  else t.

(** A trajectory whose table has its geometry column, under a name other
    than the "line" column the segments go to. *)
Definition well_formed (t : trajectory) : Prop :=
  has_column (geom_column_name t) (df t) = true
  /\ geom_column_name t <> "line".

(** What the [try ... except KeyError] of the color lookup comes to, for
    the object [ot] the trajectory reference points to, the mapping [cm]
    and the color-by-column [c]. *)
Definition color_outcome `{Collaborators} (ot : option trajectory)
    (cm c : pyval) : outcome pyval :=
  match ot with
  | None => Raise (Builtin ReferenceError)
  | Some t =>
      match frame_getitem (df t) c with
      | None => Ok (PStr "grey")
      | Some s =>
          match cm with
          | PDict d =>
              if hashable (series_max s)
              then Ok (default (PStr "grey") (dict_lookup (series_max s) d))
              else Raise (Builtin TypeError)
          | _ => Raise (Builtin TypeError)
          end
      end
  end.

(** The keywords the static render writes at its call. *)
Definition written_static : list string := ["ax"; "color"; "vmin"; "vmax"].

(** The list held under "hover_cols", read as the caller's hover columns:
    anything that is not a list counts for none. *)
Definition hover_list (v : option pyval) : list pyval :=
  match v with Some (PList l) => l | _ => [] end.

(** The hover columns after [k] end-marker renders that started from the
    list [l], for the color-by-column [c]. *)
Definition hover_after (k : nat) (c : pyval) (l : list pyval) : list pyval :=
  replicate k (PStr "triangle_angle") ++ l
  ++ (if truthy c then replicate k c else []).

(** What the interactive line call of one trajectory looks like, seen from
    the state [w] the render started in. *)
Definition line_call_of `{Collaborators} {D} (w : world D) (traj : nat)
    (c : render_call) : Prop :=
  site c = LineHvplot
  /\ keywords c !! "tiles" = Some (hvplot_tiles (self w))
  /\ (truthy (column (self w)) && truthy (colormap (self w)) = true ->
      exists col,
        color_outcome (heap w !! traj) (colormap (self w)) (column (self w))
          = Ok col
        /\ keywords c !! "color" = Some col).

(** What the end-marker call of one trajectory looks like. *)
Definition end_call_of {D} (w : world D) (c : render_call) : Prop :=
  site c = EndTriangleHvplot
  /\ keywords c !! "tiles" = Some PNone
  /\ keywords c !! "hover_cols"
     = Some (PList (hover_after 1 (column (self w))
                      (hover_list (kwargs (self w) !! "hover_cols")))).

(** Whether the styler takes the fixed-color branch of a render. *)
Definition fixed_color {D} (s : styler D) : bool :=
  truthy (column s) && truthy (colormap s).

Definition legend_off (c : render_call) : Prop :=
  keywords c !! "legend" = Some (PBool false).

Definition bounded_by (lo hi : pyval) (c : render_call) : Prop :=
  keywords c !! "vmin" = Some lo /\ keywords c !! "vmax" = Some hi.

(** One pass of the static loop: it raises before any render, or it
    renders once, with the legend option as the bag had it and, outside the
    fixed-color branch, with the styler's bounds, and then switches the
    legend off. *)
Definition static_pass {D} (w : world D) (o : outcome unit) (w1 : world D)
  : Prop :=
  (exists e, o = Raise e /\ events w1 = events w)
  \/ (exists c K a,
        o = Ok tt
        /\ events w1 = events w ++ [Render c]
        /\ self w1 = set_ax a (set_kwargs K (self w))
        /\ K !! "legend" = Some (PBool false)
        /\ keywords c !! "legend" = kwargs (self w) !! "legend"
        /\ (fixed_color (self w) = false -> 
            bounded_by (min_value (self w)) (max_value (self w)) c)).

(** One pass of the interactive loop: it raises after at most the line
    render, or it issues the line render and the end-marker render and then
    switches the tiles off. *)
Definition interactive_pass {D} (w : world D) (o : outcome unit)
    (w1 : world D) : Prop :=
  exists new,
    events w1 = events w ++ (Render <$> new)
    /\ ((exists e, o = Raise e
           /\ (new = []
               \/ exists line, new = [line] /\ site line = LineHvplot
                    /\ tiles_of line = Some (hvplot_tiles (self w))))
        \/ (exists line endc K ov,
              o = Ok tt /\ new = [line; endc]
              /\ site line = LineHvplot
              /\ tiles_of line = Some (hvplot_tiles (self w))
              /\ end_call_of w endc
              /\ self w1 = set_hvplot_tiles (PBool false)
                             (set_overlay ov (set_kwargs K (self w)))
              /\ K !! "hover_cols" = hover_cols_of endc)).

Definition tiles_off (c : render_call) : Prop := tiles_of c = Some (PBool false).
Definition tiles_none (c : render_call) : Prop := tiles_of c = Some PNone.

(** [m] is the least (greatest) number of the list [l]. *)
Definition least (l : list Z) (m : Z) : Prop :=
  m ∈ l /\ forall x, x ∈ l -> (m <= x)%Z.
Definition greatest (l : list Z) (m : Z) : Prop :=
  m ∈ l /\ forall x, x ∈ l -> (x <= m)%Z.

(** The speed series the styler computes for a member. *)
Definition speed_series `{Collaborators} (t : trajectory) : list pyval :=
  PNum <$> compute_speed t.

(** The test at the head of [get_min_max_values], on the first member. *)
Definition speed_is_missing (c : pyval) (first : trajectory) : bool :=
  py_eq c (PStr (speed_column_name first)) && negb (in_columns c (df first)).

(** ** Predicates on computations *)

(** A computation is quiet when it never ends in the module's own
    [ImportError]. *)
Definition quiet {D A} (m : M D A) : Prop :=
  forall w msg, fst (m w) <> Raise (ImportError msg).

(** A computation keeps the styler and the events when it touches neither,
    whatever its outcome. *)
Definition keeps {D A} (m : M D A) : Prop :=
  forall w o w', m w = (o, w') -> self w' = self w /\ events w' = events w.

(** A computation keeps the options when it leaves the events alone and
    changes no field of the styler but the cached speeds. *)
Definition keeps_options {D A} (m : M D A) : Prop :=
  forall w o w', m w = (o, w') ->
    events w' = events w /\ exists sp, self w' = set_speeds sp (self w).

(** What the tail of [_make_line_df] makes of the private copy [tmp], for
    the coordinate reference system [c] of the caller's trajectory. *)
Definition line_table `{Collaborators} (tmp : trajectory) (c : pyval)
  : outcome gdf :=
  match drop_labels [geom_column_name tmp; "prev_pt"]
          (cols (_to_line_df tmp)) with
  | None => Raise (Builtin KeyError)
  | Some f =>
      match set_geometry "geometry"
              (Gdf (rename "line" "geometry" f) "line" (crs tmp)) with
      | None => Raise (Builtin ValueError)
      | Some g => Ok (if truthy c then set_crs c g else g)
      end
  end.

(** ** Reading aids for the further properties *)

(** What [tail(1)] keeps of a series: its last cell, or nothing. *)
Definition last_cells (s : list pyval) : list pyval :=
  drop (List.length s - 1) s.

(** The "triangle_angle" column of the end point: the last direction cell
    negated, or nothing when that cell refuses the product. *)
Definition end_angle `{Collaborators} (t : trajectory) : option (list pyval) :=
  mapM py_negate (last_cells (direction_series t)).

(** What [_get_trajectory_end_with_direction] comes to for the trajectory
    [t]. *)
Definition end_table `{Collaborators} (t : trajectory) : outcome gdf :=
  match end_angle t with
  | Some angle =>
      Ok (Gdf (<["triangle_angle" := angle]> (last_row (with_direction t)))
              (geom_column_name t) (crs t))
  | None => Raise (Builtin TypeError)
  end.

(** The reprojection both interactive renders apply to their table. *)
Definition reproject `{Collaborators} (geo : pyval) (t : trajectory) (g : gdf)
  : gdf :=
  if truthy geo && negb (is_latlon t) && negb (is_none (crs t))
  then to_crs 4326 g else g.

(** Whether the caller's hover columns can be appended to a list: a truthy
    value that is no list cannot. *)
Definition hover_ok (v : option pyval) : bool :=
  match v with
  | Some (PList _) => true
  | Some x => negb (truthy x)
  | None => true
  end.

(** The bag [_hvplot_end_triangle] leaves behind: "tiles" removed, the
    hover columns rebuilt, and the marker color, when set, under "color". *)
Definition end_bag {D} (st : styler D) : gmap string pyval :=
  let b := <["hover_cols" :=
              PList (hover_after 1 (column st)
                       (hover_list (kwargs st !! "hover_cols")))]>
             (delete "tiles" (kwargs st)) in
  if truthy (marker_color st) then <["color" := marker_color st]> b else b.

(** The keywords [_hvplot_end_triangle] writes at its call. *)
Definition end_written {D} (st : styler D) : list (string * pyval) :=
  [("geo", hvplot_is_geo st); ("tiles", PNone); ("marker", PStr "triangle");
   ("angle", PDim "triangle_angle"); ("size", marker_size st)].

(** [traj.df[self.column].max()] for the trajectory [t]. *)
Definition column_max_of `{Collaborators} (t : trajectory) (c : pyval)
  : outcome pyval :=
  match frame_getitem (df t) c with
  | Some s => Ok (series_max s)
  | None => Raise (Builtin KeyError)
  end.

(** The bag the interactive line render reads: outside the fixed-color
    branch a "colorbar" option has been put in where there was none. *)
Definition line_bag {D} (st : styler D) : gmap string pyval :=
  if fixed_color st then kwargs st
  else if bool_decide (is_Some (kwargs st !! "colorbar")) then kwargs st
       else <["colorbar" := PBool true]> (kwargs st).

(** The keywords the interactive line render writes at its call; in the
    fixed-color branch computing them can raise. *)
Definition line_written `{Collaborators} {D} (st : styler D) (t : trajectory)
  : outcome (list (string * pyval)) :=
  if fixed_color st then
    match color_outcome (Some t) (colormap st) (column st) with
    | Raise e => Raise e
    | Ok color =>
        match column_max_of t (column st) with
        | Raise e => Raise e
        | Ok label =>
            Ok [("color", color); ("line_width", line_width st);
                ("geo", hvplot_is_geo st); ("tiles", hvplot_tiles st);
                ("label", label)]
        end
    end
  else Ok [("line_width", line_width st); ("geo", hvplot_is_geo st);
           ("tiles", hvplot_tiles st)].

(** The bag the static render reads: outside the fixed-color branch "vmin"
    and "vmax" have been popped. *)
Definition static_bag {D} (st : styler D) : gmap string pyval :=
  if fixed_color st then kwargs st
  else delete "vmax" (delete "vmin" (kwargs st)).

(** The keywords the static render writes at its call. *)
Definition static_written `{Collaborators} {D} (st : styler D) (t : trajectory)
  : outcome (list (string * pyval)) :=
  if fixed_color st then
    match color_outcome (Some t) (colormap st) (column st) with
    | Raise e => Raise e
    | Ok color => Ok [("ax", ax st); ("color", color)]
    end
  else Ok [("ax", ax st); ("vmin", min_value st); ("vmax", max_value st)].

(** The state after the [if not self.ax] block of the two [plot] methods:
    a styler without an axis gets the subplot of a new figure. *)
Definition with_axis {D} (w : world D) : world D :=
  if truthy (ax (self w)) then w
  else with_self (set_ax (PObj (next_obj w)))
         (with_next_obj (S (next_obj w))
            (with_event (Figure (figsize (self w))) w)).

(** What the last two statements of the single styler's [plot] make of the
    bag. *)
Definition after_plot (bag : gmap string pyval) : gmap string pyval :=
  delete "column" (<["legend" := PBool false]> bag).

(** The line render of [_hvplot_trajectory] for the trajectory [t], when
    the method comes to one. *)
Definition line_render `{Collaborators} {D} (st : styler D) (t : trajectory)
  : option render_call :=
  match line_table (private_copy (column st) t) (crs t), line_written st t with
  | Ok g, Ok ws =>
      RenderCall LineHvplot (reproject (hvplot_is_geo st) t g) (args st)
        <$> bind_keywords ws (line_bag st)
  | _, _ => None
  end.

(** The end-marker render of [_hvplot_end_triangle], when the method comes
    to one. *)
Definition end_render `{Collaborators} {D} (st : styler D) (t : trajectory)
  : option render_call :=
  if hover_ok (kwargs st !! "hover_cols") then
    match end_table t with
    | Ok g =>
        RenderCall EndTriangleHvplot (reproject (hvplot_is_geo st) t g)
          (args st) <$> bind_keywords (end_written st) (end_bag st)
    | Raise _ => None
    end
  else None.

(** holoviews' [acc * d] with the accumulator of the collection loop: the
    first drawable starts the overlay. *)
Definition onto (acc : option drawable) (d : drawable) : drawable :=
  match acc with Some a => Over a d | None => d end.

(** The overlay after compositing the drawables [ds], in order. *)
Definition composite (acc : option drawable) (ds : list drawable)
  : option drawable :=
  foldl (fun acc d => Some (onto acc d)) acc ds.

(** The drawables of a run of renderer calls: each line render with the
    end-marker render that follows it. *)
Fixpoint pair_up (cs : list render_call) : list drawable :=
  match cs with
  | line :: endc :: rest => Over (Drawn line) (Drawn endc) :: pair_up rest
  | _ => []
  end.



(** A computation spares the first [n] objects of the store when it
    neither changes nor removes them, whatever its outcome. *)
Definition spares {D A} (n : nat) (m : M D A) : Prop :=
  forall w o w', m w = (o, w') -> n <= List.length (heap w) ->
    n <= List.length (heap w') /\ take n (heap w') = take n (heap w).

(** A computation leaves the store alone. *)
Definition heap_same {D A} (m : M D A) : Prop :=
  forall w o w', m w = (o, w') -> heap w' = heap w.

(** * Properties *)

(** ** Construction *)

Lemma init_kwargs {D} (d : D) (a : list pyval) (kw : gmap string pyval) :
  kwargs (_TrajectoryPlotter.__init__ d a kw)
  = foldr delete kw (reverse popped_keys).
Proof. reflexivity. Qed.

Lemma init_kwargs_lookup {D} (d : D) a (kw : gmap string pyval) (k : string) :
  kwargs (_TrajectoryPlotter.__init__ d a kw) !! k
  = if bool_decide (k ∈ popped_keys) then None else kw !! k.
Proof.
  rewrite init_kwargs. case_bool_decide as Hk.
  - apply lookup_foldr_delete. by apply elem_of_reverse.
  - apply lookup_foldr_delete_not_elem_of. by rewrite elem_of_reverse.
Qed.

(** C9, as amended: the constructor removes from the bag exactly the eleven
    options it pops (width, height, figsize, ax, colormap, column_to_color,
    geo, tiles, marker_size, marker_color, line_width); every other option,
    the color-by-column names "column" and "c" among them, stays in the bag
    with its value.  The same holds for the collection styler. *)
Theorem C9_init_pops_exactly_popped_keys :
  forall (D : Type) (d : D) (ds : list nat) (a : list pyval)
         (kw : gmap string pyval) (k : string),
    kwargs (_TrajectoryPlotter.__init__ d a kw) !! k
    = (if bool_decide (k ∈ popped_keys) then None else kw !! k)
    /\ kwargs (_TrajectoryCollectionPlotter.__init__ ds a kw) !! k
       = (if bool_decide (k ∈ popped_keys) then None else kw !! k).
Proof.
  intros. split; [apply init_kwargs_lookup |].
  unfold _TrajectoryCollectionPlotter.__init__, set_speeds. cbn [kwargs].
  apply init_kwargs_lookup.
Qed.

(** C9, as stated, fails: a color-by-column name given as "column" is read
    by the constructor and is still in the bag afterwards. *)
Lemma C9_column_stays_in_bag :
  kwargs (_TrajectoryPlotter.__init__ 0 []
            (<["column" := PStr "speed"]> (<["width" := PNum 400]> ∅)))
    !! "column" = Some (PStr "speed")
  /\ column (_TrajectoryPlotter.__init__ 0 []
            (<["column" := PStr "speed"]> (<["width" := PNum 400]> ∅)))
     = PStr "speed".
Proof. split; vm_compute; reflexivity. Qed.

(** ** The missing interactive capability *)

Section Quiet.
Context {D : Type} `{Collaborators}.

Lemma quiet_ret {A} (a : A) : quiet (D := D) (ret a).
Proof. intros w msg; discriminate. Qed.

Lemma quiet_gets {A} (f : world D -> A) : quiet (D := D) (gets f).
Proof. intros w msg; discriminate. Qed.

Lemma quiet_modify (f : world D -> world D) : quiet (D := D) (modify f).
Proof. intros w msg; discriminate. Qed.

Lemma quiet_raise_builtin {A} (e : builtin_exn) : quiet (D := D) (@raise D A (Builtin e)).
Proof. intros w msg; discriminate. Qed.

Lemma quiet_raise_collaborator {A} (e : string) :
  quiet (D := D) (@raise D A (Collaborator e)).
Proof. intros w msg; discriminate. Qed.

Lemma quiet_bind {A B} (m : M D A) (k : A -> M D B) :
  quiet m -> (forall a, quiet (D := D) (k a)) -> quiet (D := D) (bind m k).
Proof.
  intros Hm Hk w msg. unfold bind. specialize (Hm w).
  destruct (m w) as [[a|e] w'] eqn:E; cbn in *.
  - apply Hk.
  - intros [= ->]. by apply (Hm msg).
Qed.

Lemma quiet_try {A} (m h : M D A) :
  quiet m -> quiet h -> quiet (D := D) (try_except_KeyError m h).
Proof.
  intros Hm Hh w msg. unfold try_except_KeyError. specialize (Hm w).
  destruct (m w) as [[a|[?|[]|?]] w'] eqn:E; cbn in *;
    try discriminate; try apply Hh.
  by apply Hm.
Qed.

Lemma quiet_or_raise {A} (e : builtin_exn) (o : option A) :
  quiet (D := D) (or_raise e o).
Proof. destruct o; intros w msg; discriminate. Qed.

Lemma quiet_lift_builtin {A} (r : builtin_exn + A) : quiet (D := D) (lift_builtin r).
Proof. destruct r; intros w msg; discriminate. Qed.

Lemma quiet_lift_collaborator {A} (r : string + A) :
  quiet (D := D) (lift_collaborator r).
Proof. destruct r; intros w msg; discriminate. Qed.

Lemma quiet_kwargs_pop k dflt : quiet (D := D) (kwargs_pop k dflt).
Proof. intros w msg; discriminate. Qed.

Lemma quiet_for_each {X} (l : list X) (body : X -> M D unit) :
  (forall x, quiet (D := D) (body x)) -> quiet (D := D) (for_each l body).
Proof.
  intros Hb. induction l as [|x xs IH]; cbn.
  - apply quiet_ret.
  - apply quiet_bind; auto.
Qed.

Lemma quiet_for_enumerate {X} (l : list X) (body : nat -> X -> M D unit) i :
  (forall j x, quiet (D := D) (body j x)) -> quiet (D := D) (for_enumerate i l body).
Proof.
  intros Hb. revert i. induction l as [|x xs IH]; intros i; cbn.
  - apply quiet_ret.
  - apply quiet_bind; auto.
Qed.

Lemma quiet_comprehension {X Y} (f : X -> M D Y) (l : list X) :
  (forall x, quiet (D := D) (f x)) -> quiet (D := D) (comprehension f l).
Proof.
  intros Hf. induction l as [|x xs IH]; cbn.
  - apply quiet_ret.
  - apply quiet_bind; [auto | intros y].
    apply quiet_bind; [auto | intros ys]. apply quiet_ret.
Qed.

End Quiet.

Create HintDb quiet.
#[export] Hint Resolve quiet_ret quiet_gets quiet_modify quiet_raise_builtin
  quiet_raise_collaborator quiet_try quiet_or_raise
  quiet_lift_builtin quiet_lift_collaborator quiet_kwargs_pop
  quiet_for_each quiet_for_enumerate quiet_comprehension : quiet.

(** Walk through a computation bind by bind, splitting on every test. *)
Ltac quiet_walk :=
  repeat first
    [ progress intros
    | progress cbv zeta
    | solve [auto with quiet]
    | apply quiet_for_each
    | apply quiet_for_enumerate
    | apply quiet_comprehension
    | apply quiet_bind
    | apply quiet_try
    | match goal with
      | |- quiet (if ?b then _ else _) => destruct b
      | |- quiet (match ?x with _ => _ end) => destruct x
      end ].


Lemma quiet_kwargs_set {D} `{Collaborators} k v : quiet (D := D) (kwargs_set k v).
Proof. unfold kwargs_set. quiet_walk. Qed.
Lemma quiet_kwargs_getitem {D} `{Collaborators} k : quiet (D := D) (kwargs_getitem k).
Proof. unfold kwargs_getitem. quiet_walk. Qed.
Lemma quiet_deref {D} `{Collaborators} r : quiet (D := D) (deref r).
Proof. unfold deref. quiet_walk. Qed.
Lemma quiet_store {D} `{Collaborators} r t : quiet (D := D) (store r t).
Proof. unfold store. quiet_walk. Qed.
Lemma quiet_fresh_obj {D} `{Collaborators} : quiet (D := D) fresh_obj.
Proof. unfold fresh_obj. quiet_walk. Qed.
#[export] Hint Resolve quiet_kwargs_set quiet_kwargs_getitem quiet_deref quiet_store
  quiet_fresh_obj : quiet.

Lemma quiet_new_subplot {D} `{Collaborators} s : quiet (D := D) (new_subplot s).
Proof. unfold new_subplot. quiet_walk. Qed.
Lemma quiet_copy {D} `{Collaborators} r : quiet (D := D) (copy r).
Proof. unfold copy. quiet_walk. Qed.
Lemma quiet_add_speed {D} `{Collaborators} r : quiet (D := D) (add_speed r).
Proof. unfold add_speed. quiet_walk. Qed.
Lemma quiet_add_direction {D} `{Collaborators} r n : quiet (D := D) (add_direction r n).
Proof. unfold add_direction. quiet_walk. Qed.
Lemma quiet_drop_inplace {D} `{Collaborators} r n : quiet (D := D) (drop_inplace r n).
Proof. unfold drop_inplace. quiet_walk. Qed.
Lemma quiet_df_setitem {D} `{Collaborators} r k s : quiet (D := D) (df_setitem r k s).
Proof. unfold df_setitem. quiet_walk. Qed.
Lemma quiet_call {D} `{Collaborators} s g ws : quiet (D := D) (call s g ws).
Proof. unfold call. quiet_walk. Qed.
#[export] Hint Resolve quiet_new_subplot quiet_copy quiet_add_speed quiet_add_direction
  quiet_drop_inplace quiet_df_setitem quiet_call : quiet.

Lemma quiet_gdf_plot {D} `{Collaborators} g ws : quiet (D := D) (gdf_plot g ws).
Proof. unfold gdf_plot. quiet_walk. Qed.
Lemma quiet_gdf_hvplot {D} `{Collaborators} s g ws : quiet (D := D) (gdf_hvplot s g ws).
Proof. unfold gdf_hvplot. quiet_walk. Qed.
Lemma quiet_subscript {D} `{Collaborators} c k : quiet (D := D) (subscript c k).
Proof. unfold subscript. quiet_walk. Qed.
Lemma quiet_column_max {D} `{Collaborators} r : quiet (D := D) (column_max r).
Proof. unfold column_max. quiet_walk. Qed.
Lemma quiet_overlay_defaults {D} `{Collaborators} : quiet (D := D) overlay_defaults.
Proof. unfold overlay_defaults. quiet_walk. Qed.
#[export] Hint Resolve quiet_gdf_plot quiet_gdf_hvplot quiet_subscript quiet_column_max
  quiet_overlay_defaults : quiet.

Lemma quiet_make_line_df {D} `{Collaborators} r : quiet (D := D) (_TrajectoryPlotter._make_line_df r).
Proof. unfold _TrajectoryPlotter._make_line_df. quiet_walk. Qed.
Lemma quiet_end_with_direction {D} `{Collaborators} r :
  quiet (D := D) (_TrajectoryPlotter._get_trajectory_end_with_direction r).
Proof.
  unfold _TrajectoryPlotter._get_trajectory_end_with_direction. quiet_walk.
Qed.
Lemma quiet_resolve_color {D} `{Collaborators} r : quiet (D := D) (_TrajectoryPlotter.resolve_color r).
Proof. unfold _TrajectoryPlotter.resolve_color. quiet_walk. Qed.
#[export] Hint Resolve quiet_make_line_df quiet_end_with_direction quiet_resolve_color
  : quiet.

Lemma quiet_plot_trajectory {D} `{Collaborators} r :
  quiet (D := D) (_TrajectoryPlotter._plot_trajectory r).
Proof. unfold _TrajectoryPlotter._plot_trajectory. quiet_walk. Qed.
Lemma quiet_hvplot_end_triangle {D} `{Collaborators} r :
  quiet (D := D) (_TrajectoryPlotter._hvplot_end_triangle r).
Proof. unfold _TrajectoryPlotter._hvplot_end_triangle. quiet_walk. Qed.
#[export] Hint Resolve quiet_plot_trajectory quiet_hvplot_end_triangle : quiet.

Lemma quiet_hvplot_trajectory {D} `{Collaborators} r :
  quiet (D := D) (_TrajectoryPlotter._hvplot_trajectory r).
Proof. unfold _TrajectoryPlotter._hvplot_trajectory. quiet_walk. Qed.

#[export] Hint Resolve quiet_hvplot_trajectory : quiet.

Lemma quiet_cache_speed `{Collaborators} r :
  quiet (_TrajectoryCollectionPlotter.cache_speed r).
Proof. unfold _TrajectoryCollectionPlotter.cache_speed. quiet_walk. Qed.
Lemma quiet_plot_member `{Collaborators} i r :
  quiet (_TrajectoryCollectionPlotter.plot_member i r).
Proof. unfold _TrajectoryCollectionPlotter.plot_member. quiet_walk. Qed.
Lemma quiet_hvplot_member `{Collaborators} r :
  quiet (_TrajectoryCollectionPlotter.hvplot_member r).
Proof. unfold _TrajectoryCollectionPlotter.hvplot_member. quiet_walk. Qed.
#[export] Hint Resolve quiet_cache_speed quiet_plot_member quiet_hvplot_member
  : quiet.

Lemma quiet_get_min_max_speed `{Collaborators} :
  quiet _TrajectoryCollectionPlotter.get_min_max_speed.
Proof. unfold _TrajectoryCollectionPlotter.get_min_max_speed. quiet_walk. Qed.
#[export] Hint Resolve quiet_get_min_max_speed : quiet.

Lemma quiet_get_min_max_values `{Collaborators} :
  quiet _TrajectoryCollectionPlotter.get_min_max_values.
Proof. unfold _TrajectoryCollectionPlotter.get_min_max_values. quiet_walk. Qed.
#[export] Hint Resolve quiet_get_min_max_values : quiet.

Lemma quiet_plot `{Collaborators} : quiet _TrajectoryPlotter.plot.
Proof. unfold _TrajectoryPlotter.plot. quiet_walk. Qed.

Lemma quiet_collection_plot `{Collaborators} :
  quiet _TrajectoryCollectionPlotter.plot.
Proof. unfold _TrajectoryCollectionPlotter.plot. quiet_walk. Qed.

Lemma import_interactive_run {D} (w : world D) :
  import_interactive w
  = (if has_hvplot_pandas w && has_holoviews_opts w
     then Ok tt else Raise (ImportError missing_dependencies), w).
Proof.
  unfold import_interactive, bind, gets. cbn.
  by destruct (has_hvplot_pandas w), (has_holoviews_opts w).
Qed.

Lemma guarded_import {D A} (m : M D A) (w : world D) msg :
  quiet m ->
  fst ((import_interactive;; m) w) = Raise (ImportError msg) ->
  msg = missing_dependencies
  /\ has_hvplot_pandas w && has_holoviews_opts w = false.
Proof.
  intros Q. unfold bind. rewrite import_interactive_run.
  destruct (has_hvplot_pandas w && has_holoviews_opts w).
  - intros E. by apply Q in E.
  - cbn. by intros [= <-].
Qed.

Lemma hvplot_import_error `{Collaborators} (w : world nat) msg :
  fst (_TrajectoryPlotter.hvplot w) = Raise (ImportError msg) ->
  msg = missing_dependencies
  /\ has_hvplot_pandas w && has_holoviews_opts w = false.
Proof.
  unfold _TrajectoryPlotter.hvplot. intros E.
  eapply guarded_import; [| exact E]. quiet_walk.
Qed.

Lemma collection_hvplot_import_error `{Collaborators}
    (w : world (list nat)) msg :
  fst (_TrajectoryCollectionPlotter.hvplot w) = Raise (ImportError msg) ->
  msg = missing_dependencies
  /\ has_hvplot_pandas w && has_holoviews_opts w = false.
Proof.
  unfold _TrajectoryCollectionPlotter.hvplot. intros E.
  eapply guarded_import; [| exact E]. quiet_walk.
Qed.

(** C3: when either interactive module cannot be imported, [hvplot] of the
    single styler and of the collection styler ends in the [ImportError]
    whose message names hvplot and GeoViews and links both installation
    pages, and leaves the whole state, the list of renderer calls included,
    as it was.  It is the only exception the module raises itself: the two
    [plot] entry points never end in it, and the two [hvplot] entry points
    end in it only with that message and only when one of the two imports
    fails. *)
Theorem C3_missing_capability_raises_ImportError :
  forall (C : Collaborators) (w1 : world nat) (w2 : world (list nat)),
    has_hvplot_pandas w1 && has_holoviews_opts w1 = false ->
    has_hvplot_pandas w2 && has_holoviews_opts w2 = false ->
    _TrajectoryPlotter.hvplot w1
      = (Raise (ImportError missing_dependencies), w1)
    /\ _TrajectoryCollectionPlotter.hvplot w2
      = (Raise (ImportError missing_dependencies), w2)
    /\ renders (events (snd (_TrajectoryPlotter.hvplot w1)))
       = renders (events w1)
    /\ renders (events (snd (_TrajectoryCollectionPlotter.hvplot w2)))
       = renders (events w2)
    /\ mentions "hvplot" missing_dependencies = true
    /\ mentions "GeoViews" missing_dependencies = true
    /\ mentions "https://hvplot.holoviz.org/getting_started/installation.html"
         missing_dependencies = true
    /\ mentions "https://geoviews.org" missing_dependencies = true
    /\ (forall (w : world nat) msg,
          fst (_TrajectoryPlotter.plot w) <> Raise (ImportError msg))
    /\ (forall (w : world (list nat)) msg,
          fst (_TrajectoryCollectionPlotter.plot w) <> Raise (ImportError msg))
    /\ (forall (w : world nat) msg,
          fst (_TrajectoryPlotter.hvplot w) = Raise (ImportError msg) ->
          msg = missing_dependencies
          /\ has_hvplot_pandas w && has_holoviews_opts w = false)
    /\ (forall (w : world (list nat)) msg,
          fst (_TrajectoryCollectionPlotter.hvplot w)
            = Raise (ImportError msg) ->
          msg = missing_dependencies
          /\ has_hvplot_pandas w && has_holoviews_opts w = false).
Proof.
  intros C w1 w2 H1 H2.
  assert (E1 : _TrajectoryPlotter.hvplot w1
               = (Raise (ImportError missing_dependencies), w1)).
  { unfold _TrajectoryPlotter.hvplot, bind at 1.
    by rewrite import_interactive_run, H1. }
  assert (E2 : _TrajectoryCollectionPlotter.hvplot w2
               = (Raise (ImportError missing_dependencies), w2)).
  { unfold _TrajectoryCollectionPlotter.hvplot, bind at 1.
    by rewrite import_interactive_run, H2. }
  rewrite E1, E2. cbn [snd].
  split_and!; try reflexivity.
  - apply quiet_plot.
  - apply quiet_collection_plot.
  - intros w msg. apply hvplot_import_error.
  - intros w msg. apply collection_hvplot_import_error.
Qed.

Lemma C3_witness :
  fst (@_TrajectoryPlotter.hvplot sample_collaborators
         (fresh_world sample_heap false true true
            (_TrajectoryPlotter.__init__ 0 [] ∅)))
  = Raise (ImportError missing_dependencies).
Proof.
  pose proof (C3_missing_capability_raises_ImportError sample_collaborators
    (fresh_world sample_heap false true true (_TrajectoryPlotter.__init__ 0 [] ∅))
    (fresh_world sample_heap true false true
       (_TrajectoryCollectionPlotter.__init__ [0; 1] [] ∅))
    eq_refl eq_refl) as [E _].
  by rewrite E.
Defined.

(** C3, as stated, fails: GeoViews is one of the two components the message
    names, but the [try] block only imports hvplot.pandas and holoviews.
    With GeoViews not installed and both imports fine, [hvplot] raises no
    capability-missing error: it sets the overlay defaults and goes on to
    the line render. *)
Lemma C3_missing_GeoViews_is_not_checked :
  has_geoviews
    (fresh_world sample_heap true true false
       (_TrajectoryPlotter.__init__ 0 [] ∅)) = false
  /\ fst (@_TrajectoryPlotter.hvplot sample_collaborators
            (fresh_world sample_heap true true false
               (_TrajectoryPlotter.__init__ 0 [] ∅)))
     <> Raise (ImportError missing_dependencies)
  /\ exists line rest,
       events (snd (@_TrajectoryPlotter.hvplot sample_collaborators
                      (fresh_world sample_heap true true false
                         (_TrajectoryPlotter.__init__ 0 [] ∅))))
       = OverlayDefaults (PNum 900) (PNum 700) :: Render line :: rest
       /\ site line = LineHvplot.
Proof.
  split; [reflexivity|]. split.
  - vm_compute. discriminate.
  - eexists _, _. split; vm_compute; reflexivity.
Qed.

(** ** Running the stylers step by step *)

Import _TrajectoryPlotter.

Ltac unfold_prims :=
  unfold bind, ret, gets, modify, raise, or_raise, lift_builtin,
    lift_collaborator, deref, store, copy, add_speed, add_direction,
    drop_inplace, df_setitem, kwargs_pop, kwargs_set, kwargs_getitem,
    fresh_obj, new_subplot, call, gdf_plot, gdf_hvplot, with_self, with_heap,
    with_event, with_next_obj in *.
Ltac run := repeat (progress (unfold_prims; cbn -[mapM last_row] in * )).

Lemma bind_run {D A B} (m : M D A) (k : A -> M D B) w a w1 :
  m w = (Ok a, w1) -> bind m k w = k a w1.
Proof. intros E. unfold bind. by rewrite E. Qed.

Lemma deref_run {D} (w : world D) r t :
  heap w !! r = Some t -> deref r w = (Ok t, w).
Proof. intros E. unfold deref, bind, gets, or_raise. cbn. by rewrite E. Qed.

Lemma last_row_lookup (f : frame) c s x :
  f !! c = Some (s ++ [x]) -> last_row f !! c = Some [x].
Proof.
  intros E. unfold last_row. rewrite lookup_fmap, E. cbn. f_equal.
  rewrite length_app. cbn. replace (List.length s + 1 - 1) with (List.length s) by lia.
  apply drop_app_length.
Qed.

Lemma set_df_const (t : trajectory) f : set_df (fun _ => df t) (set_df f t) = t.
Proof. by destruct t. Qed.

Lemma negate_single v d :
  as_num v = Some d -> mapM py_negate [v] = Some [PNum (- d)].
Proof. intros E. by destruct v; simplify_eq/=. Qed.

(** ** The end point with its direction *)

(** C6: for a trajectory whose direction series (the column it has, or
    else the one [add_direction] computes) ends in the number [d], the
    operation returns a table holding the last row of every column of the
    trajectory, the final position among them, with "triangle_angle" equal
    to [- d]; and the whole state, the trajectory's table included, is
    afterwards what it was before: a direction column that had to be added
    is dropped again. *)
Theorem C6_end_point_with_direction :
  forall (C : Collaborators) (D : Type) (w : world D) (traj : nat)
         (t : trajectory) (cells : list pyval) (v : pyval) (d : Z),
    heap w !! traj = Some t ->
    direction_series t = cells ++ [v] ->
    as_num v = Some d ->
    exists g,
      _get_trajectory_end_with_direction traj w = (Ok g, w)
      /\ cols g !! "triangle_angle" = Some [PNum (- d)]
      /\ (forall c s x, c <> "triangle_angle" ->
            with_direction t !! c = Some (s ++ [x]) -> cols g !! c = Some [x])
      /\ heap (snd (_get_trajectory_end_with_direction traj w)) !! traj = Some t.
Proof.
  intros C D [h n es f1 f2 f3 st] traj t cells v d Ht Hs Hv. cbn in Ht.
  unfold _get_trajectory_end_with_direction, direction_series, with_direction in *.
  unfold has_column. run.
  rewrite Ht. run.
  destruct (df t !! direction_column_name t) as [s|] eqn:Edir; run.
  - subst s. rewrite Ht. run.
    rewrite (last_row_lookup _ _ _ _ Edir). run.
    rewrite (negate_single _ _ Hv). run.
    eexists. split; [reflexivity|]. cbn. split_and!.
    + by rewrite lookup_insert_eq.
    + intros c s x Hc E. rewrite lookup_insert_ne by done. by eapply last_row_lookup.
    + done.
  - rewrite Ht. run.
    assert (Hlt : traj < List.length h) by (eapply lookup_lt_Some; eauto).
    rewrite list_lookup_insert_eq by done. run.
    rewrite (last_row_lookup _ (direction_column_name t) cells v)
      by (by rewrite lookup_insert_eq, Hs).
    run. rewrite (negate_single _ _ Hv). run.
    rewrite list_lookup_insert_eq by done. run.
    unfold drop_labels, has_column. run. rewrite lookup_insert_eq. run.
    rewrite delete_insert_id by done.
    rewrite list_insert_insert_eq.
    rewrite (set_df_const t).
    rewrite list_insert_id by done.
    eexists. split; [reflexivity|]. cbn. split_and!.
    + by rewrite lookup_insert_eq.
    + intros c s x Hc E. rewrite lookup_insert_ne by done. by eapply last_row_lookup.
    + done.
Qed.

Lemma C6_witness :
  exists g,
    @_TrajectoryPlotter._get_trajectory_end_with_direction nat
       sample_collaborators 0 (sample_single ∅) = (Ok g, sample_single ∅)
    /\ cols g !! "triangle_angle" = Some [PNum (-30)].
Proof.
  destruct (C6_end_point_with_direction sample_collaborators nat
              (sample_single ∅) 0 (sample_traj [3; 1; 2]%Z [10; 20; 30]%Z)
              [PNum 10; PNum 20] (PNum 30) 30%Z eq_refl eq_refl eq_refl)
    as (g & E & Ha & _).
  exists g. by split.
Defined.

(** ** The line table and the static render *)

Lemma snoc_lookup_len {A} (h : list A) t : (h ++ [t]) !! List.length h = Some t.
Proof. by rewrite list_lookup_middle. Qed.

Lemma snoc_insert_len {A} (h : list A) t x :
  <[List.length h := x]> (h ++ [t]) = h ++ [x].
Proof.
  replace (List.length h) with (List.length h + 0) at 1 by lia.
  by rewrite insert_app_r.
Qed.

Lemma line_table_ok `{Collaborators} (a : trajectory) :
  well_formed a ->
  exists f,
    drop_labels [geom_column_name a; "prev_pt"]
      (<["line" := segments a]>
         (<["prev_pt" := prev_points a]> (along_segments <$> df a))) = Some f
    /\ has_column "geometry" (rename "line" "geometry" f) = true.
Proof.
  intros [Hg Hl]. unfold drop_labels, has_column in *. cbn.
  rewrite (lookup_insert_ne _ "line" "prev_pt") by done.
  rewrite lookup_insert_eq.
  rewrite lookup_insert_ne by done.
  destruct (decide (geom_column_name a = "prev_pt")) as [->|Hp].
  - rewrite lookup_insert_eq. cbn. eexists; split; [reflexivity|].
    unfold rename. rewrite lookup_delete_ne by done.
    rewrite lookup_delete_ne by done. rewrite lookup_insert_eq.
    by rewrite lookup_insert_eq.
  - rewrite lookup_insert_ne by done. rewrite lookup_fmap.
    destruct (df a !! geom_column_name a); [|done]. cbn.
    eexists; split; [reflexivity|].
    unfold rename. rewrite lookup_delete_ne by done.
    rewrite lookup_delete_ne by done. rewrite lookup_insert_eq.
    by rewrite lookup_insert_eq.
Qed.

Lemma well_formed_private_copy `{Collaborators} c t :
  well_formed t -> well_formed (private_copy c t).
Proof.
  unfold private_copy. destruct (needs_speed c t); [|done].
  intros [Hg Hl]. split; [|by destruct t].
  destruct t as [f ? ? sp ? g]. cbn in *. unfold has_column in *.
  destruct (decide (sp = g)) as [->|Hne].
  - by rewrite lookup_insert_eq.
  - by rewrite lookup_insert_ne.
Qed.

Lemma private_copy_names `{Collaborators} c t :
  geom_column_name (private_copy c t) = geom_column_name t
  /\ crs (private_copy c t) = crs t.
Proof. unfold private_copy. by destruct (needs_speed c t), t. Qed.

Lemma resolve_color_run `{Collaborators} {D} (w : world D) traj :
  resolve_color traj w
  = (color_outcome (heap w !! traj) (colormap (self w)) (column (self w)), w).
Proof.
  destruct w as [h n es f1 f2 f3 st]. unfold resolve_color, try_except_KeyError, column_max, subscript, color_outcome.
  run. destruct (h !! traj) as [t|]; run; [|done].
  destruct (frame_getitem (df t) (column st)) as [s|]; run; [|done].
  destruct (colormap st); run; try done.
  destruct (hashable (series_max s)); run; [|done].
  destruct (dict_lookup (series_max s) d); run; done.
Qed.

Lemma copy_run {D} (w : world D) r t :
  heap w !! r = Some t ->
  copy r w = (Ok (List.length (heap w)), with_heap (fun h => h ++ [t]) w).
Proof. intros E. unfold copy. run. by rewrite E. Qed.

Lemma make_line_df_run `{Collaborators} {D} (w : world D) traj t :
  heap w !! traj = Some t ->
  _make_line_df traj w
  = (line_table (private_copy (column (self w)) t) (crs t),
     with_heap (fun h => h ++ [private_copy (column (self w)) t]) w).
Proof.
  intros Ht. unfold _make_line_df.
  assert (Hlt : traj < List.length (heap w)) by (eapply lookup_lt_Some; eauto).
  erewrite bind_run; [|by apply copy_run].
  erewrite bind_run; [|reflexivity].
  (* the speed column goes on the copy *)
  erewrite (bind_run _ _ _ tt
              (with_heap (fun h => h ++ [private_copy (column (self w)) t]) w)).
  2:{ unfold private_copy, needs_speed. cbn.
      destruct (truthy (column (self w))); [|reflexivity].
      erewrite bind_run; [|by apply deref_run; cbn; rewrite lookup_app_l].
      cbv zeta. cbn [andb]. destruct (py_eq _ _ && negb _); [|reflexivity].
      unfold add_speed.
      erewrite bind_run; [|apply deref_run; cbn; apply snoc_lookup_len].
      unfold store, modify, with_heap. cbn. by rewrite snoc_insert_len. }
  erewrite bind_run; [|apply deref_run; cbn; apply snoc_lookup_len].
  cbv zeta. unfold line_table.
  destruct (private_copy_names (column (self w)) t) as [Eg Ec].
  destruct (drop_labels _ _) as [f|]; [|done].
  erewrite bind_run; [|reflexivity]. cbn [cols geometry gdf_crs _to_line_df].
  destruct (set_geometry _ _) as [g|]; [|done].
  erewrite bind_run; [|reflexivity].
  erewrite bind_run; [|by apply deref_run; cbn; rewrite lookup_app_l].
  by destruct (truthy (crs t)).
Qed.

Lemma make_line_df_dangling `{Collaborators} {D} (w : world D) traj :
  heap w !! traj = None ->
  _make_line_df traj w = (Raise (Builtin ReferenceError), w).
Proof. intros E. unfold _make_line_df, copy. run. by rewrite E. Qed.

Lemma line_table_well_formed `{Collaborators} c t :
  well_formed t -> exists g, line_table (private_copy c t) (crs t) = Ok g.
Proof.
  intros Hw. apply (well_formed_private_copy c) in Hw.
  destruct (line_table_ok _ Hw) as (f & Ef & Eg).
  unfold line_table. cbn [cols _to_line_df]. rewrite Ef.
  unfold set_geometry. cbn [cols]. rewrite Eg. eauto.
Qed.

Lemma make_line_df_shape `{Collaborators} {D} (w : world D) traj :
  exists o,
    _make_line_df traj w
    = (o, match heap w !! traj with
          | Some t => with_heap (fun h => h ++ [private_copy (column (self w)) t]) w
          | None => w
          end)
    /\ (forall t, heap w !! traj = Some t -> well_formed t -> exists g, o = Ok g)
    /\ (heap w !! traj = None -> exists e, o = Raise e).
Proof.
  destruct (heap w !! traj) as [t|] eqn:Ht.
  - eexists. split; [by apply make_line_df_run|].
    split; [|done]. intros t' [= <-]. apply line_table_well_formed.
  - eexists. split; [by apply make_line_df_dangling|].
    split; [done|eauto].
Qed.

(** Close the routine conjuncts at a leaf of a run. *)
Ltac leaf st :=
  split_and!;
  try solve [ done | by destruct st | left; eauto | intros; congruence ].

(** What one static render does: it leaves every field of the styler but
    the bag alone, appends the private copy to the store, and either raises
    without calling the renderer or calls it exactly once. *)
Lemma plot_trajectory_spec `{Collaborators} {D} (w : world D) traj o w' :
  _plot_trajectory traj w = (o, w') ->
  self w' = set_kwargs (kwargs (self w')) (self w)
  /\ heap w'
     = match heap w !! traj with
       | Some t => heap w ++ [private_copy (column (self w)) t]
       | None => heap w
       end
  /\ (forall k, k <> "vmin" -> k <> "vmax" ->
        kwargs (self w') !! k = kwargs (self w) !! k)
  /\ ((exists e, o = Raise e /\ events w' = events w)
      \/ (exists c,
            o = Ok (if is_none (ax (self w)) then PObj (next_obj w)
                    else ax (self w))
            /\ events w' = events w ++ [Render c]
            /\ site c = LinePlot
            /\ keywords c !! "ax" = Some (ax (self w))
            /\ (forall k, k ∉ written_static ->
                  keywords c !! k = kwargs (self w) !! k)
            /\ (if truthy (column (self w)) && truthy (colormap (self w))
                then exists col,
                       color_outcome (heap w !! traj) (colormap (self w))
                         (column (self w)) = Ok col
                       /\ keywords c !! "color" = Some col
                else keywords c !! "vmin" = Some (min_value (self w))
                     /\ keywords c !! "vmax" = Some (max_value (self w)))))
  /\ (forall t, heap w !! traj = Some t -> well_formed t ->
        kwargs (self w) !! "ax" = None ->
        (truthy (column (self w)) && truthy (colormap (self w)) = true ->
           kwargs (self w) !! "color" = None
           /\ exists col, color_outcome (Some t) (colormap (self w))
                            (column (self w)) = Ok col) ->
        exists a, o = Ok a).
Proof.
  intros E0. unfold _plot_trajectory in E0. unfold bind at 1 in E0.
  destruct (make_line_df_shape w traj) as (o1 & E & Hok & Hbad).
  rewrite E in E0. clear E.
  destruct w as [h n es f1 f2 f3 st]. cbn [heap self] in *.
  destruct (h !! traj) as [t|] eqn:Ht.
  2:{ destruct (Hbad eq_refl) as [e ->]. injection E0 as <- <-. cbn. leaf st. }
  destruct o1 as [g|e].
  2:{ injection E0 as <- <-. cbn. leaf st.
      intros t' [= <-] Hw. destruct (Hok t eq_refl Hw) as [? ?]. done. }
  clear Hok Hbad.
  assert (Hlt : traj < List.length h) by (eapply lookup_lt_Some; eauto).
  run.
  destruct (truthy (column st) && truthy (colormap st)) eqn:Eb; run.
  - rewrite resolve_color_run in E0. cbn in E0.
    rewrite lookup_app_l, Ht in E0 by done.
    destruct (color_outcome (Some t) (colormap st) (column st)) as [col|e] eqn:Ec; run.
    2:{ injection E0 as <- <-. cbn. leaf st.
        intros t' [= <-] Hw Hax Hc. destruct (Hc eq_refl) as (_ & col & ?). congruence. }
    destruct (kwargs st !! "ax") eqn:Eax; run.
    { injection E0 as <- <-. cbn. leaf st. }
    destruct (kwargs st !! "color") eqn:Ecol; run.
    { injection E0 as <- <-. cbn. leaf st.
      intros t' [= <-] Hw Hax Hc. destruct (Hc eq_refl) as (? & _). congruence. }
    rewrite lookup_insert_eq in E0. run.
    assert (o = Ok (if is_none (ax st) then PObj n else ax st)
            /\ self w' = st /\ heap w' = h ++ [private_copy (column st) t]
            /\ events w' = es ++ [Render (RenderCall LinePlot g (args st)
                  (<["ax":=ax st]> (<["color":=col]> (kwargs st))))]) as (-> & Es & Eh & Ee).
    { destruct (is_none (ax st)); run; by injection E0 as <- <-. }
    rewrite Es, Eh, Ee. clear E0. leaf st; [|eauto].
    right. eexists. split_and!; try reflexivity.
    * cbn. by rewrite lookup_insert_eq.
    * intros k Hk. cbn. unfold written_static in Hk.
      by rewrite !lookup_insert_ne by (intros <-; apply Hk; set_solver).
    * exists col. split; [done|]. cbn.
      rewrite lookup_insert_ne by done. by rewrite lookup_insert_eq.
  - assert (Ea : delete "vmax" (delete "vmin" (kwargs st)) !! "ax"
                 = kwargs st !! "ax") by (by rewrite !lookup_delete_ne).
    assert (Emin : delete "vmax" (delete "vmin" (kwargs st)) !! "vmin" = None)
      by (by rewrite lookup_delete_ne, lookup_delete_eq).
    assert (Emax : delete "vmax" (delete "vmin" (kwargs st)) !! "vmax" = None)
      by (by rewrite lookup_delete_eq).
    rewrite Ea, Emin, Emax in E0. clear Ea Emin Emax.
    assert (Hk : forall k, k <> "vmin" -> k <> "vmax" ->
               delete "vmax" (delete "vmin" (kwargs st)) !! k = kwargs st !! k).
    { intros k ? ?. by rewrite !lookup_delete_ne. }
    destruct (kwargs st !! "ax") eqn:Eax; run.
    { injection E0 as <- <-. cbn. leaf st. }
    rewrite lookup_insert_eq in E0. run.
    assert (o = Ok (if is_none (ax st) then PObj n else ax st)
            /\ self w' = set_kwargs (delete "vmax" (delete "vmin" (kwargs st))) st
            /\ heap w' = h ++ [private_copy (column st) t]
            /\ events w' = es ++ [Render (RenderCall LinePlot g (args st)
                  (<["ax":=ax st]> (<["vmin":=min_value st]>
                     (<["vmax":=max_value st]>
                        (delete "vmax" (delete "vmin" (kwargs st)))))))])
      as (-> & Es & Eh & Ee).
    { destruct (is_none (ax st)); run; injection E0 as <- <-; by destruct st. }
    rewrite Es, Eh, Ee. clear E0. leaf st; [|eauto].
    right. eexists. split_and!; try reflexivity.
    * cbn. by rewrite lookup_insert_eq.
    * intros k Hk'. cbn. unfold written_static in Hk'.
      rewrite !lookup_insert_ne by (intros <-; apply Hk'; set_solver).
      apply Hk; intros ->; apply Hk'; set_solver.
    * cbn. rewrite lookup_insert_ne by done. by rewrite lookup_insert_eq.
    * cbn. rewrite !lookup_insert_ne by done. by rewrite lookup_insert_eq.
Qed.





(** ** The caller's trajectory under [plot] *)




(** ** The interactive render of one trajectory *)

Lemma bind_inv {D A B} (m : M D A) (k : A -> M D B) w o w' :
  bind m k w = (o, w') ->
  (exists a w1, m w = (Ok a, w1) /\ k a w1 = (o, w'))
  \/ (exists e, m w = (Raise e, w') /\ o = Raise e).
Proof.
  unfold bind. destruct (m w) as [[a|e] w1]; intros E.
  - left. eauto.
  - right. injection E as <- <-. eauto.
Qed.

Lemma keeps_bind {D A B} (m : M D A) (k : A -> M D B) :
  keeps m -> (forall a, keeps (k a)) -> keeps (bind m k).
Proof.
  intros Hm Hk w o w' E.
  apply bind_inv in E as [(a & w1 & Em & E)|(e & Em & ->)].
  - apply Hm in Em as [Es Ee]. apply Hk in E as [Es' Ee'].
    split; congruence.
  - by apply Hm in Em.
Qed.

Lemma keeps_ret {D A} (a : A) : keeps (D := D) (ret a).
Proof. intros w o w' [= <- <-]. done. Qed.

Lemma keeps_gets {D A} (f : world D -> A) : keeps (gets f).
Proof. intros w o w' [= <- <-]. done. Qed.

Lemma keeps_or_raise {D A} e (x : option A) : keeps (D := D) (or_raise e x).
Proof. destruct x; intros w o w' [= <- <-]; done. Qed.

Lemma keeps_store {D} r t : keeps (D := D) (store r t).
Proof. intros w o w' [= <- <-]. done. Qed.

Create HintDb keeps.
#[export] Hint Resolve keeps_ret keeps_gets keeps_or_raise keeps_store : keeps.

Ltac keeps_walk :=
  repeat first
    [ progress intros
    | progress cbv zeta
    | solve [auto with keeps]
    | apply keeps_bind
    | match goal with
      | |- keeps (if ?b then _ else _) => destruct b
      | |- keeps (match ?x with _ => _ end) => destruct x
      end ].

Lemma keeps_deref {D} r : keeps (D := D) (deref r).
Proof. unfold deref. keeps_walk. Qed.
#[export] Hint Resolve keeps_deref : keeps.

Lemma keeps_add_direction `{Collaborators} {D} r name :
  keeps (D := D) (add_direction r name).
Proof. unfold add_direction. keeps_walk. Qed.

Lemma keeps_drop_inplace {D} r name : keeps (D := D) (drop_inplace r name).
Proof. unfold drop_inplace. keeps_walk. Qed.
#[export] Hint Resolve keeps_add_direction keeps_drop_inplace : keeps.

Lemma end_with_direction_frame `{Collaborators} {D} (w : world D) traj o w' :
  _get_trajectory_end_with_direction traj w = (o, w') ->
  self w' = self w /\ events w' = events w.
Proof.
  revert w o w'. change (keeps (D := D) (_get_trajectory_end_with_direction traj)).
  unfold _get_trajectory_end_with_direction. keeps_walk.
Qed.

#[global] Arguments bind : simpl never.

(** Take the first step of the run [E]; the step itself lands in [Em]. *)
Tactic Notation "mstep" hyp(E) "as" ident(a) ident(w1) ident(Em) :=
  let e := fresh "e" in
  let Ho := fresh "Ho" in
  apply bind_inv in E as [(a & w1 & Em & E) | (e & Em & Ho)];
  [ | match type of Ho with
      | ?o = _ => first [ is_var o; subst o | injection Ho as <- ]
      end ].

Ltac unfold_with H :=
  unfold with_self, with_heap, with_event, with_next_obj in H; cbn in H.

(** Compute a step made of primitives and read off its result. *)
Ltac settle Em :=
  repeat (progress
    (unfold kwargs_pop, kwargs_set, ret, gets, modify, raise, or_raise,
       with_self, with_heap, with_event, with_next_obj in Em;
     cbn in Em));
  simplify_eq.

(** The first step of [E] when it cannot raise and computes. *)
Ltac pstep E :=
  let a := fresh "a" in
  let w1 := fresh "w" in
  let Em := fresh "Em" in
  let e := fresh "e" in
  apply bind_inv in E as [(a & w1 & Em & E) | (e & Em & _)];
  [ cbn in Em; injection Em as <- <-; unfold_with E
  | cbn in Em; discriminate Em ].

(** Membership facts about explicit lists of option names. *)
Ltac by_compute := apply (bool_decide_unpack _); vm_compute; exact I.
Ltac pick := repeat first [ apply list_elem_of_here | apply list_elem_of_further ].

Lemma bind_keywords_other ws (bag kws : gmap string pyval) k :
  bind_keywords ws bag = Some kws -> k ∉ ws.*1 -> kws !! k = bag !! k.
Proof.
  revert kws. induction ws as [|[k0 v0] ws IH]; intros kws E Hk; cbn in *.
  - by simplify_eq.
  - destruct (bag !! k0); [done|].
    destruct (bind_keywords ws bag) as [m|]; cbn in E; simplify_eq.
    apply not_elem_of_cons in Hk as [Hk1 Hk2].
    rewrite lookup_insert_ne by done. by apply IH.
Qed.

Lemma bind_keywords_written ws (bag kws : gmap string pyval) k v :
  bind_keywords ws bag = Some kws -> NoDup ws.*1 -> (k, v) ∈ ws ->
  kws !! k = Some v.
Proof.
  revert kws. induction ws as [|[k0 v0] ws IH]; intros kws E Hnd Hin; cbn in *.
  - by apply elem_of_nil in Hin.
  - destruct (bag !! k0); [done|].
    destruct (bind_keywords ws bag) as [m|]; cbn in E; simplify_eq.
    apply NoDup_cons in Hnd as [Hk0 Hnd].
    apply elem_of_cons in Hin as [Hin|Hin].
    + simplify_eq. by rewrite lookup_insert_eq.
    + rewrite lookup_insert_ne.
      * by apply IH.
      * intros ->. apply Hk0. apply list_elem_of_fmap. by exists (k, v).
Qed.

Lemma call_spec {D} (w : world D) s g ws o w' :
  call s g ws w = (o, w') ->
  (o = Raise (Builtin TypeError) /\ w' = w)
  \/ (exists kws,
        bind_keywords ws (kwargs (self w)) = Some kws
        /\ o = Ok (RenderCall s g (args (self w)) kws)
        /\ w' = with_event (Render (RenderCall s g (args (self w)) kws)) w).
Proof.
  unfold call. intros E. run.
  destruct (bind_keywords ws (kwargs (self w))) as [kws|]; run; simplify_eq.
  - right. eauto.
  - by left.
Qed.

Lemma hover_append_run {D} (w : world D) (x : pyval) :
  (cur <- kwargs_getitem "hover_cols";;
   v <- or_raise TypeError (py_add cur x);;
   kwargs_set "hover_cols" v) w
  = match kwargs (self w) !! "hover_cols" with
    | Some cur =>
        match py_add cur x with
        | Some v =>
            (Ok tt, with_self (fun s => set_kwargs (<["hover_cols" := v]> (kwargs s)) s) w)
        | None => (Raise (Builtin TypeError), w)
        end
    | None => (Raise (Builtin KeyError), w)
    end.
Proof.
  run. destruct (kwargs (self w) !! "hover_cols") as [cur|]; cbn; [|done].
  by destruct (py_add cur x).
Qed.

Lemma hover_extend c (v : option pyval) l :
  (if truthy (default PNone v)
   then py_add (PList [PStr "triangle_angle"]) (default PNone v) = Some (PList l)
   else l = [PStr "triangle_angle"]) ->
  (if truthy c then l ++ [c] else l) = hover_after 1 c (hover_list v).
Proof.
  unfold hover_after, hover_list. cbn.
  destruct v as [[| | | | | | |l0|]|]; cbn; try discriminate;
    repeat case_match; try discriminate; intros E; simplify_eq; cbn;
    rewrite ?app_nil_r; try done.
  all: try by rewrite <- app_assoc.
Qed.


Lemma end_triangle_spec `{Collaborators} {D} (w : world D) traj o w' :
  _hvplot_end_triangle traj w = (o, w') ->
  self w' = set_kwargs (kwargs (self w')) (self w)
  /\ ((exists e, o = Raise e /\ events w' = events w)
      \/ (exists c,
            o = Ok (Drawn c)
            /\ events w' = events w ++ [Render c]
            /\ site c = EndTriangleHvplot
            /\ keywords c !! "tiles" = Some PNone
            /\ keywords c !! "hover_cols"
               = Some (PList (hover_after 1 (column (self w))
                                (hover_list (kwargs (self w) !! "hover_cols"))))
            /\ kwargs (self w') !! "hover_cols" = keywords c !! "hover_cols")).
Proof.
  intros E. unfold _hvplot_end_triangle in E.
  destruct w as [h n es f1 f2 f3 st]. cbn [self events].
  pstep E. pstep E. pstep E.
  rewrite (lookup_delete_ne (kwargs st) "tiles" "hover_cols") in E by done.
  set (hv := default PNone (kwargs st !! "hover_cols")) in *.
  (* the caller's hover columns *)
  mstep E as a1 w1 Em.
  2:{ destruct (truthy hv); [|settle Em].
      rewrite hover_append_run in Em. cbn in Em.
      rewrite lookup_insert_eq in Em.
      destruct (py_add _ hv); simplify_eq. cbn. leaf st. }
  assert (exists l1, w1 = World h n es f1 f2 f3
            (set_kwargs (<["hover_cols" := PList l1]>
               (delete "hover_cols" (delete "tiles" (kwargs st)))) st)
          /\ (if truthy hv
              then py_add (PList [PStr "triangle_angle"]) hv = Some (PList l1)
              else l1 = [PStr "triangle_angle"])) as (l1 & -> & Hl1).
  { destruct (truthy hv) eqn:Etv.
    - rewrite hover_append_run in Em. cbn in Em.
      rewrite lookup_insert_eq in Em.
      destruct hv; cbn in Em; simplify_eq.
      eexists. split; [|reflexivity]. unfold with_self. cbn.
      by rewrite insert_insert_eq.
    - settle Em. eexists. split; [|reflexivity]. reflexivity. }
  clear Em. pstep E.
  (* the marker color *)
  mstep E as a2 w2 Em.
  2:{ destruct (truthy (marker_color st)); settle Em. }
  assert (exists K2, w2 = World h n es f1 f2 f3 (set_kwargs K2 st)
            /\ K2 !! "hover_cols" = Some (PList l1)
            /\ K2 !! "tiles" = None) as (K2 & -> & HK2 & HK2t).
  { destruct (truthy (marker_color st)); settle Em.
    - eexists. split; [reflexivity|]. split.
      + rewrite lookup_insert_ne by done. by rewrite lookup_insert_eq.
      + rewrite !lookup_insert_ne by done. rewrite lookup_delete_ne by done.
        by rewrite lookup_delete_eq.
    - eexists. split; [reflexivity|]. split.
      + by rewrite lookup_insert_eq.
      + rewrite !lookup_insert_ne by done. rewrite lookup_delete_ne by done.
        by rewrite lookup_delete_eq. }
  clear Em. pstep E.
  (* the color-by-column *)
  mstep E as a3 w3 Em.
  2:{ destruct (truthy (column st)); [|settle Em].
      rewrite hover_append_run in Em. cbn in Em. rewrite HK2 in Em.
      cbn in Em. simplify_eq. }
  assert (exists K3, w3 = World h n es f1 f2 f3 (set_kwargs K3 st)
            /\ K3 !! "hover_cols"
               = Some (PList (if truthy (column st) then l1 ++ [column st] else l1))
            /\ K3 !! "tiles" = None) as (K3 & -> & HK3 & HK3t).
  { destruct (truthy (column st)).
    - rewrite hover_append_run in Em. cbn in Em. rewrite HK2 in Em.
      cbn in Em. simplify_eq. eexists. split; [reflexivity|].
      split; [by rewrite lookup_insert_eq | by rewrite lookup_insert_ne].
    - settle Em. eauto. }
  clear Em. rewrite (hover_extend _ _ _ Hl1) in HK3. clear Hl1 HK2 HK2t.
  (* the end point *)
  mstep E as g w4 Em;
    apply end_with_direction_frame in Em as [Es Ee]; cbn in Es, Ee.
  2:{ rewrite Es, Ee. cbn. leaf st. }
  destruct w4 as [h4 n4 es4 f14 f24 f34 st4]. cbn in Es, Ee. subst st4 es4.
  pstep E.
  mstep E as t w5 Em.
  2:{ unfold deref in Em. run. destruct (h4 !! traj); simplify_eq. cbn. leaf st. }
  assert (w5 = World h4 n4 es f14 f24 f34 (set_kwargs K3 st)) as ->.
  { unfold deref in Em. run. by destruct (h4 !! traj); simplify_eq. }
  clear Em. pstep E.
  unfold gdf_hvplot in E.
  mstep E as c w6 Em; apply call_spec in Em as [[? ->]|(kws & Hb & ? & ->)];
    simplify_eq.
  2:{ cbn. leaf st. }
  settle E. leaf st.
  right. eexists. split_and!; try reflexivity; cbn.
  - eapply bind_keywords_written; [exact Hb| by_compute | pick].
  - erewrite bind_keywords_other; [exact HK3|exact Hb|by_compute].
  - erewrite (bind_keywords_other _ _ kws); [done|exact Hb|by_compute].
Qed.

Lemma column_max_frame `{Collaborators} {D} (w : world D) traj o w' :
  column_max traj w = (o, w') -> w' = w.
Proof.
  unfold column_max. intros E. run.
  repeat (case_match; run); by simplify_eq.
Qed.

Lemma deref_inv {D} (w : world D) r o w' :
  deref r w = (o, w') ->
  w' = w /\ match o with Ok t => heap w !! r = Some t | Raise _ => heap w !! r = None end.
Proof.
  unfold deref. intros E. run. destruct (heap w !! r); by simplify_eq.
Qed.

Lemma hvplot_trajectory_spec `{Collaborators} {D} (w : world D) traj o w' :
  _hvplot_trajectory traj w = (o, w') ->
  self w' = set_kwargs (kwargs (self w')) (self w)
  /\ exists new,
       events w' = events w ++ (Render <$> new)
       /\ ((exists e, o = Raise e
              /\ (new = [] \/ exists line, new = [line] /\ line_call_of w traj line))
           \/ (exists d line endc,
                 o = Ok d /\ new = [line; endc]
                 /\ line_call_of w traj line /\ end_call_of w endc
                 /\ kwargs (self w') !! "hover_cols"
                    = keywords endc !! "hover_cols")).
Proof.
  intros E. unfold _hvplot_trajectory in E.
  mstep E as g w1 Em;
    destruct (make_line_df_shape w traj) as (o1 & E1 & _ & _);
    rewrite E1 in Em; clear E1; destruct w as [h n es f1 f2 f3 st];
    unfold line_call_of, end_call_of; cbn [heap self events] in *.
  2:{ assert (self w' = st /\ events w' = es) as [-> ->].
      { destruct (h !! traj); by simplify_eq. }
      leaf st. exists []. rewrite app_nil_r. split; [done|]. left. eauto. }
  assert (exists h1, w1 = World h1 n es f1 f2 f3 st
            /\ h1 !! traj = h !! traj) as (h1 & -> & Hh1).
  { destruct (h !! traj) as [t|] eqn:Ht; simplify_eq; eexists; (split; [reflexivity|]).
    - rewrite lookup_app_l; [done|]. eapply lookup_lt_Some; eauto.
    - done. }
  clear Em. pstep E.
  mstep E as t w2 Em; apply deref_inv in Em as [-> Ht]; cbn in Ht.
  2:{ cbn. leaf st. exists []. rewrite app_nil_r. split; [done|]. left. eauto. }
  pstep E. pstep E. pstep E. pstep E.
  (* the line render *)
  match type of E with
  | bind ?blk _ ?W = _ =>
      assert (Hblock : forall ob wb, blk W = (ob, wb) ->
        (exists e, ob = Raise e
           /\ self wb = set_kwargs (kwargs (self wb)) st /\ events wb = es)
        \/ (exists line K,
              ob = Ok (Drawn line)
              /\ wb = World h1 n (es ++ [Render line]) f1 f2 f3 (set_kwargs K st)
              /\ K !! "hover_cols" = kwargs st !! "hover_cols"
              /\ site line = LineHvplot
              /\ keywords line !! "tiles" = Some (hvplot_tiles st)
              /\ (truthy (column st) && truthy (colormap st) = true ->
                  exists col,
                    color_outcome (h !! traj) (colormap st) (column st) = Ok col
                    /\ keywords line !! "color" = Some col)))
  end.
  { intros ob wb Eb.
    destruct (truthy (column st) && truthy (colormap st)) eqn:Ec.
    - mstep Eb as col w2 Em; rewrite resolve_color_run in Em; cbn in Em;
        rewrite Hh1 in Em; simplify_eq; [|left; eexists; by leaf st].
      mstep Eb as label w3 Em; pose proof (column_max_frame _ _ _ _ Em) as ->;
        [|left; eexists; by leaf st]. clear Em.
      unfold gdf_hvplot in Eb.
      mstep Eb as c w4 Em; apply call_spec in Em as [[? ->]|(kws & Hb & ? & ->)];
        simplify_eq; [|left; eexists; by leaf st].
      settle Eb. right. eexists _, _. split_and!; try reflexivity; cbn.
      + by destruct st.
      + eapply bind_keywords_written; [exact Hb| by_compute | pick].
      + intros _. eexists. split; [done|].
        eapply bind_keywords_written; [exact Hb| by_compute | pick].
    - pstep Eb.
      mstep Eb as u w2 Em.
      2:{ destruct (bool_decide (is_Some (kwargs st !! "colorbar"))); settle Em. }
      assert (exists K, w2 = World h1 n es f1 f2 f3 (set_kwargs K st)
                /\ K !! "hover_cols" = kwargs st !! "hover_cols") as (K & -> & HK).
      { destruct (bool_decide (is_Some (kwargs st !! "colorbar"))); settle Em.
        - exists (kwargs st). split; [by destruct st|done].
        - eexists. split; [reflexivity|]. by rewrite lookup_insert_ne. }
      clear Em. unfold gdf_hvplot in Eb.
      mstep Eb as c w4 Em; apply call_spec in Em as [[? ->]|(kws & Hb & ? & ->)];
        simplify_eq; cbn.
      2:{ left. eexists. by leaf st. }
      settle Eb. right. eexists _, _. split_and!; try reflexivity; cbn.
      + done.
      + eapply bind_keywords_written; [exact Hb| by_compute | pick].
      + done. }
  mstep E as line_plot w3 Em;
    apply Hblock in Em as [(e' & Eo & Hs & He)|(line & K & Eo & -> & HK & Hsite & Htiles & Hcol)];
    try discriminate Eo; injection Eo as ->; clear Hblock.
  2:{ rewrite He. split; [done|]. exists []. rewrite app_nil_r.
      split; [done|]. left. eauto. }
  mstep E as end_pt w4 Em;
    apply end_triangle_spec in Em as (Hs & [(e' & Eo & He)|(c & Eo & He & Hc1 & Hc2 & Hc3 & Hc4)]);
    cbn [self events kwargs set_kwargs] in *;
    try discriminate Eo; injection Eo as ->.
  2:{ rewrite He. split; [by rewrite Hs|]. exists [line]. split; [done|].
      left. eexists. split; [done|]. right. eauto 10. }
  settle E. rewrite He. split; [by rewrite Hs|].
  exists [line; c]. cbn. rewrite <- app_assoc. split; [done|].
  right. eexists _, _, _. split_and!; try done.
  rewrite Hc3. by rewrite HK.
Qed.

(** ** The color taken from an explicit mapping *)



(** ** The loop of the static render *)

Lemma keeps_modify_heap {D} f : keeps (D := D) (modify (with_heap f)).
Proof. intros w o w' [= <- <-]. done. Qed.
#[export] Hint Resolve keeps_modify_heap : keeps.

Lemma keeps_raise {D A} e : keeps (D := D) (A := A) (raise e).
Proof. intros w o w' [= <- <-]. done. Qed.
#[export] Hint Resolve keeps_raise : keeps.

Lemma keeps_copy {D} r : keeps (D := D) (copy r).
Proof. unfold copy. keeps_walk. Qed.

Lemma keeps_df_setitem {D} r k s : keeps (D := D) (df_setitem r k s).
Proof. unfold df_setitem. keeps_walk. Qed.

Lemma keeps_add_speed `{Collaborators} {D} r : keeps (D := D) (add_speed r).
Proof. unfold add_speed. keeps_walk. Qed.
#[export] Hint Resolve keeps_copy keeps_df_setitem keeps_add_speed : keeps.

Lemma static_loop {D X} (body : nat -> X -> M D unit) :
  (forall i x w o w1, body i x w = (o, w1) -> static_pass w o w1) ->
  forall (l : list X) i w o w',
    for_enumerate i l body w = (o, w') ->
    exists new,
      events w' = events w ++ (Render <$> new)
      /\ match new with
         | [] => True
         | c :: rest =>
             keywords c !! "legend" = kwargs (self w) !! "legend"
             /\ Forall legend_off rest
         end
      /\ (fixed_color (self w) = false ->
          Forall (bounded_by (min_value (self w)) (max_value (self w))) new)
      /\ (forall u, o = Ok u -> List.length new = List.length l).
Proof.
  intros Hbody l. induction l as [|x xs IH]; intros i w o w' E; cbn in E.
  - injection E as <- <-. exists []. cbn. rewrite app_nil_r. by split_and!.
  - apply bind_inv in E as [(a & w1 & Em & E)|(e & Em & ->)];
      apply Hbody in Em as [(e' & Eo & He)|(c & K & a' & Eo & He & Hs & HK & Hl & Hb)];
      try discriminate Eo.
    + apply IH in E as (new & He' & Hleg & Hbd & Hlen).
      exists (c :: new). split; [|split; [|split]].
      * rewrite He', He. cbn. by rewrite <- app_assoc.
      * split; [done|]. destruct new as [|c' rest]; [constructor|].
        destruct Hleg as [Hc' Hrest]. constructor; [|done].
        unfold legend_off. rewrite Hc', Hs. cbn. done.
      * intros Hf. constructor; [by apply Hb|].
        unfold fixed_color in *. rewrite Hs in Hbd. cbn in Hbd. by apply Hbd.
      * intros u Hu. cbn. f_equal. by eapply Hlen.
    + exists []. cbn. rewrite app_nil_r. by split_and!.
Qed.

(** The first step of a run that is known to end well. *)
Tactic Notation "mstep_ok" hyp(E) "as" ident(a) ident(w1) ident(Em) :=
  let e := fresh "e" in
  let Ho := fresh "Ho" in
  apply bind_inv in E as [(a & w1 & Em & E) | (e & Em & Ho)];
  [ | discriminate Ho ].

Lemma plot_member_pass `{Collaborators} i traj (w : world (list nat)) o w1 :
  _TrajectoryCollectionPlotter.plot_member i traj w = (o, w1) ->
  static_pass w o w1.
Proof.
  intros Eb. unfold _TrajectoryCollectionPlotter.plot_member in Eb.
  mstep Eb as t w2 Em; apply deref_inv in Em as [-> Ht].
  2:{ left. eauto. }
  pstep Eb.
  (* both branches come to one render from a state with the same styler *)
  assert (Hrender : forall r (wk : world (list nat)) ob wb,
    self wk = self w -> events wk = events w ->
    (a <- _plot_trajectory r;; modify (with_self (set_ax a))) wk = (ob, wb) ->
    (exists e, ob = Raise e /\ events wb = events w)
    \/ (exists c a,
          ob = Ok tt /\ events wb = events w ++ [Render c]
          /\ self wb = set_ax a (set_kwargs (kwargs (self wb)) (self w))
          /\ kwargs (self wb) !! "legend" = kwargs (self w) !! "legend"
          /\ keywords c !! "legend" = kwargs (self w) !! "legend"
          /\ (fixed_color (self w) = false ->
              bounded_by (min_value (self w)) (max_value (self w)) c))).
  { intros r wk ob wb Hs He Er.
    mstep Er as a w3 Em;
      apply plot_trajectory_spec in Em
        as (Hs3 & _ & Hk & [(e' & Eo & He3)|(c & Eo & He3 & _ & _ & Hkw & Hbr)] & _);
      try discriminate Eo; rewrite Hs in *; rewrite He in *.
    2:{ left. eauto. }
    settle Er. right. eexists c, _. split_and!; try done.
    - by rewrite Hs3.
    - by apply Hk.
    - rewrite Hkw; [done|]. by_compute.
    - intros Hf. unfold fixed_color in Hf. by rewrite Hf in Hbr. }
  mstep Eb as u w3 Em.
  2:{ destruct (py_eq _ _ && negb _).
      - mstep Em as temp w4 Em1; apply keeps_copy in Em1 as [Hs1 He1];
          [|left; eauto].
        pstep Em.
        mstep Em as s w5 Em2; apply keeps_or_raise in Em2 as [Hs2 He2];
          [|left; eexists; split; [done|congruence]].
        mstep Em as u w6 Em3; apply keeps_df_setitem in Em3 as [Hs3 He3];
          [|left; eexists; split; [done|congruence]].
        apply Hrender in Em as [(e' & Eo & He4)|(c & a & Eo & _)];
          [|discriminate Eo|congruence..].
        left. eauto.
      - apply Hrender in Em as [(e' & Eo & He4)|(c & a & Eo & _)];
          [|discriminate Eo|done..].
        left. eauto. }
  assert (exists c a,
          events w3 = events w ++ [Render c]
          /\ self w3 = set_ax a (set_kwargs (kwargs (self w3)) (self w))
          /\ keywords c !! "legend" = kwargs (self w) !! "legend"
          /\ (fixed_color (self w) = false ->
              bounded_by (min_value (self w)) (max_value (self w)) c))
    as (c & a & He3 & Hs3 & Hl & Hb).
  { destruct (py_eq _ _ && negb _).
    - mstep_ok Em as temp w4 Em1; apply keeps_copy in Em1 as [Hs1 He1].
      pstep Em.
      mstep_ok Em as s w5 Em2; apply keeps_or_raise in Em2 as [Hs2 He2].
      mstep_ok Em as u' w6 Em3; apply keeps_df_setitem in Em3 as [Hs3 He3].
      apply Hrender in Em as [(e' & Eo & He4)|(c & a & Eo & ? & ? & ? & ? & ?)];
        [discriminate Eo| |congruence..].
      eauto 10.
    - apply Hrender in Em as [(e' & Eo & He4)|(c & a & Eo & ? & ? & ? & ? & ?)];
        [discriminate Eo| |done..].
      eauto 10. }
  clear Em Hrender. settle Eb.
  right. exists c, (<["legend" := PBool false]> (kwargs (self w3))), a.
  split_and!; try done.
  - rewrite Hs3. reflexivity.
  - by rewrite lookup_insert_eq.
Qed.

Lemma keeps_keeps_options {D A} (m : M D A) : keeps m -> keeps_options m.
Proof.
  intros Hm w o w' E. apply Hm in E as [Hs He]. split; [done|].
  exists (_speeds (self w)). rewrite Hs. by destruct (self w).
Qed.

Lemma keeps_options_bind {D A B} (m : M D A) (k : A -> M D B) :
  keeps_options m -> (forall a, keeps_options (k a)) ->
  keeps_options (bind m k).
Proof.
  intros Hm Hk w o w' E.
  apply bind_inv in E as [(a & w1 & Em & E)|(e & Em & ->)].
  - apply Hm in Em as [He (sp & Hs)]. apply Hk in E as [He' (sp' & Hs')].
    split; [congruence|]. exists sp'. rewrite Hs', Hs. reflexivity.
  - by apply Hm in Em.
Qed.

Lemma keeps_options_for_each {D X} (l : list X) (body : X -> M D unit) :
  (forall x, keeps_options (body x)) -> keeps_options (for_each l body).
Proof.
  intros Hb. induction l as [|x xs IH]; cbn.
  - apply keeps_keeps_options, keeps_ret.
  - apply keeps_options_bind; auto.
Qed.

Lemma keeps_options_cache_speed `{Collaborators} traj :
  keeps_options (_TrajectoryCollectionPlotter.cache_speed traj).
Proof.
  unfold _TrajectoryCollectionPlotter.cache_speed.
  repeat (apply keeps_options_bind;
          [apply keeps_keeps_options; auto with keeps | intros ?]).
  intros w o w' [= <- <-]. split; [done|]. eexists. reflexivity.
Qed.

Lemma keeps_comprehension {D X Y} (f : X -> M D Y) l :
  (forall x, keeps (f x)) -> keeps (comprehension f l).
Proof.
  intros Hf. induction l as [|x xs IH]; cbn; keeps_walk.
Qed.

Lemma keeps_lift_builtin {D A} (r : builtin_exn + A) : keeps (D := D) (lift_builtin r).
Proof. destruct r; intros w o w' [= <- <-]; done. Qed.

Lemma keeps_lift_collaborator {D A} (r : string + A) :
  keeps (D := D) (lift_collaborator r).
Proof. destruct r; intros w o w' [= <- <-]; done. Qed.
#[export] Hint Resolve keeps_lift_builtin keeps_lift_collaborator : keeps.

Lemma keeps_options_get_min_max_speed `{Collaborators} :
  keeps_options _TrajectoryCollectionPlotter.get_min_max_speed.
Proof.
  unfold _TrajectoryCollectionPlotter.get_min_max_speed.
  apply keeps_options_bind; [apply keeps_keeps_options; auto with keeps|intros trajs].
  apply keeps_options_bind.
  { apply keeps_options_for_each. apply keeps_options_cache_speed. }
  intros _. apply keeps_keeps_options.
  repeat first [ progress intros | apply keeps_bind
               | apply keeps_comprehension | solve [auto with keeps] ].
Qed.

Lemma get_min_max_values_spec `{Collaborators} (w : world (list nat)) o w1 :
  _TrajectoryCollectionPlotter.get_min_max_values w = (o, w1) ->
  events w1 = events w
  /\ match o with
     | Ok (mn, mx) =>
         exists sp,
           self w1
           = set_max_value (default mx (kwargs (self w) !! "vmax"))
               (set_min_value (default mn (kwargs (self w) !! "vmin"))
                  (set_kwargs (delete "vmax" (delete "vmin" (kwargs (self w))))
                     (set_speeds sp (self w))))
     | Raise _ => True
     end.
Proof.
  intros E. unfold _TrajectoryCollectionPlotter.get_min_max_values in E.
  pstep E.
  mstep E as r0 w2 Em; apply keeps_or_raise in Em as [Hs He]; [|done].
  mstep E as first w3 Em; apply keeps_deref in Em as [Hs' He']; [|split; [congruence|done]].
  cbv zeta in E. pstep E.
  mstep E as bounds w4 Em.
  2:{ split; [|done].
      destruct (py_eq _ _ && negb _).
      - apply keeps_options_get_min_max_speed in Em as [? _]. congruence.
      - revert Em. match goal with |- ?m _ = _ -> _ => assert (Hk : keeps m) by keeps_walk end.
        intros Em. apply Hk in Em as [_ ?]. congruence. }
  assert (events w4 = events w /\ exists sp, self w4 = set_speeds sp (self w))
    as [He4 (sp & Hs4)].
  { destruct (py_eq _ _ && negb _).
    - apply keeps_options_get_min_max_speed in Em as [? (sp & ?)].
      split; [congruence|]. exists sp. congruence.
    - revert Em. match goal with |- ?m _ = _ -> _ => assert (Hk : keeps m) by keeps_walk end.
      intros Em. apply Hk in Em as [Hs4 ?]. split; [congruence|].
      exists (_speeds (self w)). rewrite Hs4, Hs', Hs. by destruct (self w). }
  clear Em. destruct bounds as [mn mx].
  destruct w4 as [h4 n4 es4 f14 f24 f34 st4]. cbn in He4, Hs4. subst.
  pstep E. pstep E. pstep E. pstep E. settle E. cbn.
  split; [done|]. exists sp. by rewrite lookup_delete_ne.
Qed.

Lemma renders_app es1 es2 : renders (es1 ++ es2) = renders es1 ++ renders es2.
Proof. unfold renders. apply omap_app. Qed.

Lemma renders_Render l : renders (Render <$> l) = l.
Proof. induction l as [|c l IH]; cbn; [done|]. by f_equal. Qed.

(** What the static render of a collection does to the events. *)
Lemma collection_plot_spec `{Collaborators} (w : world (list nat)) o w' :
  _TrajectoryCollectionPlotter.plot w = (o, w') ->
  exists figs new,
    events w' = events w ++ figs ++ (Render <$> new)
    /\ renders figs = []
    /\ (forall c rest, new = c :: rest -> Forall legend_off rest)
    /\ (forall o1 w1,
          truthy (column (self w)) = true ->
          _TrajectoryCollectionPlotter.get_min_max_values w = (o1, w1) ->
          match o1 with
          | Ok (mn, mx) =>
              fixed_color (self w) = false ->
              Forall (bounded_by (default mn (kwargs (self w) !! "vmin"))
                        (default mx (kwargs (self w) !! "vmax"))) new
          | Raise _ => new = []
          end)
    /\ (forall a, o = Ok a -> List.length new = List.length (data (self w))).
Proof.
  intros E. unfold _TrajectoryCollectionPlotter.plot in E.
  pstep E.
  (* the shared scale *)
  mstep E as u w1 Em.
  2:{ exists [], []. cbn. rewrite app_nil_r.
      assert (events w' = events w /\
              exists e1, truthy (column (self w)) = true /\ forall o1 w1,
                _TrajectoryCollectionPlotter.get_min_max_values w = (o1, w1) ->
                o1 = Raise e1) as [He (e1 & Ht & Ho1)].
      { destruct (truthy (column (self w))); [|discriminate Em].
        mstep Em as b w2 Em1; [discriminate Em|].
        pose proof (get_min_max_values_spec _ _ _ Em1) as [? _].
        split; [done|]. exists e. split; [done|]. intros o1 w1 E1. congruence. }
      split_and!; try done.
      intros o1 w1 _ E1. by rewrite (Ho1 _ _ E1). }
  assert (events w1 = events w
          /\ data (self w1) = data (self w) /\ ax (self w1) = ax (self w)
          /\ figsize (self w1) = figsize (self w)
          /\ fixed_color (self w1) = fixed_color (self w)
          /\ (forall o1 w2, truthy (column (self w)) = true ->
                _TrajectoryCollectionPlotter.get_min_max_values w = (o1, w2) ->
                exists mn mx, o1 = Ok (mn, mx)
                  /\ min_value (self w1) = default mn (kwargs (self w) !! "vmin")
                  /\ max_value (self w1) = default mx (kwargs (self w) !! "vmax")))
    as (He1 & Hd1 & Ha1 & Hf1 & Hfc1 & Hb1).
  { destruct (truthy (column (self w))) eqn:Etc.
    - mstep_ok Em as b w2 Em1. settle Em.
      pose proof (get_min_max_values_spec _ _ _ Em1) as [He Hs].
      destruct b as [mn mx]. destruct Hs as (sp & Hs).
      rewrite Hs. split_and!; try done.
      intros o1 w2 _ E1. rewrite Em1 in E1. injection E1 as <- <-.
      exists mn, mx. by split_and!.
    - settle Em. split_and!; try done. }
  clear Em.
  pstep E.
  (* the axis *)
  mstep E as u2 w2 Em.
  2:{ destruct (negb (truthy (ax (self w1)))); [|discriminate Em].
      pstep Em. mstep Em as a w3 Em1; [discriminate Em|].
      unfold new_subplot, fresh_obj in Em1. run. discriminate Em1. }
  assert (exists figs, events w2 = events w ++ figs /\ renders figs = []
          /\ data (self w2) = data (self w)
          /\ fixed_color (self w2) = fixed_color (self w)
          /\ min_value (self w2) = min_value (self w1)
          /\ max_value (self w2) = max_value (self w1))
    as (figs & He2 & Hfigs & Hd2 & Hfc2 & Hmin2 & Hmax2).
  { destruct (negb (truthy (ax (self w1)))).
    - pstep Em. mstep_ok Em as a w3 Em1. settle Em.
      unfold new_subplot, fresh_obj in Em1. run. injection Em1 as <- <-. cbn.
      exists [Figure (figsize (self w1))]. rewrite He1. by split_and!.
    - settle Em. exists []. rewrite app_nil_r. by split_and!. }
  clear Em. pstep E.
  (* the loop *)
  mstep E as u3 w3 Em;
    apply (static_loop _ plot_member_pass) in Em as (new & He3 & Hleg & Hbd & Hlen).
  2:{ exists figs, new. rewrite He3, He2, <- app_assoc. split_and!; try done.
      - intros c rest ->. by destruct Hleg.
      - intros o1 w4 Ht E1. destruct (Hb1 _ _ Ht E1) as (mn & mx & -> & Hmn & Hmx).
        intros Hf. rewrite Hmin2, Hmax2, Hmn, Hmx in Hbd. apply Hbd. congruence. }
  settle E. exists figs, new. rewrite He3, He2, <- app_assoc. split_and!; try done.
  - intros c rest ->. by destruct Hleg.
  - intros o1 w4 Ht E1. destruct (Hb1 _ _ Ht E1) as (mn & mx & -> & Hmn & Hmx).
    intros Hf. rewrite Hmin2, Hmax2, Hmn, Hmx in Hbd. apply Hbd. congruence.
  - intros a _. rewrite <- Hd2. by eapply Hlen.
Qed.

(** ** The static render of a collection *)

(** C7: in one [plot] of a collection, every renderer call after the first
    carries "legend" set to [False]; and when [plot] returns, there is one
    renderer call for each member. *)
Theorem C7_legend_off_after_first_member :
  forall (C : Collaborators) (w : world (list nat)),
    exists new,
      events (snd (_TrajectoryCollectionPlotter.plot w)) = events w ++ new
      /\ (forall c rest, renders new = c :: rest -> Forall legend_off rest)
      /\ (forall a, fst (_TrajectoryCollectionPlotter.plot w) = Ok a ->
            List.length (renders new) = List.length (data (self w))).
Proof.
  intros C w.
  destruct (_TrajectoryCollectionPlotter.plot w) as [o w'] eqn:E.
  apply collection_plot_spec in E as (figs & new & He & Hf & Hleg & _ & Hlen).
  exists (figs ++ (Render <$> new)). cbn.
  rewrite renders_app, Hf, renders_Render. cbn. by split_and!.
Qed.

Example C7_sample_run :
  (fun c => keywords c !! "legend")
    <$> renders (events (snd (@_TrajectoryCollectionPlotter.plot
                                sample_collaborators
                                (sample_collection
                                   (<["column" := PStr "speed"]>
                                      (<["legend" := PBool true]> ∅))))))
  = [Some (PBool true); Some (PBool false)].
Proof. vm_compute. reflexivity. Qed.

(** C2, as amended: when a color-by-column is set and no value-to-color
    mapping fixes the color, every member's render call gets as "vmin" and
    "vmax" the caller's "vmin" and "vmax" where the bag has them, and the
    computed global minimum and maximum where it has not; and when [plot]
    returns there is one such call for each member. *)
Theorem C2_bounds_prefer_the_callers :
  forall (C : Collaborators) (w w1 : world (list nat)) (mn mx : pyval),
    truthy (column (self w)) = true ->
    fixed_color (self w) = false ->
    _TrajectoryCollectionPlotter.get_min_max_values w = (Ok (mn, mx), w1) ->
    exists new,
      events (snd (_TrajectoryCollectionPlotter.plot w)) = events w ++ new
      /\ Forall (bounded_by (default mn (kwargs (self w) !! "vmin"))
                   (default mx (kwargs (self w) !! "vmax"))) (renders new)
      /\ (forall a, fst (_TrajectoryCollectionPlotter.plot w) = Ok a ->
            List.length (renders new) = List.length (data (self w))).
Proof.
  intros C w w1 mn mx Hc Hf Eb.
  destruct (_TrajectoryCollectionPlotter.plot w) as [o w'] eqn:E.
  apply collection_plot_spec in E as (figs & new & He & Hfigs & _ & Hbd & Hlen).
  exists (figs ++ (Render <$> new)). cbn.
  rewrite renders_app, Hfigs, renders_Render. cbn. split_and!; try done.
  by apply (Hbd _ _ Hc Eb).
Qed.

Lemma C2_witness :
  exists new,
    events (snd (@_TrajectoryCollectionPlotter.plot sample_collaborators
                   (sample_collection (<["column" := PStr "speed"]> ∅))))
    = [] ++ new
    /\ Forall (bounded_by (PNum 1) (PNum 7)) (renders new).
Proof.
  destruct (C2_bounds_prefer_the_callers sample_collaborators
              (sample_collection (<["column" := PStr "speed"]> ∅))
              (snd (@_TrajectoryCollectionPlotter.get_min_max_values
                      sample_collaborators
                      (sample_collection (<["column" := PStr "speed"]> ∅))))
              (PNum 1) (PNum 7))
    as (new & He & Hb & _).
  - vm_compute. reflexivity.
  - vm_compute. reflexivity.
  - vm_compute. reflexivity.
  - exists new. split; [exact He | exact Hb].
Defined.

(** C2, as stated, fails: with "vmin" in the bag, the computed global
    minimum is 1 but both members are rendered with the caller's -5. *)
Lemma C2_caller_vmin_wins :
  fst (@_TrajectoryCollectionPlotter.get_min_max_values sample_collaborators
         (sample_collection
            (<["column" := PStr "speed"]> (<["vmin" := PNum (-5)]> ∅))))
  = Ok (PNum 1, PNum 7)
  /\ (fun c => keywords c !! "vmin")
       <$> renders (events (snd (@_TrajectoryCollectionPlotter.plot
                                   sample_collaborators
                                   (sample_collection
                                      (<["column" := PStr "speed"]>
                                         (<["vmin" := PNum (-5)]> ∅))))))
     = [Some (PNum (-5)); Some (PNum (-5))].
Proof. split; vm_compute; reflexivity. Qed.

(** ** The loop of the interactive render *)

Lemma hvplot_member_pass `{Collaborators} traj (w : world (list nat)) o w1 :
  _TrajectoryCollectionPlotter.hvplot_member traj w = (o, w1) ->
  interactive_pass w o w1.
Proof.
  intros E. unfold _TrajectoryCollectionPlotter.hvplot_member in E.
  mstep E as d w2 Em;
    apply hvplot_trajectory_spec in Em
      as (Hs & new & He & [(e' & Eo & Hn)|(d' & line & endc & Eo & -> & Hl & Hend & Hh)]);
    try discriminate Eo.
  2:{ exists new. split; [done|]. left. exists e. split; [done|].
      destruct Hn as [->|(line & -> & Hsite & Ht & _)]; [by left|].
      right. eauto. }
  clear Eo. pstep E.
  assert (exists ov, w1 = with_self (set_hvplot_tiles (PBool false))
                            (with_self (set_overlay ov) w2) /\ o = Ok tt)
    as (ov & -> & ->).
  { destruct (overlay (self w2)); (mstep E as u w3 Em; [|settle Em]);
      settle Em; settle E; eauto. }
  exists [line; endc]. cbn. split; [done|]. right.
  destruct Hl as (Hsite & Ht & _).
  eexists line, endc, (kwargs (self w2)), ov. split_and!; try done.
  rewrite Hs. reflexivity.
Qed.

Lemma replicate_shift {A} k (x : A) rest :
  replicate k x ++ x :: rest = x :: replicate k x ++ rest.
Proof. by rewrite cons_middle, app_assoc, <- replicate_cons_app. Qed.

Lemma hover_after_step k c l :
  hover_after k c (hover_after 1 c l) = hover_after (S k) c l.
Proof.
  unfold hover_after. cbn. rewrite replicate_shift. f_equal. f_equal.
  destruct (truthy c); rewrite <- !app_assoc; cbn; [|done].
  by rewrite replicate_cons_app.
Qed.

Lemma interactive_loop {D X} (body : X -> M D unit) :
  (forall x w o w1, body x w = (o, w1) -> interactive_pass w o w1) ->
  forall (l : list X) w o w',
    for_each l body w = (o, w') ->
    exists new,
      events w' = events w ++ (Render <$> new)
      /\ match calls_at LineHvplot new with
         | [] => True
         | c :: rest =>
             tiles_of c = Some (hvplot_tiles (self w)) /\ Forall tiles_off rest
         end
      /\ Forall tiles_none (calls_at EndTriangleHvplot new)
      /\ (forall j c,
            calls_at EndTriangleHvplot new !! j = Some c ->
            hover_cols_of c
            = Some (PList (hover_after (S j) (column (self w))
                             (hover_list (kwargs (self w) !! "hover_cols")))))
      /\ (forall u, o = Ok u ->
            List.length (calls_at LineHvplot new) = List.length l
            /\ List.length (calls_at EndTriangleHvplot new) = List.length l).
Proof.
  intros Hbody l. induction l as [|x xs IH]; intros w o w' E; cbn in E.
  - injection E as <- <-. exists []. cbn. rewrite app_nil_r.
    split; [done|]. split; [done|]. split; [constructor|]. split; [|done].
    intros j c Hj. by rewrite lookup_nil in Hj.
  - apply bind_inv in E as [(a & w1 & Em & E)|(e & Em & ->)];
      apply Hbody in Em
        as (new1 & He1 & [(e' & Eo & Hn)
                         |(line & endc & K & ov & Eo & -> & Hsite & Ht & Hend & Hs & HK)]);
      try discriminate Eo.
    + destruct Hend as (Hesite & Hetiles & Hehover).
      apply IH in E as (new & He & Hlines & Hends & Hhover & Hlen).
      exists ([line; endc] ++ new). unfold calls_at in *. cbn.
      rewrite Hsite, Hesite. cbn.
      split; [|split; [|split; [|split]]].
      * rewrite He, He1. cbn. by rewrite <- app_assoc.
      * split; [done|]. rewrite Hs in Hlines. cbn in Hlines.
        destruct (List.filter _ new) as [|c rest]; [constructor|].
        destruct Hlines as [Hc Hrest]. by constructor.
      * by constructor.
      * intros [|j] c Hj; cbn in Hj.
        -- injection Hj as <-. exact Hehover.
        -- apply Hhover in Hj. rewrite Hj, Hs. cbn -[hover_after].
           unfold hover_cols_of in HK, Hehover.
           rewrite HK, Hehover. cbn -[hover_after].
           by rewrite hover_after_step.
      * intros u Hu. destruct (Hlen u Hu) as [-> ->]. done.
    + exists new1. unfold calls_at.
      split; [done|].
      destruct Hn as [->|(line & -> & Hsite & Ht)]; cbn; rewrite ?Hsite; cbn.
      * split; [done|]. split; [constructor|]. split; [|done].
        intros j c Hj. by rewrite lookup_nil in Hj.
      * split; [split; [done|constructor]|]. split; [constructor|].
        split; [|done]. intros j c Hj. by rewrite lookup_nil in Hj.
Qed.

(** What the interactive render of a collection does to the events. *)
Lemma collection_hvplot_spec `{Collaborators} (w : world (list nat)) o w' :
  _TrajectoryCollectionPlotter.hvplot w = (o, w') ->
  exists pre new,
    events w' = events w ++ pre ++ (Render <$> new)
    /\ renders pre = []
    /\ match calls_at LineHvplot new with
       | [] => True
       | c :: rest =>
           tiles_of c = Some (hvplot_tiles (self w)) /\ Forall tiles_off rest
       end
    /\ Forall tiles_none (calls_at EndTriangleHvplot new)
    /\ (forall j c,
          calls_at EndTriangleHvplot new !! j = Some c ->
          hover_cols_of c
          = Some (PList (hover_after (S j) (column (self w))
                           (hover_list (kwargs (self w) !! "hover_cols")))))
    /\ (forall a, o = Ok a ->
          List.length (calls_at LineHvplot new) = List.length (data (self w))
          /\ List.length (calls_at EndTriangleHvplot new)
             = List.length (data (self w))).
Proof.
  intros E. unfold _TrajectoryCollectionPlotter.hvplot in E.
  mstep E as u w1 Em; rewrite import_interactive_run in Em;
    injection Em as Eo <-.
  2:{ exists [], []. cbn. rewrite app_nil_r.
      split_and!; try done; try constructor. }
  clear Eo.
  mstep E as u2 w2 Em; [|unfold overlay_defaults in Em; run; discriminate Em].
  assert (self w2 = self w
          /\ events w2 = events w ++ [OverlayDefaults (width (self w)) (height (self w))])
    as [Hs2 He2].
  { unfold overlay_defaults in Em. run. by injection Em as <- <-. }
  clear Em. pstep E.
  mstep E as u3 w3 Em;
    apply (interactive_loop _ hvplot_member_pass) in Em
      as (new & He3 & Hlines & Hends & Hhover & Hlen);
    rewrite Hs2 in *.
  2:{ eexists _, new. rewrite He3, He2, <- app_assoc. split_and!; try done. }
  settle E. eexists _, new. rewrite He3, He2, <- app_assoc. split_and!; try done.
  intros a _. by eapply Hlen.
Qed.

(** ** The interactive render of a collection *)

(** C8, as amended: in one [hvplot] of a collection the line render of the
    first member gets the styler's tile option as "tiles", the line render
    of every later member gets [False], and every end-marker render gets
    [None]; so the later tile options differ from the first member's
    whenever that one is not [False] itself.  When [hvplot] returns there
    is one line render and one end-marker render for each member. *)
Theorem C8_tiles_off_after_first_member :
  forall (C : Collaborators) (w : world (list nat)),
    exists new,
      events (snd (_TrajectoryCollectionPlotter.hvplot w)) = events w ++ new
      /\ (forall c rest,
            calls_at LineHvplot (renders new) = c :: rest ->
            tiles_of c = Some (hvplot_tiles (self w))
            /\ Forall tiles_off rest
            /\ (hvplot_tiles (self w) <> PBool false ->
                Forall (fun c' => tiles_of c' <> tiles_of c) rest))
      /\ Forall tiles_none (calls_at EndTriangleHvplot (renders new))
      /\ (forall a, fst (_TrajectoryCollectionPlotter.hvplot w) = Ok a ->
            List.length (calls_at LineHvplot (renders new))
              = List.length (data (self w))
            /\ List.length (calls_at EndTriangleHvplot (renders new))
               = List.length (data (self w))).
Proof.
  intros C w.
  destruct (_TrajectoryCollectionPlotter.hvplot w) as [o w'] eqn:E.
  apply collection_hvplot_spec in E
    as (pre & new & He & Hpre & Hlines & Hends & _ & Hlen).
  exists (pre ++ (Render <$> new)). cbn [fst snd].
  rewrite renders_app, Hpre, renders_Render. cbn [app]. split_and!; try done.
  intros c rest Hc. rewrite Hc in Hlines. destruct Hlines as [Ht Hrest].
  split_and!; try done.
  intros Hne. eapply Forall_impl; [exact Hrest|].
  intros c' Hc'. unfold tiles_off in Hc'. rewrite Hc', Ht. congruence.
Qed.

(** C8, as stated, fails: when the caller passes [tiles=False], the second
    member's tile option is the same as the first member's. *)
Lemma C8_tiles_false_everywhere :
  tiles_of
    <$> calls_at LineHvplot
          (renders (events (snd (@_TrajectoryCollectionPlotter.hvplot
                                   sample_collaborators
                                   (sample_collection
                                      (<["tiles" := PBool false]> ∅))))))
  = [Some (PBool false); Some (PBool false)].
Proof. vm_compute. reflexivity. Qed.

Example C8_sample_run :
  tiles_of
    <$> calls_at LineHvplot
          (renders (events (snd (@_TrajectoryCollectionPlotter.hvplot
                                   sample_collaborators (sample_collection ∅)))))
  = [Some (PStr "OSM"); Some (PBool false)].
Proof. vm_compute. reflexivity. Qed.

(** C10: in one [hvplot] of a collection the hover columns handed to the
    end-marker renders are, in order, what [hover_after 1], [hover_after 2],
    ... give: for the k-th member "triangle_angle" k times, then the
    caller's own hover columns, then (when a color-by-column is set) that
    column k times.  When [hvplot] returns there is one end-marker render
    for each member. *)
Theorem C10_hover_columns_pile_up :
  forall (C : Collaborators) (w : world (list nat)),
    exists new,
      events (snd (_TrajectoryCollectionPlotter.hvplot w)) = events w ++ new
      /\ hover_cols_of <$> calls_at EndTriangleHvplot (renders new)
         = (fun k => Some (PList (hover_after k (column (self w))
                              (hover_list (kwargs (self w) !! "hover_cols")))))
             <$> seq 1 (List.length (calls_at EndTriangleHvplot (renders new)))
      /\ (forall k c l,
            hover_after k c l
            = replicate k (PStr "triangle_angle") ++ l
              ++ (if truthy c then replicate k c else []))
      /\ (forall a, fst (_TrajectoryCollectionPlotter.hvplot w) = Ok a ->
            List.length (calls_at EndTriangleHvplot (renders new))
            = List.length (data (self w))).
Proof.
  intros C w.
  destruct (_TrajectoryCollectionPlotter.hvplot w) as [o w'] eqn:E.
  apply collection_hvplot_spec in E
    as (pre & new & He & Hpre & _ & _ & Hhover & Hlen).
  exists (pre ++ (Render <$> new)). cbn [fst snd].
  rewrite renders_app, Hpre, renders_Render. cbn [app]. split_and!; try done.
  - apply list_eq. intros j. rewrite !list_lookup_fmap.
    destruct (calls_at EndTriangleHvplot new !! j) as [c|] eqn:Ej; cbn.
    + rewrite lookup_seq_lt by (eapply lookup_lt_Some; eauto). cbn.
      f_equal. by apply Hhover.
    + rewrite lookup_seq_ge; [done|]. by apply lookup_ge_None.
  - intros a Ha. by apply (Hlen a).
Qed.

Example C10_sample_run :
  hover_cols_of
    <$> calls_at EndTriangleHvplot
          (renders (events (snd (@_TrajectoryCollectionPlotter.hvplot
                                   sample_collaborators
                                   (sample_collection
                                      (<["column" := PStr "kind"]> ∅))))))
  = [Some (PList [PStr "triangle_angle"; PStr "kind"]);
     Some (PList [PStr "triangle_angle"; PStr "triangle_angle";
                  PStr "kind"; PStr "kind"])].
Proof. vm_compute. reflexivity. Qed.

(** ** The shared scale *)

Lemma py_min_from_nums b l :
  py_min_from (PNum b) (PNum <$> l) = Some (PNum (foldl Z.min b l)).
Proof.
  revert b. induction l as [|x l IH]; intros b; cbn; [done|].
  destruct (Z.ltb_spec x b).
  - rewrite IH. do 3 f_equal. lia.
  - rewrite IH. do 3 f_equal. lia.
Qed.

Lemma py_max_from_nums b l :
  py_max_from (PNum b) (PNum <$> l) = Some (PNum (foldl Z.max b l)).
Proof.
  revert b. induction l as [|x l IH]; intros b; cbn; [done|].
  destruct (Z.ltb_spec b x).
  - rewrite IH. do 3 f_equal. lia.
  - rewrite IH. do 3 f_equal. lia.
Qed.

Lemma foldl_min_least b l : least (b :: l) (foldl Z.min b l).
Proof.
  revert b. induction l as [|x l IH]; intros b; cbn.
  - split; [apply list_elem_of_here|]. intros y Hy.
    apply list_elem_of_singleton in Hy. lia.
  - destruct (IH (Z.min b x)) as [Hin Hle]. split.
    + apply elem_of_cons in Hin as [Hin|Hin].
      * rewrite Hin. destruct (Z.min_spec b x) as [[_ ->]|[_ ->]].
        -- apply list_elem_of_here.
        -- apply list_elem_of_further, list_elem_of_here.
      * by do 2 apply list_elem_of_further.
    + intros y Hy. apply elem_of_cons in Hy as [->|Hy].
      * specialize (Hle (Z.min b x) (list_elem_of_here _ _)). lia.
      * apply elem_of_cons in Hy as [->|Hy].
        -- specialize (Hle (Z.min b x) (list_elem_of_here _ _)). lia.
        -- apply Hle. by apply list_elem_of_further.
Qed.

Lemma foldl_max_greatest b l : greatest (b :: l) (foldl Z.max b l).
Proof.
  revert b. induction l as [|x l IH]; intros b; cbn.
  - split; [apply list_elem_of_here|]. intros y Hy.
    apply list_elem_of_singleton in Hy. lia.
  - destruct (IH (Z.max b x)) as [Hin Hle]. split.
    + apply elem_of_cons in Hin as [Hin|Hin].
      * rewrite Hin. destruct (Z.max_spec b x) as [[_ ->]|[_ ->]].
        -- apply list_elem_of_further, list_elem_of_here.
        -- apply list_elem_of_here.
      * by do 2 apply list_elem_of_further.
    + intros y Hy. apply elem_of_cons in Hy as [->|Hy].
      * specialize (Hle (Z.max b x) (list_elem_of_here _ _)). lia.
      * apply elem_of_cons in Hy as [->|Hy].
        -- specialize (Hle (Z.max b x) (list_elem_of_here _ _)). lia.
        -- apply Hle. by apply list_elem_of_further.
Qed.

Lemma py_min_nums l :
  l <> [] -> exists m, py_min (PNum <$> l) = inr (PNum m) /\ least l m.
Proof.
  destruct l as [|x l]; [done|]. intros _. cbn.
  rewrite py_min_from_nums. eexists. split; [done|]. apply foldl_min_least.
Qed.

Lemma py_max_nums l :
  l <> [] -> exists m, py_max (PNum <$> l) = inr (PNum m) /\ greatest l m.
Proof.
  destruct l as [|x l]; [done|]. intros _. cbn.
  rewrite py_max_from_nums. eexists. split; [done|]. apply foldl_max_greatest.
Qed.

Lemma comprehension_run {D X Y} (f : X -> builtin_exn + Y) (l : list X)
    (ys : list Y) (w : world D) :
  Forall2 (fun x y => f x = inr y) l ys ->
  comprehension (fun x => lift_builtin (f x)) l w = (Ok ys, w).
Proof.
  intros Hf. induction Hf as [|x y l ys Hx _ IH]; cbn; [done|].
  rewrite Hx. unfold bind. cbn. by rewrite IH.
Qed.

Lemma least_concat (ls : list (list Z)) (ms : list Z) m :
  Forall2 least ls ms -> least ms m -> least (List.concat ls) m.
Proof.
  intros Hf [Hin Hle]. split.
  - apply list_elem_of_lookup in Hin as [i Hi].
    destruct (Forall2_lookup_r _ _ _ _ _ Hf Hi) as (l & Hl & [Hm _]).
    apply list_elem_of_In, in_concat. exists l. split.
    + apply list_elem_of_In. apply list_elem_of_lookup. eauto.
    + by apply list_elem_of_In.
  - intros x Hx. apply list_elem_of_In, in_concat in Hx as (l & Hl & Hx).
    apply list_elem_of_In, list_elem_of_lookup in Hl as [i Hi].
    destruct (Forall2_lookup_l _ _ _ _ _ Hf Hi) as (m' & Hm' & [_ Hle']).
    apply list_elem_of_In in Hx. specialize (Hle' x Hx).
    assert (m <= m')%Z; [|lia]. apply Hle. apply list_elem_of_lookup. eauto.
Qed.

Lemma greatest_concat (ls : list (list Z)) (ms : list Z) m :
  Forall2 greatest ls ms -> greatest ms m -> greatest (List.concat ls) m.
Proof.
  intros Hf [Hin Hle]. split.
  - apply list_elem_of_lookup in Hin as [i Hi].
    destruct (Forall2_lookup_r _ _ _ _ _ Hf Hi) as (l & Hl & [Hm _]).
    apply list_elem_of_In, in_concat. exists l. split.
    + apply list_elem_of_In. apply list_elem_of_lookup. eauto.
    + by apply list_elem_of_In.
  - intros x Hx. apply list_elem_of_In, in_concat in Hx as (l & Hl & Hx).
    apply list_elem_of_In, list_elem_of_lookup in Hl as [i Hi].
    destruct (Forall2_lookup_l _ _ _ _ _ Hf Hi) as (m' & Hm' & [_ Hle']).
    apply list_elem_of_In in Hx. specialize (Hle' x Hx).
    assert (m' <= m)%Z; [|lia]. apply Hle. apply list_elem_of_lookup. eauto.
Qed.

Lemma cache_speed_run `{Collaborators} (w : world (list nat)) traj t :
  heap w !! traj = Some t ->
  column (self w) = PStr (speed_column_name t) ->
  _TrajectoryCollectionPlotter.cache_speed traj w
  = (Ok tt,
     with_self (fun s => set_speeds (_speeds s ++ [speed_series t]) s)
       (with_heap
          (fun h => h ++ [set_df (<[speed_column_name t := speed_series t]>) t])
          w)).
Proof.
  intros Ht Hc. destruct w as [h n es f1 f2 f3 st]. cbn in Ht, Hc.
  unfold _TrajectoryCollectionPlotter.cache_speed, speed_series. run.
  rewrite Ht. run. rewrite snoc_lookup_len. run.
  rewrite snoc_insert_len, snoc_lookup_len. run.
  rewrite Hc. cbn. rewrite lookup_insert_eq. run. done.
Qed.

Lemma cache_speeds_run `{Collaborators} refs ts :
  forall w : world (list nat),
    Forall2 (fun r t => heap w !! r = Some t) refs ts ->
    Forall (fun t => column (self w) = PStr (speed_column_name t)) ts ->
    exists w',
      for_each refs _TrajectoryCollectionPlotter.cache_speed w = (Ok tt, w')
      /\ _speeds (self w') = _speeds (self w) ++ (speed_series <$> ts).
Proof.
  revert ts. induction refs as [|r refs IH]; intros ts w Hv Hc.
  - apply Forall2_nil_inv_l in Hv as ->. exists w. cbn.
    by rewrite app_nil_r.
  - apply Forall2_cons_inv_l in Hv as (t & ts' & Ht & Hv & ->).
    apply Forall_cons in Hc as [Hc Hcs]. cbn.
    erewrite bind_run; [|by apply cache_speed_run].
    match goal with |- context [for_each refs _ ?w1] =>
      destruct (IH ts' w1) as (w' & E & Hs) end.
    + eapply Forall2_impl; [exact Hv|]. intros r' t' Hr'. cbn in Hr' |- *.
      rewrite lookup_app_l; [done|]. eapply lookup_lt_Some. exact Hr'.
    + done.
    + exists w'. split; [exact E|].
      rewrite Hs. cbn. by rewrite <- app_assoc.
Qed.

Lemma get_min_max_speed_run `{Collaborators} (w : world (list nat)) ts :
  Forall2 (fun r t => heap w !! r = Some t) (data (self w)) ts ->
  Forall (fun t => column (self w) = PStr (speed_column_name t)
                   /\ compute_speed t <> []) ts ->
  ts <> [] ->
  _speeds (self w) = [] ->
  exists mn mx mins maxs,
    fst (_TrajectoryCollectionPlotter.get_min_max_speed w)
      = Ok (PNum mn, PNum mx)
    /\ Forall2 least (compute_speed <$> ts) mins /\ least mins mn
    /\ Forall2 greatest (compute_speed <$> ts) maxs /\ greatest maxs mx.
Proof.
  intros Hv Hc Hne Hs0.
  destruct (cache_speeds_run _ _ w Hv) as (w' & E & Hs).
  { eapply Forall_impl; [exact Hc|]. by intros t [? _]. }
  rewrite Hs0 in Hs. cbn in Hs.
  assert (Hmins : exists mins, Forall2 least (compute_speed <$> ts) mins
            /\ Forall2 (fun s m => py_min s = inr m) (speed_series <$> ts)
                 (PNum <$> mins)).
  { clear -Hc. induction Hc as [|t ts [_ Ht] _ (mins & H1 & H2)].
    - exists []. split; constructor.
    - destruct (py_min_nums _ Ht) as (m & Em & Hm).
      exists (m :: mins). split; constructor; done. }
  assert (Hmaxs : exists maxs, Forall2 greatest (compute_speed <$> ts) maxs
            /\ Forall2 (fun s m => py_max s = inr m) (speed_series <$> ts)
                 (PNum <$> maxs)).
  { clear -Hc. induction Hc as [|t ts [_ Ht] _ (maxs & H1 & H2)].
    - exists []. split; constructor.
    - destruct (py_max_nums _ Ht) as (m & Em & Hm).
      exists (m :: maxs). split; constructor; done. }
  destruct Hmins as (mins & Hl & Hpm). destruct Hmaxs as (maxs & Hg & HpM).
  assert (mins <> []) as Hmne.
  { intros ->. apply Forall2_nil_inv_r in Hl. by destruct ts. }
  assert (maxs <> []) as HMne.
  { intros ->. apply Forall2_nil_inv_r in Hg. by destruct ts. }
  destruct (py_min_nums _ Hmne) as (mn & Emn & Hmn).
  destruct (py_max_nums _ HMne) as (mx & Emx & Hmx).
  exists mn, mx, mins, maxs. split; [|done].
  unfold _TrajectoryCollectionPlotter.get_min_max_speed.
  unfold bind at 1. cbn. rewrite (bind_run _ _ _ _ _ E).
  unfold bind at 1. cbn. rewrite Hs.
  rewrite (bind_run _ _ _ _ _ (comprehension_run _ _ _ _ Hpm)).
  rewrite Emn. unfold bind at 1. cbn.
  rewrite (bind_run _ _ _ _ _ (comprehension_run _ _ _ _ HpM)).
  rewrite Emx. reflexivity.
Qed.

(** C1: let every member of the collection be a live trajectory, the first
    one [t0].  If the color-by-column is [t0]'s speed column and [t0]'s
    table lacks it, and every member goes by that speed column name and has
    a non-empty computed speed series, a freshly constructed collection
    styler returns [(mn, mx)] where [mn] is the least of the members' least
    speeds and [mx] the greatest of their greatest speeds, which are the
    least and the greatest of all computed speeds of all members.
    Otherwise it returns what the collection's [get_min] and [get_max]
    return for the column, passing their exceptions on. *)
Theorem C1_shared_scale :
  forall (C : Collaborators) (w : world (list nat)) (t0 : trajectory)
         (ts : list trajectory),
    Forall2 (fun r t => heap w !! r = Some t) (data (self w)) (t0 :: ts) ->
    (speed_is_missing (column (self w)) t0 = true ->
     _speeds (self w) = [] ->
     Forall (fun t => speed_column_name t = speed_column_name t0
                      /\ compute_speed t <> []) (t0 :: ts) ->
     exists mn mx mins maxs,
       fst (_TrajectoryCollectionPlotter.get_min_max_values w)
         = Ok (PNum mn, PNum mx)
       /\ Forall2 least (compute_speed <$> t0 :: ts) mins /\ least mins mn
       /\ Forall2 greatest (compute_speed <$> t0 :: ts) maxs
       /\ greatest maxs mx
       /\ least (List.concat (compute_speed <$> t0 :: ts)) mn
       /\ greatest (List.concat (compute_speed <$> t0 :: ts)) mx)
    /\ (speed_is_missing (column (self w)) t0 = false ->
        fst (_TrajectoryCollectionPlotter.get_min_max_values w)
        = match get_min (t0 :: ts) (column (self w)) with
          | inl e => Raise (Collaborator e)
          | inr mn =>
              match get_max (t0 :: ts) (column (self w)) with
              | inl e => Raise (Collaborator e)
              | inr mx => Ok (mn, mx)
              end
          end).
Proof.
  intros C w t0 ts Hv.
  assert (Hhead : exists r0 refs, data (self w) = r0 :: refs
                                  /\ heap w !! r0 = Some t0).
  { apply Forall2_cons_inv_r in Hv as (r0 & refs & Hr0 & _ & ->). eauto. }
  destruct Hhead as (r0 & refs & Hd & Hr0).
  unfold _TrajectoryCollectionPlotter.get_min_max_values.
  erewrite bind_run; [|reflexivity].
  erewrite bind_run; [|by rewrite Hd].
  erewrite bind_run; [|by apply deref_run].
  cbv zeta. erewrite bind_run; [|reflexivity].
  change (py_eq (column (self w)) (PStr (speed_column_name t0))
          && negb (in_columns (column (self w)) (df t0)))
    with (speed_is_missing (column (self w)) t0).
  split.
  - intros Hmiss Hs0 Hall. rewrite Hmiss.
    assert (Hcol : column (self w) = PStr (speed_column_name t0)).
    { unfold speed_is_missing in Hmiss. apply andb_prop in Hmiss as [He _].
      destruct (column (self w)); try discriminate.
      by apply String.eqb_eq in He as ->. }
    destruct (get_min_max_speed_run w (t0 :: ts) Hv) as
      (mn & mx & mins & maxs & E & Hl & Hmn & Hg & Hmx); [|done|done|].
    { eapply Forall_impl; [exact Hall|]. intros t [-> ?]. by rewrite Hcol. }
    exists mn, mx, mins, maxs. split_and!; try done.
    + destruct (_TrajectoryCollectionPlotter.get_min_max_speed w)
        as [o1 w1] eqn:E1. cbn in E. subst o1.
      rewrite (bind_run _ _ _ _ _ E1). reflexivity.
    + by eapply least_concat.
    + by eapply greatest_concat.
  - intros Hmiss. rewrite Hmiss.
    assert (Hm : mapM (fun r => heap w !! r) (data (self w)) = Some (t0 :: ts)).
    { by apply mapM_Some. }
    unfold bind at 1. unfold bind at 1. cbn. unfold bind at 1. rewrite Hm. cbn.
    unfold bind at 1.
    destruct (get_min (t0 :: ts) (column (self w))) as [e|mn]; cbn.
    { reflexivity. }
    unfold bind at 1.
    destruct (get_max (t0 :: ts) (column (self w))) as [e|mx]; cbn.
    { reflexivity. }
    reflexivity.
Qed.

Lemma C1_witness :
  exists mn mx,
    fst (@_TrajectoryCollectionPlotter.get_min_max_values sample_collaborators
           (sample_collection (<["column" := PStr "speed"]> ∅)))
    = Ok (PNum mn, PNum mx)
    /\ least [3; 1; 2; 7; 5; 6]%Z mn /\ greatest [3; 1; 2; 7; 5; 6]%Z mx.
Proof.
  destruct (C1_shared_scale sample_collaborators
              (sample_collection (<["column" := PStr "speed"]> ∅))
              (sample_traj [3; 1; 2]%Z [10; 20; 30]%Z)
              [sample_traj [7; 5; 6]%Z [40; 50; 60]%Z])
    as [Hspeed _].
  - repeat constructor.
  - destruct Hspeed as (mn & mx & _ & _ & E & _ & _ & _ & _ & Hl & Hg).
    + vm_compute. reflexivity.
    + vm_compute. reflexivity.
    + repeat constructor; discriminate.
    + exists mn, mx. split; [exact E|]. split; [exact Hl | exact Hg].
Defined.

Example C1_sample_run :
  fst (@_TrajectoryCollectionPlotter.get_min_max_values sample_collaborators
         (sample_collection (<["column" := PStr "speed"]> ∅)))
  = Ok (PNum 1, PNum 7).
Proof. vm_compute. reflexivity. Qed.

(** * Further properties *)

(** ** Construction: the two names of an option, and the defaults *)

(** X1: the color-by-column is read under two names: the styler's column
    is the caller's "c", else the caller's "column", else [None].  Likewise
    the color mapping is the caller's "column_to_color", else the caller's
    "colormap", else [None].  The two column names are only read: they stay
    in the bag with their values. *)
Theorem X1_init_alias_precedence :
  forall (D : Type) (d : D) (a : list pyval) (kw : gmap string pyval),
    column (__init__ d a kw)
    = default (default PNone (kw !! "column")) (kw !! "c")
    /\ colormap (__init__ d a kw)
       = default (default PNone (kw !! "colormap")) (kw !! "column_to_color")
    /\ kwargs (__init__ d a kw) !! "c" = kw !! "c"
    /\ kwargs (__init__ d a kw) !! "column" = kw !! "column".
Proof.
  intros. split_and!.
  - cbn. unfold dict_get. by rewrite !lookup_delete_ne.
  - cbn. by rewrite !lookup_delete_ne.
  - by rewrite init_kwargs_lookup.
  - by rewrite init_kwargs_lookup.
Qed.

(** X2: every other field of a new styler is the caller's option of that
    name, whatever was popped before it, or else the default the source
    gives: width 900, height 700, figsize [None], ax [None], vmin and vmax
    [None], geo [True], tiles "OSM", marker_size 200, marker_color [None],
    line_width 3.  The overlay starts as [None]; the data and the positional
    arguments are stored as given. *)
Theorem X2_init_defaults :
  forall (D : Type) (d : D) (a : list pyval) (kw : gmap string pyval),
    let s := __init__ d a kw in
    data s = d /\ args s = a
    /\ width s = default (PNum 900) (kw !! "width")
    /\ height s = default (PNum 700) (kw !! "height")
    /\ figsize s = default PNone (kw !! "figsize")
    /\ ax s = default PNone (kw !! "ax")
    /\ min_value s = default PNone (kw !! "vmin")
    /\ max_value s = default PNone (kw !! "vmax")
    /\ overlay s = None
    /\ hvplot_is_geo s = default (PBool true) (kw !! "geo")
    /\ hvplot_tiles s = default (PStr "OSM") (kw !! "tiles")
    /\ marker_size s = default (PNum 200) (kw !! "marker_size")
    /\ marker_color s = default PNone (kw !! "marker_color")
    /\ line_width s = default (PNum 3) (kw !! "line_width").
Proof.
  intros. subst s. cbn. unfold dict_get.
  split_and!; try reflexivity; by rewrite !lookup_delete_ne.
Qed.

(** ** The line table *)

(** X3: for a live, well-formed trajectory [_make_line_df] returns a table
    whose active geometry column is "geometry", holding what [_to_line_df]
    put under "line".  The columns "line" and "prev_pt" and the trajectory's
    point geometry column are gone, every other column is as [_to_line_df]
    made it, and a truthy crs of the trajectory is the crs of the table.
    The store grows by the private copy and nothing else changes. *)
Theorem X3_make_line_df_table :
  forall (C : Collaborators) (D : Type) (w : world D) (traj : nat)
         (t : trajectory),
    heap w !! traj = Some t ->
    well_formed t ->
    exists g,
      _make_line_df traj w
      = (Ok g,
         with_heap (fun h => h ++ [private_copy (column (self w)) t]) w)
      /\ geometry g = "geometry"
      /\ cols g !! "geometry"
         = cols (_to_line_df (private_copy (column (self w)) t)) !! "line"
      /\ cols g !! "line" = None
      /\ cols g !! "prev_pt" = None
      /\ (geom_column_name t <> "geometry" ->
          cols g !! geom_column_name t = None)
      /\ (forall c, c <> "geometry" -> c <> "line" -> c <> "prev_pt" ->
            c <> geom_column_name t ->
            cols g !! c
            = cols (_to_line_df (private_copy (column (self w)) t)) !! c)
      /\ (truthy (crs t) = true -> gdf_crs g = crs t).
Proof.
  intros C D w traj t Ht Hw.
  rewrite (make_line_df_run _ _ t) by done.
  set (tmp := private_copy (column (self w)) t).
  destruct (private_copy_names (column (self w)) t) as [Egeom Ecrs].
  fold tmp in Egeom, Ecrs.
  assert (Hw' : well_formed tmp) by (by apply well_formed_private_copy).
  destruct Hw' as [Hhas Hline]. rewrite Egeom in Hhas, Hline.
  unfold line_table, drop_labels. cbn [cols geometry gdf_crs _to_line_df].
  rewrite Egeom.
  set (f0 := <["line" := segments tmp]>
               (<["prev_pt" := prev_points tmp]> (along_segments <$> df tmp))).
  assert (Hg : has_column (geom_column_name t) f0 = true).
  { subst f0. unfold has_column in *. rewrite lookup_insert_ne by done.
    destruct (decide (geom_column_name t = "prev_pt")) as [->|Hp].
    - by rewrite lookup_insert_eq.
    - rewrite lookup_insert_ne by done. rewrite lookup_fmap.
      by destruct (df tmp !! geom_column_name t). }
  assert (Hp : has_column "prev_pt" f0 = true).
  { subst f0. unfold has_column. rewrite lookup_insert_ne by done.
    by rewrite lookup_insert_eq. }
  cbn [forallb foldr]. rewrite Hg, Hp. cbn [andb].
  set (f1 := delete (geom_column_name t) (delete "prev_pt" f0)).
  assert (Hl : f1 !! "line" = Some (segments tmp)).
  { subst f1 f0. rewrite !lookup_delete_ne by done. by rewrite lookup_insert_eq. }
  unfold rename. rewrite Hl.
  unfold set_geometry, has_column. cbn [cols]. rewrite lookup_insert_eq.
  set (f2 := <["geometry" := segments tmp]> (delete "line" f1)).
  exists (if truthy (crs t) then set_crs (crs t) (Gdf f2 "geometry" (crs tmp))
          else Gdf f2 "geometry" (crs tmp)).
  split; [done|].
  assert (Hcols : cols (if truthy (crs t)
                        then set_crs (crs t) (Gdf f2 "geometry" (crs tmp))
                        else Gdf f2 "geometry" (crs tmp)) = f2).
  { by destruct (truthy (crs t)). }
  rewrite Hcols. split_and!.
  - by destruct (truthy (crs t)).
  - subst f2. rewrite lookup_insert_eq. subst f1 f0.
    by rewrite lookup_insert_eq.
  - subst f2. rewrite lookup_insert_ne by done. by rewrite lookup_delete_eq.
  - subst f2 f1. rewrite lookup_insert_ne, lookup_delete_ne by done.
    destruct (decide (geom_column_name t = "prev_pt")) as [->|Hne].
    + by rewrite lookup_delete_eq.
    + rewrite lookup_delete_ne by done. by rewrite lookup_delete_eq.
  - intros Hne. subst f2 f1. rewrite lookup_insert_ne by done.
    rewrite lookup_delete_ne by done. by rewrite lookup_delete_eq.
  - intros c H1 H2 H3 H4. subst f2 f1.
    rewrite lookup_insert_ne by done.
    by rewrite !lookup_delete_ne.
  - intros Hc. by rewrite Hc.
Qed.

Lemma X3_witness :
  exists g,
    fst (@_make_line_df nat sample_collaborators 0 (sample_single ∅)) = Ok g
    /\ geometry g = "geometry" /\ cols g !! "prev_pt" = None.
Proof.
  destruct (X3_make_line_df_table sample_collaborators nat (sample_single ∅) 0
              (sample_traj [3; 1; 2]%Z [10; 20; 30]%Z) eq_refl)
    as (g & E & Hg & _ & _ & Hp & _).
  - split; [reflexivity | discriminate].
  - exists g. rewrite E. by split_and!.
Defined.

(** ** The end point on every outcome *)

Lemma negate_nums (l : list Z) :
  mapM py_negate (PNum <$> l) = Some (PNum <$> (Z.opp <$> l)).
Proof.
  induction l as [|x l IH]; [done|]. cbn. cbn in IH. by rewrite IH.
Qed.

Lemma last_cells_nums (l : list Z) :
  last_cells (PNum <$> l) = PNum <$> drop (List.length l - 1) l.
Proof. unfold last_cells. by rewrite length_fmap, fmap_drop. Qed.

Lemma end_with_direction_run `{Collaborators} {D} (w : world D) traj t :
  heap w !! traj = Some t ->
  _get_trajectory_end_with_direction traj w = (end_table t, w).
Proof.
  destruct w as [h n es f1 f2 f3 st]. intros Ht. cbn in Ht.
  unfold _get_trajectory_end_with_direction, end_table, end_angle,
    direction_series, with_direction, has_column.
  run. rewrite Ht. run.
  destruct (df t !! direction_column_name t) as [s|] eqn:Edir; run.
  - rewrite Ht. run. unfold last_row at 1. rewrite lookup_fmap, Edir. run.
    fold (last_cells s).
    destruct (mapM py_negate (last_cells s)); run; done.
  - rewrite Ht. run.
    assert (Hlt : traj < List.length h) by (eapply lookup_lt_Some; eauto).
    rewrite list_lookup_insert_eq by done. run.
    unfold last_row at 1. rewrite lookup_fmap, lookup_insert_eq. run.
    fold (last_cells (PNum <$> compute_direction t)).
    rewrite last_cells_nums, negate_nums. run.
    rewrite list_lookup_insert_eq by done. run.
    unfold drop_labels, has_column. run. rewrite lookup_insert_eq. run.
    rewrite delete_insert_id by done.
    rewrite list_insert_insert_eq.
    rewrite (set_df_const t).
    rewrite list_insert_id by done.
    reflexivity.
Qed.

Lemma end_with_direction_dangling `{Collaborators} {D} (w : world D) traj :
  heap w !! traj = None ->
  _get_trajectory_end_with_direction traj w = (Raise (Builtin ReferenceError), w).
Proof.
  intros E. unfold _get_trajectory_end_with_direction. run. by rewrite E.
Qed.

Lemma last_cells_length s : List.length (last_cells s) <= 1.
Proof. unfold last_cells. rewrite length_drop. lia. Qed.

Lemma last_cells_snoc (cells : list pyval) (v : pyval) :
  last_cells (cells ++ [v]) = [v].
Proof.
  unfold last_cells. rewrite length_app. cbn.
  replace (List.length cells + 1 - 1) with (List.length cells + 0) by lia.
  by rewrite drop_app_add.
Qed.

(** X4: [_get_trajectory_end_with_direction] leaves the whole state as it
    was on every outcome, also when it raises: a direction column it had to
    add is dropped again.  For a live trajectory without a direction column
    of its own it always returns, and "triangle_angle" is the last cell of
    the direction series it computed, negated (no cell for a table without
    rows).  A last direction cell that is missing ([None] or not-a-number)
    is no error either: the angle is then not-a-number.  Whenever it
    returns, "triangle_angle" has at most one cell. *)
Theorem X4_end_point_restores_state :
  forall (C : Collaborators) (D : Type) (w : world D) (traj : nat),
    snd (_get_trajectory_end_with_direction traj w) = w
    /\ (forall t, heap w !! traj = Some t ->
          (has_column (direction_column_name t) (df t) = false ->
           exists g,
             fst (_get_trajectory_end_with_direction traj w) = Ok g
             /\ cols g !! "triangle_angle"
                = Some ((fun d => PNum (- d))
                          <$> drop (List.length (compute_direction t) - 1)
                                (compute_direction t)))
          /\ (forall cells v,
                direction_series t = cells ++ [v] ->
                v = PNone \/ v = PNaN ->
                exists g,
                  fst (_get_trajectory_end_with_direction traj w) = Ok g
                  /\ cols g !! "triangle_angle" = Some [PNaN])
          /\ (forall g,
                fst (_get_trajectory_end_with_direction traj w) = Ok g ->
                exists angle,
                  cols g !! "triangle_angle" = Some angle
                  /\ List.length angle <= 1)).
Proof.
  intros C D w traj. destruct (heap w !! traj) as [t|] eqn:Ht.
  2:{ rewrite (end_with_direction_dangling _ _ Ht). split; [done|]. done. }
  rewrite (end_with_direction_run _ _ _ Ht). split; [done|].
  intros t' [= <-]. unfold end_table, end_angle. split_and!.
  - intros Hno. unfold has_column, direction_series in *.
    destruct (df t !! direction_column_name t); [done|].
    unfold default. rewrite last_cells_nums, negate_nums.
    eexists. split; [reflexivity|]. cbn. rewrite lookup_insert_eq.
    by rewrite <- list_fmap_compose.
  - intros cells v Hs Hv. rewrite Hs, last_cells_snoc.
    assert (mapM py_negate [v] = Some [PNaN]) as ->
      by (by destruct Hv as [-> | ->]).
    eexists. split; [reflexivity|]. cbn. by rewrite lookup_insert_eq.
  - intros g.
    destruct (mapM py_negate (last_cells (direction_series t)))
      as [angle|] eqn:Ea; [|done].
    intros [= <-]. exists angle. cbn. rewrite lookup_insert_eq.
    split; [done|]. apply length_mapM in Ea. rewrite <- Ea.
    apply last_cells_length.
Qed.

(** A direction column of the trajectory's own that ends in a missing
    cell: the end point comes with a not-a-number angle. *)
Example end_point_of_a_missing_direction :
  (fun g => cols g !! "triangle_angle")
    <$> (match
           fst (@_get_trajectory_end_with_direction nat sample_collaborators 0
                  (fresh_world
                     [set_df (<["direction" := [PNum 10; PNum 20; PNone]]>)
                        (sample_traj [3; 1; 2]%Z [10; 20; 30]%Z)]
                     true true true (__init__ 0 [] ∅)))
         with Ok g => Some g | Raise _ => None end)
  = Some (Some [PNaN]).
Proof. vm_compute. reflexivity. Qed.

(** ** The renders as equations *)

(** For a live trajectory every method of the styler comes to an explicit
    outcome and state.  The equations below say which; the properties that
    follow are read off them. *)

Lemma bind_raise {D A B} (m : M D A) (k : A -> M D B) w e w1 :
  m w = (Raise e, w1) -> bind m k w = (Raise e, w1).
Proof. intros E. unfold bind. by rewrite E. Qed.

Lemma call_run {D} (w : world D) s g ws :
  call s g ws w
  = match bind_keywords ws (kwargs (self w)) with
    | Some kws =>
        (Ok (RenderCall s g (args (self w)) kws),
         with_event (Render (RenderCall s g (args (self w)) kws)) w)
    | None => (Raise (Builtin TypeError), w)
    end.
Proof. unfold call. run. by destruct (bind_keywords ws (kwargs (self w))). Qed.

Lemma gdf_hvplot_run {D} (w : world D) s g ws :
  gdf_hvplot s g ws w
  = match bind_keywords ws (kwargs (self w)) with
    | Some kws =>
        (Ok (Drawn (RenderCall s g (args (self w)) kws)),
         with_event (Render (RenderCall s g (args (self w)) kws)) w)
    | None => (Raise (Builtin TypeError), w)
    end.
Proof.
  unfold gdf_hvplot, bind. rewrite call_run.
  by destruct (bind_keywords ws (kwargs (self w))).
Qed.

Lemma set_kwargs_twice {D} (K K' : gmap string pyval) (s : styler D) :
  set_kwargs K (set_kwargs K' s) = set_kwargs K s.
Proof. reflexivity. Qed.

Lemma hover_ok_false (v : option pyval) :
  hover_ok v = false ->
  truthy (default PNone v) = true
  /\ py_add (PList [PStr "triangle_angle"]) (default PNone v) = None.
Proof.
  intros Hok. destruct v as [x|]; [|done]. cbn [default].
  assert (truthy x = true) as Ht.
  { destruct x; try done; by apply negb_false_iff in Hok. }
  split; [done|]. by destruct x.
Qed.

(** The option bookkeeping at the head of [_hvplot_end_triangle]: it
    raises on hover columns that are no list, and otherwise hands the bag
    [end_bag] to the rest of the method. *)
Lemma end_triangle_options `{Collaborators} {D} (w : world D) traj :
  _hvplot_end_triangle traj w
  = if hover_ok (kwargs (self w) !! "hover_cols") then
      (end_pt_df <- _get_trajectory_end_with_direction traj;;
       geo <- gets (fun w => hvplot_is_geo (self w));;
       t <- deref traj;;
       let end_pt_df :=
         if truthy geo && negb (is_latlon t) && negb (is_none (crs t))
         then to_crs 4326 end_pt_df else end_pt_df in
       size <- gets (fun w => marker_size (self w));;
       gdf_hvplot EndTriangleHvplot end_pt_df
         [("geo", geo); ("tiles", PNone); ("marker", PStr "triangle");
          ("angle", PDim "triangle_angle"); ("size", size)])
        (with_self (set_kwargs (end_bag (self w))) w)
    else (Raise (Builtin TypeError),
          with_self
            (set_kwargs (<["hover_cols" := PList [PStr "triangle_angle"]]>
                           (delete "tiles" (kwargs (self w))))) w).
Proof.
  destruct w as [h n es f1 f2 f3 st]. cbn [heap self] in *.
  unfold _hvplot_end_triangle.
  erewrite bind_run; [|reflexivity].
  erewrite bind_run; [|reflexivity].
  erewrite bind_run; [|reflexivity].
  cbn -[bind bind_keywords end_bag end_written hover_after].
  unfold with_self at 1 2 3.
  cbn -[bind bind_keywords end_bag end_written hover_after].
  rewrite (lookup_delete_ne (kwargs st) "tiles" "hover_cols") by done.
  set (hv := kwargs st !! "hover_cols").
  set (B0 := <["hover_cols" := PList [PStr "triangle_angle"]]>
               (delete "tiles" (kwargs st))).
  assert (EB0 : <["hover_cols" := PList [PStr "triangle_angle"]]>
                  (delete "hover_cols" (delete "tiles" (kwargs st))) = B0).
  { subst B0. by rewrite insert_delete_eq. }
  rewrite EB0, !set_kwargs_twice. clear EB0.
  destruct (hover_ok hv) eqn:Hok.
  2:{ destruct (hover_ok_false _ Hok) as [Htr Hadd]. rewrite Htr.
      erewrite bind_raise; [reflexivity|].
      rewrite hover_append_run. cbn. subst B0. rewrite lookup_insert_eq.
      by rewrite Hadd. }
  set (l1 := PStr "triangle_angle" :: hover_list hv).
  set (B1 := <["hover_cols" := PList l1]> (delete "tiles" (kwargs st))).
  erewrite (bind_run _ _ _ tt (World h n es f1 f2 f3 (set_kwargs B1 st))).
  2:{ subst B1 l1. destruct hv as [x|]; cbn [hover_list].
      - change (default PNone (Some x)) with x.
        destruct (truthy x) eqn:Htr.
        + destruct x;
            try (cbn in Hok, Htr; rewrite ?Htr in Hok; cbn in Hok; congruence).
          cbv iota. rewrite hover_append_run. cbn. subst B0.
          rewrite lookup_insert_eq.
          cbn. unfold with_self. cbn. by rewrite insert_insert_eq.
        + subst B0. by destruct x as [| | | | | | |[]|].
      - reflexivity. }
  erewrite bind_run; [|reflexivity]. cbn [self marker_color set_kwargs].
  set (B2 := if truthy (marker_color st)
             then <["color" := marker_color st]> B1 else B1).
  erewrite (bind_run _ _ _ tt (World h n es f1 f2 f3 (set_kwargs B2 st))).
  2:{ subst B2. by destruct (truthy (marker_color st)). }
  erewrite bind_run; [|reflexivity]. cbn [self column set_kwargs].
  assert (HB2 : B2 !! "hover_cols" = Some (PList l1)).
  { subst B2 B1. destruct (truthy (marker_color st)).
    - rewrite lookup_insert_ne by done. by rewrite lookup_insert_eq.
    - by rewrite lookup_insert_eq. }
  erewrite (bind_run _ _ _ tt (World h n es f1 f2 f3 (set_kwargs (end_bag st) st))).
  2:{ destruct (truthy (column st)) eqn:Hc.
      - cbv iota. rewrite hover_append_run. cbn [self kwargs set_kwargs]. rewrite HB2.
        cbn [py_add]. unfold with_self. cbn. rewrite set_kwargs_twice.
        do 3 f_equal.
        unfold end_bag, hover_after. rewrite Hc. subst B2 B1 l1. cbn.
        destruct (truthy (marker_color st)).
        + rewrite (insert_insert_ne _ "hover_cols" "color") by done.
          by rewrite insert_insert_eq.
        + by rewrite insert_insert_eq.
      - cbn. do 3 f_equal. unfold end_bag, hover_after. rewrite Hc.
        subst B2 B1 l1. cbn. by rewrite app_nil_r. }
  reflexivity.
Qed.

Lemma end_triangle_run `{Collaborators} {D} (w : world D) traj t :
  heap w !! traj = Some t ->
  _hvplot_end_triangle traj w
  = if hover_ok (kwargs (self w) !! "hover_cols") then
      match end_table t with
      | Raise e => (Raise e, with_self (set_kwargs (end_bag (self w))) w)
      | Ok g =>
          match bind_keywords (end_written (self w)) (end_bag (self w)) with
          | None => (Raise (Builtin TypeError),
                     with_self (set_kwargs (end_bag (self w))) w)
          | Some kws =>
              let c := RenderCall EndTriangleHvplot
                         (reproject (hvplot_is_geo (self w)) t g)
                         (args (self w)) kws in
              (Ok (Drawn c),
               with_event (Render c)
                 (with_self (set_kwargs (end_bag (self w))) w))
          end
      end
    else (Raise (Builtin TypeError),
          with_self
            (set_kwargs (<["hover_cols" := PList [PStr "triangle_angle"]]>
                           (delete "tiles" (kwargs (self w))))) w).
Proof.
  intros Ht. rewrite end_triangle_options.
  destruct (hover_ok _); [|done].
  set (w1 := with_self (set_kwargs (end_bag (self w))) w).
  assert (Ht1 : heap w1 !! traj = Some t) by done.
  destruct (end_table t) as [g|e] eqn:Eend.
  2:{ erewrite bind_raise; [reflexivity|].
      rewrite (end_with_direction_run _ _ t) by done. by rewrite Eend. }
  erewrite bind_run;
    [|rewrite (end_with_direction_run _ _ t) by done; by rewrite Eend].
  erewrite bind_run; [|reflexivity].
  erewrite bind_run; [|by apply deref_run].
  erewrite bind_run; [|reflexivity].
  rewrite gdf_hvplot_run. reflexivity.
Qed.

Lemma end_triangle_dangling `{Collaborators} {D} (w : world D) traj :
  heap w !! traj = None ->
  exists e w',
    _hvplot_end_triangle traj w = (Raise e, w')
    /\ events w' = events w /\ heap w' = heap w
    /\ self w' = set_kwargs (kwargs (self w')) (self w).
Proof.
  intros Ht. rewrite end_triangle_options.
  destruct (hover_ok _); [|by eexists _, _].
  eexists _, _. split.
  - erewrite bind_raise; [reflexivity|].
    by apply end_with_direction_dangling.
  - done.
Qed.

Lemma column_max_run `{Collaborators} {D} (w : world D) traj t :
  heap w !! traj = Some t ->
  column_max traj w = (column_max_of t (column (self w)), w).
Proof.
  intros Ht. unfold column_max, column_max_of.
  erewrite bind_run; [|by apply deref_run].
  erewrite bind_run; [|reflexivity].
  by destruct (frame_getitem (df t) (column (self w))).
Qed.

Lemma set_kwargs_same {D} (st : styler D) : set_kwargs (kwargs st) st = st.
Proof. by destruct st. Qed.

Lemma hvplot_trajectory_run `{Collaborators} {D} (w : world D) traj t :
  heap w !! traj = Some t ->
  _hvplot_trajectory traj w
  = let st := self w in
    let w1 := with_heap (fun h => h ++ [private_copy (column st) t]) w in
    match line_table (private_copy (column st) t) (crs t) with
    | Raise e => (Raise e, w1)
    | Ok g =>
        match line_written st t with
        | Raise e => (Raise e, w1)
        | Ok ws =>
            let w2 := with_self (set_kwargs (line_bag st)) w1 in
            match bind_keywords ws (line_bag st) with
            | None => (Raise (Builtin TypeError), w2)
            | Some kws =>
                let line := RenderCall LineHvplot
                              (reproject (hvplot_is_geo st) t g) (args st) kws in
                match _hvplot_end_triangle traj (with_event (Render line) w2) with
                | (Ok ep, w4) => (Ok (Over (Drawn line) ep), w4)
                | (Raise e, w4) => (Raise e, w4)
                end
            end
        end
    end.
Proof.
  intros Ht. cbv zeta. unfold _hvplot_trajectory.
  assert (Hlt : traj < List.length (heap w)) by (eapply lookup_lt_Some; eauto).
  destruct (line_table (private_copy (column (self w)) t) (crs t)) as [g|e] eqn:El.
  2:{ erewrite bind_raise; [reflexivity|].
      rewrite (make_line_df_run _ _ t) by done. by rewrite El. }
  erewrite bind_run; [|rewrite (make_line_df_run _ _ t) by done; by rewrite El].
  set (w1 := with_heap (fun h => h ++ [private_copy (column (self w)) t]) w).
  assert (Ht1 : heap w1 !! traj = Some t).
  { subst w1. cbn. by rewrite lookup_app_l. }
  assert (Hs1 : self w1 = self w) by reflexivity.
  erewrite bind_run; [|reflexivity].
  erewrite bind_run; [|by apply deref_run].
  erewrite bind_run; [|reflexivity].
  erewrite bind_run; [|reflexivity].
  erewrite bind_run; [|reflexivity].
  erewrite bind_run; [|reflexivity].
  rewrite Hs1. fold (reproject (hvplot_is_geo (self w)) t g).
  unfold line_written, line_bag.
  change (truthy (column (self w)) && truthy (colormap (self w)))
    with (fixed_color (self w)).
  destruct (fixed_color (self w)) eqn:Hf.
  - (* the fixed color *)
    assert (Ec : resolve_color traj w1
                 = (color_outcome (Some t) (colormap (self w)) (column (self w)), w1)).
    { rewrite resolve_color_run. by rewrite Ht1, Hs1. }
    destruct (color_outcome (Some t) (colormap (self w)) (column (self w)))
      as [col|e] eqn:Ecol.
    2:{ erewrite bind_raise; [reflexivity|]. by erewrite bind_raise. }
    assert (Em : column_max traj w1 = (column_max_of t (column (self w)), w1)).
    { by rewrite (column_max_run _ _ t). }
    destruct (column_max_of t (column (self w))) as [label|e] eqn:Elab.
    2:{ erewrite bind_raise; [reflexivity|].
        erewrite bind_run; [|exact Ec]. by erewrite bind_raise. }
    assert (Ew2 : with_self (set_kwargs (kwargs (self w))) w1 = w1).
    { unfold with_self. rewrite Hs1, set_kwargs_same. by destruct w. }
    rewrite Ew2.
    destruct (bind_keywords _ (kwargs (self w))) as [kws|] eqn:Ekw.
    + erewrite bind_run.
      2:{ erewrite bind_run; [|exact Ec]. erewrite bind_run; [|exact Em].
          rewrite gdf_hvplot_run, Hs1, Ekw. reflexivity. }
      unfold bind.
      destruct (_hvplot_end_triangle traj _) as [[ep|e] w4]; reflexivity.
    + erewrite bind_raise; [reflexivity|].
      erewrite bind_run; [|exact Ec]. erewrite bind_run; [|exact Em].
      rewrite gdf_hvplot_run, Hs1, Ekw. reflexivity.
  - (* the color scale *)
    set (K := if bool_decide (is_Some (kwargs (self w) !! "colorbar"))
              then kwargs (self w) else <["colorbar" := PBool true]> (kwargs (self w))).
    assert (Eb : (if negb (bool_decide (is_Some (kwargs (self w) !! "colorbar")))
                  then kwargs_set "colorbar" (PBool true) else ret tt) w1
                 = (Ok tt, with_self (set_kwargs K) w1)).
    { subst K. destruct (bool_decide _); cbn.
      - unfold ret, with_self. rewrite Hs1, set_kwargs_same. by destruct w.
      - reflexivity. }
    destruct (bind_keywords _ K) as [kws|] eqn:Ekw.
    + erewrite bind_run.
      2:{ erewrite bind_run; [|reflexivity]. rewrite Hs1.
          erewrite bind_run; [|exact Eb].
          rewrite gdf_hvplot_run. cbn [self with_self kwargs set_kwargs].
          rewrite Ekw. reflexivity. }
      unfold bind.
      destruct (_hvplot_end_triangle traj _) as [[ep|e] w4]; reflexivity.
    + erewrite bind_raise; [reflexivity|].
      erewrite bind_run; [|reflexivity]. rewrite Hs1.
      erewrite bind_run; [|exact Eb].
      rewrite gdf_hvplot_run. cbn [self with_self kwargs set_kwargs].
      rewrite Ekw. reflexivity.
Qed.

Lemma bind_keywords_head k v ws (bag kws : gmap string pyval) :
  bind_keywords ((k, v) :: ws) bag = Some kws -> kws !! k = Some v.
Proof.
  cbn. destruct (bag !! k); [done|].
  destruct (bind_keywords ws bag); cbn; [|done].
  intros [= <-]. by rewrite lookup_insert_eq.
Qed.

Lemma gdf_plot_run {D} (w : world D) g a ws :
  gdf_plot g (("ax", a) :: ws) w
  = match bind_keywords (("ax", a) :: ws) (kwargs (self w)) with
    | Some kws =>
        let c := RenderCall LinePlot g (args (self w)) kws in
        if is_none a
        then (Ok (PObj (next_obj w)),
              with_next_obj (S (next_obj w)) (with_event (Render c) w))
        else (Ok a, with_event (Render c) w)
    | None => (Raise (Builtin TypeError), w)
    end.
Proof.
  unfold gdf_plot. unfold bind at 1. rewrite call_run.
  destruct (bind_keywords _ _) as [kws|] eqn:Ekw; [|done].
  cbn [keywords]. rewrite (bind_keywords_head _ _ _ _ _ Ekw).
  by destruct (is_none a).
Qed.

Lemma plot_trajectory_run `{Collaborators} {D} (w : world D) traj t :
  heap w !! traj = Some t ->
  _plot_trajectory traj w
  = let st := self w in
    let w1 := with_heap (fun h => h ++ [private_copy (column st) t]) w in
    match line_table (private_copy (column st) t) (crs t) with
    | Raise e => (Raise e, w1)
    | Ok g =>
        match static_written st t with
        | Raise e => (Raise e, w1)
        | Ok ws =>
            let w2 := with_self (set_kwargs (static_bag st)) w1 in
            match bind_keywords ws (static_bag st) with
            | None => (Raise (Builtin TypeError), w2)
            | Some kws =>
                let c := RenderCall LinePlot g (args st) kws in
                if is_none (ax st)
                then (Ok (PObj (next_obj w)),
                      with_next_obj (S (next_obj w)) (with_event (Render c) w2))
                else (Ok (ax st), with_event (Render c) w2)
            end
        end
    end.
Proof.
  intros Ht. cbv zeta. unfold _plot_trajectory.
  assert (Hlt : traj < List.length (heap w)) by (eapply lookup_lt_Some; eauto).
  destruct (line_table (private_copy (column (self w)) t) (crs t)) as [g|e] eqn:El.
  2:{ erewrite bind_raise; [reflexivity|].
      rewrite (make_line_df_run _ _ t) by done. by rewrite El. }
  erewrite bind_run; [|rewrite (make_line_df_run _ _ t) by done; by rewrite El].
  set (w1 := with_heap (fun h => h ++ [private_copy (column (self w)) t]) w).
  assert (Ht1 : heap w1 !! traj = Some t).
  { subst w1. cbn. by rewrite lookup_app_l. }
  assert (Hs1 : self w1 = self w) by reflexivity.
  erewrite bind_run; [|reflexivity].
  erewrite bind_run; [|reflexivity].
  rewrite Hs1. unfold static_written, static_bag.
  change (truthy (column (self w)) && truthy (colormap (self w)))
    with (fixed_color (self w)).
  destruct (fixed_color (self w)) eqn:Hf.
  - assert (Ec : resolve_color traj w1
                 = (color_outcome (Some t) (colormap (self w)) (column (self w)), w1)).
    { rewrite resolve_color_run. by rewrite Ht1, Hs1. }
    destruct (color_outcome (Some t) (colormap (self w)) (column (self w)))
      as [col|e] eqn:Ecol.
    2:{ by erewrite bind_raise. }
    erewrite bind_run; [|exact Ec].
    erewrite bind_run; [|reflexivity]. rewrite Hs1.
    assert (Ew2 : with_self (set_kwargs (kwargs (self w))) w1 = w1).
    { unfold with_self. rewrite Hs1, set_kwargs_same. by destruct w. }
    rewrite Ew2, gdf_plot_run, Hs1. reflexivity.
  - erewrite bind_run; [|reflexivity].
    erewrite bind_run; [|reflexivity].
    erewrite bind_run; [|reflexivity].
    erewrite bind_run; [|reflexivity].
    erewrite bind_run; [|reflexivity].
    rewrite gdf_plot_run. reflexivity.
Qed.

(** ** The static entry point *)

Lemma ensure_axis_run {D} (w : world D) :
  (a <- gets (fun w => ax (self w));;
   if negb (truthy a) then
     size <- gets (fun w => figsize (self w));;
     a <- new_subplot size;;
     modify (with_self (set_ax a))
   else ret tt) w
  = (Ok tt, with_axis w).
Proof.
  erewrite bind_run; [|reflexivity]. unfold with_axis.
  destruct (truthy (ax (self w))); reflexivity.
Qed.

Lemma plot_run `{Collaborators} (w : world nat) :
  plot w
  = match _plot_trajectory (data (self w)) (with_axis w) with
    | (Ok a, w3) =>
        (Ok a, with_self (fun s => set_kwargs (after_plot (kwargs s)) s) w3)
    | (Raise e, w3) => (Raise e, w3)
    end.
Proof.
  unfold plot.
  pose proof (ensure_axis_run w) as E. unfold bind at 1 in E.
  unfold bind at 1. unfold bind at 1.
  destruct (gets _ w) as [[a|e] w0] eqn:Eg; [|discriminate Eg].
  injection Eg as <- <-.
  cbn beta iota in E |- *. rewrite E. clear E.
  erewrite bind_run; [|reflexivity].
  assert (Hd : data (self (with_axis w)) = data (self w)).
  { unfold with_axis. by destruct (truthy (ax (self w))). }
  rewrite Hd. unfold bind at 1.
  destruct (_plot_trajectory (data (self w)) (with_axis w)) as [[a|e] w3]; [|done].
  reflexivity.
Qed.

Lemma plot_trajectory_dangling `{Collaborators} {D} (w : world D) traj :
  heap w !! traj = None ->
  _plot_trajectory traj w = (Raise (Builtin ReferenceError), w).
Proof.
  intros E. unfold _plot_trajectory.
  erewrite bind_raise; [reflexivity|]. by apply make_line_df_dangling.
Qed.

(** What [_plot_trajectory] does to the bag. *)
Lemma plot_trajectory_bag `{Collaborators} {D} (w : world D) traj o w' :
  _plot_trajectory traj w = (o, w') ->
  match o with
  | Ok _ => kwargs (self w') = static_bag (self w)
  | Raise _ => kwargs (self w') = kwargs (self w)
               \/ kwargs (self w') = static_bag (self w)
  end.
Proof.
  destruct (heap w !! traj) as [t|] eqn:Ht.
  2:{ rewrite plot_trajectory_dangling by done. intros [= <- <-]. by left. }
  rewrite (plot_trajectory_run _ _ t) by done. cbv zeta.
  destruct (line_table _ _); [|intros [= <- <-]; by left].
  destruct (static_written _ _); [|intros [= <- <-]; by left].
  destruct (bind_keywords _ _); [|intros [= <- <-]; by right].
  destruct (is_none _); intros [= <- <-]; reflexivity.
Qed.

Lemma with_axis_self {D} (w : world D) :
  self (with_axis w)
  = (if truthy (ax (self w)) then self w
     else set_ax (PObj (next_obj w)) (self w))
  /\ events (with_axis w)
     = events w ++ (if truthy (ax (self w)) then []
                    else [Figure (figsize (self w))])
  /\ heap (with_axis w) = heap w.
Proof.
  unfold with_axis. destruct (truthy (ax (self w))); cbn; [|done].
  by rewrite app_nil_r.
Qed.

(** X5: [plot] creates a figure only when the styler has no axis: then
    exactly one, with the styler's figsize, before the render.  It issues at
    most one renderer call, a line plot whose "ax" is the styler's axis or
    else the new subplot; when [plot] returns, it has issued exactly one. *)
Theorem X5_plot_makes_at_most_one_figure :
  forall (C : Collaborators) (w : world nat),
    exists figs calls,
      events (snd (plot w)) = events w ++ figs ++ (Render <$> calls)
      /\ figs = (if truthy (ax (self w)) then []
                 else [Figure (figsize (self w))])
      /\ List.length calls <= 1
      /\ Forall (fun c =>
                   site c = LinePlot
                   /\ keywords c !! "ax"
                      = Some (if truthy (ax (self w)) then ax (self w)
                              else PObj (next_obj w))) calls
      /\ (forall a, fst (plot w) = Ok a -> List.length calls = 1).
Proof.
  intros C w. rewrite plot_run.
  destruct (with_axis_self w) as (Hs & He & _).
  destruct (_plot_trajectory (data (self w)) (with_axis w)) as [o w3] eqn:E.
  apply plot_trajectory_spec in E
    as (_ & _ & _ & [(e & -> & Hev)|(c & -> & Hev & Hsite & Hax & _)] & _).
  - eexists _, []. cbn. rewrite Hev, He, app_nil_r.
    split_and!; try done. lia.
  - eexists _, [c]. cbn. rewrite Hev, He, <- app_assoc.
    split_and!; try done.
    constructor; [|constructor]. split; [done|]. rewrite Hax, Hs.
    by destruct (truthy (ax (self w))).
Qed.

Lemma fixed_color_with_axis {D} (w : world D) :
  fixed_color (self (with_axis w)) = fixed_color (self w)
  /\ kwargs (self (with_axis w)) = kwargs (self w)
  /\ column (self (with_axis w)) = column (self w)
  /\ colormap (self (with_axis w)) = colormap (self w)
  /\ min_value (self (with_axis w)) = min_value (self w)
  /\ max_value (self (with_axis w)) = max_value (self w)
  /\ data (self (with_axis w)) = data (self w).
Proof. unfold with_axis. by destruct (truthy (ax (self w))). Qed.

(** X6: what [plot] does to the bag.  When it returns, "legend" is [False]
    and "column" is gone, and outside the fixed-color branch "vmin" and
    "vmax" are gone too.  When it raises, "legend" and "column" are as they
    were.  Inside the fixed-color branch "vmin" and "vmax" stay.  Every
    other option is untouched, and so is the styler's own column field. *)
Theorem X6_plot_updates_the_bag :
  forall (C : Collaborators) (w : world nat),
    (forall k, k ∉ ["legend"; "column"; "vmin"; "vmax"] ->
       kwargs (self (snd (plot w))) !! k = kwargs (self w) !! k)
    /\ (forall a, fst (plot w) = Ok a ->
          kwargs (self (snd (plot w))) !! "legend" = Some (PBool false)
          /\ kwargs (self (snd (plot w))) !! "column" = None
          /\ (fixed_color (self w) = false ->
              kwargs (self (snd (plot w))) !! "vmin" = None
              /\ kwargs (self (snd (plot w))) !! "vmax" = None))
    /\ (forall e, fst (plot w) = Raise e ->
          kwargs (self (snd (plot w))) !! "legend" = kwargs (self w) !! "legend"
          /\ kwargs (self (snd (plot w))) !! "column"
             = kwargs (self w) !! "column")
    /\ (fixed_color (self w) = true ->
          kwargs (self (snd (plot w))) !! "vmin" = kwargs (self w) !! "vmin"
          /\ kwargs (self (snd (plot w))) !! "vmax" = kwargs (self w) !! "vmax")
    /\ column (self (snd (plot w))) = column (self w).
Proof.
  intros C w. rewrite plot_run.
  destruct (fixed_color_with_axis w) as (Hf & Hk & Hc & _).
  destruct (_plot_trajectory (data (self w)) (with_axis w)) as [o w3] eqn:E.
  pose proof (plot_trajectory_bag _ _ _ _ E) as Hbag.
  apply plot_trajectory_spec in E as (Hs & _ & Hother & _ & _).
  rewrite Hk in Hother. unfold static_bag in Hbag. rewrite Hf, Hk in Hbag.
  assert (Hcol : column (self w3) = column (self w)).
  { rewrite Hs. cbn. exact Hc. }
  destruct o as [a|e]; cbn [fst snd self with_self kwargs set_kwargs column].
  - unfold after_plot. split_and!.
    + intros k Hk'. rewrite lookup_delete_ne, lookup_insert_ne.
      * apply Hother; intros ->; apply Hk'; pick.
      * intros <-. apply Hk'. pick.
      * intros <-. apply Hk'. pick.
    + intros _ _. split_and!.
      * rewrite lookup_delete_ne by done. by rewrite lookup_insert_eq.
      * by rewrite lookup_delete_eq.
      * intros Hff. rewrite Hff in Hbag. rewrite Hbag.
        rewrite !lookup_delete_ne, !lookup_insert_ne by done.
        rewrite lookup_delete_eq. rewrite lookup_delete_ne by done.
        by rewrite lookup_delete_eq.
    + intros e [=].
    + intros Hff. rewrite Hff in Hbag. rewrite Hbag.
      by rewrite !lookup_delete_ne, !lookup_insert_ne.
    + done.
  - split_and!.
    + intros k Hk'. apply Hother; intros ->; apply Hk'; pick.
    + intros a [=].
    + intros _ _. split; by apply Hother.
    + intros Hff. rewrite Hff in Hbag. destruct Hbag as [-> | ->]; done.
    + done.
Qed.

(** X7: a second [plot] on the same styler, after one that returned,
    creates no figure: its renderer call, if it comes to one, draws on the
    axis of the first call, with "legend" set to [False] and without a
    "column" keyword. *)
Theorem X7_second_plot_reuses_axis_without_legend :
  forall (C : Collaborators) (w : world nat) (a : pyval),
    fst (plot w) = Ok a ->
    exists new,
      events (snd (plot (snd (plot w))))
      = events (snd (plot w)) ++ (Render <$> new)
      /\ List.length new <= 1
      /\ Forall (fun c =>
                   keywords c !! "legend" = Some (PBool false)
                   /\ keywords c !! "column" = None
                   /\ keywords c !! "ax"
                      = Some (if truthy (ax (self w)) then ax (self w)
                              else PObj (next_obj w))) new.
Proof.
  intros C w a Hok.
  destruct (with_axis_self w) as (Hs & _ & _).
  destruct (plot w) as [o1 w'] eqn:E1. cbn [fst snd] in *. subst o1.
  rewrite plot_run in E1.
  destruct (_plot_trajectory (data (self w)) (with_axis w)) as [o w3] eqn:E.
  destruct o as [a'|e]; [|discriminate E1]. injection E1 as _ E1.
  apply plot_trajectory_spec in E as (Hs3 & _ & _ & _ & _).
  symmetry in E1.
  assert (Hax : ax (self w')
                = if truthy (ax (self w)) then ax (self w)
                  else PObj (next_obj w)).
  { rewrite E1. cbn. rewrite Hs3. cbn. rewrite Hs.
    by destruct (truthy (ax (self w))). }
  assert (Htr : truthy (ax (self w')) = true).
  { rewrite Hax. by destruct (truthy (ax (self w))) eqn:Et. }
  assert (Hleg : kwargs (self w') !! "legend" = Some (PBool false)).
  { rewrite E1. cbn. unfold after_plot. rewrite lookup_delete_ne by done.
    by rewrite lookup_insert_eq. }
  assert (Hcol : kwargs (self w') !! "column" = None).
  { rewrite E1. cbn. unfold after_plot. by rewrite lookup_delete_eq. }
  clear E1. rewrite plot_run.
  assert (Hwa : with_axis w' = w').
  { unfold with_axis. by rewrite Htr. }
  rewrite Hwa.
  destruct (_plot_trajectory (data (self w')) w') as [o2 w4] eqn:E2.
  apply plot_trajectory_spec in E2
    as (_ & _ & _ & [(e & -> & Hev)|(c & -> & Hev & _ & Hcax & Hkw & _)] & _).
  - exists []. cbn. rewrite app_nil_r. split_and!; try done. lia.
  - exists [c]. cbn. split_and!; try done.
    constructor; [|constructor]. split_and!.
    + rewrite Hkw; [done|]. by_compute.
    + rewrite Hkw; [done|]. by_compute.
    + by rewrite Hcax, Hax.
Qed.

Lemma X7_witness :
  exists new,
    events (snd (@plot sample_collaborators
                   (snd (@plot sample_collaborators (sample_single ∅)))))
    = events (snd (@plot sample_collaborators (sample_single ∅)))
      ++ (Render <$> new).
Proof.
  destruct (X7_second_plot_reuses_axis_without_legend sample_collaborators
              (sample_single ∅) (PObj 0)) as (new & He & _).
  - vm_compute. reflexivity.
  - exists new. exact He.
Defined.

(** X8: for a freshly constructed single styler outside the fixed-color
    branch, every renderer call of [plot] gets as "vmin" and "vmax" what the
    caller passed under these names, and [None] where the caller passed
    nothing: the single styler computes no bounds of its own.  A [plot]
    that returns has issued exactly one such call. *)
Theorem X8_single_plot_passes_the_callers_bounds :
  forall (C : Collaborators) (w : world nat) (a : list pyval)
         (kw : gmap string pyval),
    self w = __init__ (data (self w)) a kw ->
    fixed_color (self w) = false ->
    exists new,
      events (snd (plot w)) = events w ++ new
      /\ Forall (bounded_by (default PNone (kw !! "vmin"))
                   (default PNone (kw !! "vmax"))) (renders new)
      /\ (forall h, fst (plot w) = Ok h -> exists c, renders new = [c]).
Proof.
  intros C w a kw Hinit Hf.
  assert (Hmin : min_value (self w) = default PNone (kw !! "vmin")).
  { rewrite Hinit. cbn. unfold dict_get. by rewrite !lookup_delete_ne. }
  assert (Hmax : max_value (self w) = default PNone (kw !! "vmax")).
  { rewrite Hinit. cbn. unfold dict_get. by rewrite !lookup_delete_ne. }
  clear Hinit. rewrite plot_run.
  destruct (fixed_color_with_axis w) as (Hf' & Hk & _ & _ & Hmn & Hmx & Hd).
  destruct (with_axis_self w) as (_ & He & Hh).
  destruct (_plot_trajectory (data (self w)) (with_axis w)) as [o w3] eqn:E.
  apply plot_trajectory_spec in E
    as (_ & _ & _ & [(e & -> & Hev)|(c & -> & Hev & _ & _ & _ & Hb)] & _).
  - eexists. cbn. rewrite Hev, He. split; [reflexivity|].
    split.
    + destruct (truthy (ax (self w))); cbn; constructor.
    + intros h [=].
  - eexists. cbn. rewrite Hev, He, <- app_assoc. split; [reflexivity|].
    unfold fixed_color in Hf', Hf. rewrite Hf', Hf in Hb.
    rewrite Hmn, Hmx, Hmin, Hmax in Hb.
    rewrite renders_app. cbn.
    assert (renders (if truthy (ax (self w)) then []
                     else [Figure (figsize (self w))]) = []) as ->.
    { by destruct (truthy (ax (self w))). }
    cbn. split; [constructor; [exact Hb|constructor]|]. eauto.
Qed.

Lemma X8_witness :
  exists new,
    events (snd (@plot sample_collaborators
                   (sample_single (<["vmin" := PNum 2]> ∅))))
    = [] ++ new
    /\ Forall (bounded_by (PNum 2) PNone) (renders new).
Proof.
  destruct (X8_single_plot_passes_the_callers_bounds sample_collaborators
              (sample_single (<["vmin" := PNum 2]> ∅)) []
              (<["vmin" := PNum 2]> ∅))
    as (new & He & Hb & _).
  - reflexivity.
  - vm_compute. reflexivity.
  - exists new. split; [exact He | exact Hb].
Defined.

(** ** A keyword given twice, a column that is missing *)

Lemma bind_keywords_clash k v ws (bag : gmap string pyval) :
  (k, v) ∈ ws -> is_Some (bag !! k) -> bind_keywords ws bag = None.
Proof.
  intros Hin [x Hx]. induction ws as [|[k0 v0] ws IH]; cbn.
  - by apply elem_of_nil in Hin.
  - apply elem_of_cons in Hin as [Hin|Hin].
    + injection Hin as <- <-. by rewrite Hx.
    + destruct (bag !! k0); [done|]. by rewrite IH.
Qed.

Lemma hvplot_trajectory_dangling `{Collaborators} {D} (w : world D) traj :
  heap w !! traj = None ->
  _hvplot_trajectory traj w = (Raise (Builtin ReferenceError), w).
Proof.
  intros E. unfold _hvplot_trajectory.
  erewrite bind_raise; [reflexivity|]. by apply make_line_df_dangling.
Qed.

Lemma plot_trajectory_clash `{Collaborators} {D} (w : world D) traj :
  fixed_color (self w) = true ->
  is_Some (kwargs (self w) !! "color") ->
  exists e w',
    _plot_trajectory traj w = (Raise e, w') /\ events w' = events w
    /\ (forall t series,
          heap w !! traj = Some t -> well_formed t ->
          frame_getitem (df t) (column (self w)) = Some series ->
          (exists col, color_outcome (Some t) (colormap (self w))
                         (column (self w)) = Ok col) ->
          e = Builtin TypeError).
Proof.
  intros Hf Hcol.
  destruct (heap w !! traj) as [t|] eqn:Ht.
  2:{ rewrite plot_trajectory_dangling by done.
      eexists _, _. split_and!; try done. }
  rewrite (plot_trajectory_run _ _ t) by done.
  cbv zeta. unfold static_written, static_bag. rewrite Hf.
  destruct (line_table _ _) as [g|e] eqn:El.
  2:{ eexists _, _. split_and!; try done. intros t' s [= <-] Hw.
      destruct (line_table_well_formed (column (self w)) t Hw) as [g Eg].
      congruence. }
  destruct (color_outcome _ _ _) as [col|e] eqn:Ec.
  2:{ eexists _, _. split_and!; try done.
      intros t' s [= <-] _ _ [col' Hc']. congruence. }
  rewrite (bind_keywords_clash "color" col) by (done || pick).
  eexists _, _. split_and!; done.
Qed.

Lemma hvplot_trajectory_clash `{Collaborators} {D} (w : world D) traj :
  fixed_color (self w) = true ->
  is_Some (kwargs (self w) !! "color") ->
  exists e w',
    _hvplot_trajectory traj w = (Raise e, w') /\ events w' = events w
    /\ (forall t series,
          heap w !! traj = Some t -> well_formed t ->
          frame_getitem (df t) (column (self w)) = Some series ->
          (exists col, color_outcome (Some t) (colormap (self w))
                         (column (self w)) = Ok col) ->
          e = Builtin TypeError).
Proof.
  intros Hf Hcol.
  destruct (heap w !! traj) as [t|] eqn:Ht.
  2:{ rewrite hvplot_trajectory_dangling by done.
      eexists _, _. split_and!; try done. }
  rewrite (hvplot_trajectory_run _ _ t) by done.
  cbv zeta. unfold line_written, line_bag. rewrite Hf.
  destruct (line_table _ _) as [g|e] eqn:El.
  2:{ eexists _, _. split_and!; try done. intros t' s [= <-] Hw.
      destruct (line_table_well_formed (column (self w)) t Hw) as [g Eg].
      congruence. }
  destruct (color_outcome _ _ _) as [col|e] eqn:Ec.
  2:{ eexists _, _. split_and!; try done.
      intros t' s [= <-] _ _ [col' Hc']. congruence. }
  destruct (column_max_of t (column (self w))) as [label|e] eqn:Em.
  - rewrite (bind_keywords_clash "color" col) by (done || pick).
    eexists _, _. split_and!; done.
  - eexists _, _. split_and!; try done. intros t' s [= <-] _ Hs _.
    unfold column_max_of in Em. by rewrite Hs in Em.
Qed.

(** X9: when a color-by-column and a color mapping are set and the bag
    holds a "color" option, neither the static nor the interactive render of
    a trajectory returns, and neither calls a renderer.  For a well-formed
    trajectory that has the column and a color that resolves, both fail
    with [TypeError]: the keyword "color" is given twice. *)
Theorem X9_color_keyword_given_twice :
  forall (C : Collaborators) (D : Type) (w : world D) (traj : nat),
    fixed_color (self w) = true ->
    is_Some (kwargs (self w) !! "color") ->
    (exists e, fst (_plot_trajectory traj w) = Raise e)
    /\ events (snd (_plot_trajectory traj w)) = events w
    /\ (exists e, fst (_hvplot_trajectory traj w) = Raise e)
    /\ events (snd (_hvplot_trajectory traj w)) = events w
    /\ (forall t series,
          heap w !! traj = Some t -> well_formed t ->
          frame_getitem (df t) (column (self w)) = Some series ->
          (exists col, color_outcome (Some t) (colormap (self w))
                         (column (self w)) = Ok col) ->
          fst (_plot_trajectory traj w) = Raise (Builtin TypeError)
          /\ fst (_hvplot_trajectory traj w) = Raise (Builtin TypeError)).
Proof.
  intros C D w traj Hf Hcol.
  destruct (plot_trajectory_clash w traj Hf Hcol) as (e1 & w1 & -> & He1 & Ht1).
  destruct (hvplot_trajectory_clash w traj Hf Hcol) as (e2 & w2 & -> & He2 & Ht2).
  cbn [fst snd]. split_and!; eauto.
  intros t s Ht Hw Hs Hc.
  by rewrite (Ht1 t s), (Ht2 t s).
Qed.

Lemma X9_witness :
  fst (@_plot_trajectory nat sample_collaborators 0
         (sample_single
            (<["column" := PStr "kind"]>
               (<["colormap" := PDict [(PStr "ferry", PStr "blue")]]>
                  (<["color" := PStr "red"]> ∅)))))
  = Raise (Builtin TypeError).
Proof.
  refine (proj1 (proj2 (proj2 (proj2 (proj2
    (X9_color_keyword_given_twice sample_collaborators nat
       (sample_single
          (<["column" := PStr "kind"]>
             (<["colormap" := PDict [(PStr "ferry", PStr "blue")]]>
                (<["color" := PStr "red"]> ∅))))
       0 _ _))))
    (sample_traj [3; 1; 2]%Z [10; 20; 30]%Z)
    [PStr "ferry"; PStr "ferry"; PStr "ferry"] _ _ _ _)).
  - vm_compute. reflexivity.
  - vm_compute. eauto.
  - reflexivity.
  - split; [reflexivity | discriminate].
  - vm_compute. reflexivity.
  - eexists. vm_compute. reflexivity.
Defined.

(** X10: when a color mapping is set and the color-by-column is not a
    column of the trajectory's table, the color lookup ends in the fallback
    "grey": the [KeyError] of the column lookup is caught by the handler
    meant for a key missing from the mapping.  The static render then draws
    in "grey".  The interactive render reads the column once more for its
    label, outside the handler, and raises [KeyError] before any renderer
    call. *)
Theorem X10_missing_column_grey_or_KeyError :
  forall (C : Collaborators) (D : Type) (w : world D) (traj : nat)
         (t : trajectory) (c : string),
    heap w !! traj = Some t ->
    column (self w) = PStr c ->
    df t !! c = None ->
    fixed_color (self w) = true ->
    resolve_color traj w = (Ok (PStr "grey"), w)
    /\ (exists new,
          events (snd (_plot_trajectory traj w)) = events w ++ (Render <$> new)
          /\ forall call, call ∈ new ->
               keywords call !! "color" = Some (PStr "grey"))
    /\ (well_formed t -> kwargs (self w) !! "ax" = None ->
        kwargs (self w) !! "color" = None ->
        exists a, fst (_plot_trajectory traj w) = Ok a)
    /\ events (snd (_hvplot_trajectory traj w)) = events w
    /\ (exists e, fst (_hvplot_trajectory traj w) = Raise e)
    /\ (well_formed t ->
        fst (_hvplot_trajectory traj w) = Raise (Builtin KeyError)).
Proof.
  intros C D w traj t c Ht Hc Hmiss Hf.
  assert (Hcol : color_outcome (Some t) (colormap (self w)) (column (self w))
                 = Ok (PStr "grey")).
  { unfold color_outcome. rewrite Hc. cbn. by rewrite Hmiss. }
  assert (Hmax : column_max_of t (column (self w)) = Raise (Builtin KeyError)).
  { unfold column_max_of. rewrite Hc. cbn. by rewrite Hmiss. }
  split_and!.
  - rewrite resolve_color_run. by rewrite Ht, Hcol.
  - destruct (_plot_trajectory traj w) as [o w'] eqn:E. cbn [snd].
    apply plot_trajectory_spec in E
      as (_ & _ & _ & [(e & _ & He)|(call & _ & He & _ & _ & _ & Hk)] & _).
    + exists []. cbn. rewrite app_nil_r. split; [done|].
      intros call Hin. by apply elem_of_nil in Hin.
    + exists [call]. split; [done|].
      intros call' Hin. apply list_elem_of_singleton in Hin as ->.
      unfold fixed_color in Hf. rewrite Hf in Hk.
      destruct Hk as (col & Hcol' & ->). rewrite Ht in Hcol'. congruence.
  - intros Hw Hax Hcolor.
    destruct (_plot_trajectory traj w) as [o w'] eqn:E. cbn [fst].
    apply plot_trajectory_spec in E as (_ & _ & _ & _ & Hok).
    apply (Hok t); try done. intros _. split; [done|]. eauto.
  - rewrite (hvplot_trajectory_run _ _ t) by done. cbv zeta.
    unfold line_written. rewrite Hf, Hcol, Hmax.
    by destruct (line_table _ _).
  - rewrite (hvplot_trajectory_run _ _ t) by done. cbv zeta.
    unfold line_written. rewrite Hf, Hcol, Hmax.
    destruct (line_table _ _); cbn; eauto.
  - intros Hw. rewrite (hvplot_trajectory_run _ _ t) by done. cbv zeta.
    unfold line_written. rewrite Hf, Hcol, Hmax.
    destruct (line_table_well_formed (column (self w)) t Hw) as [g ->]. done.
Qed.

Lemma X10_witness :
  fst (@_hvplot_trajectory nat sample_collaborators 0
         (sample_single
            (<["column" := PStr "nope"]>
               (<["colormap" := PDict [(PStr "ferry", PStr "blue")]]> ∅))))
  = Raise (Builtin KeyError).
Proof.
  refine (proj2 (proj2 (proj2 (proj2 (proj2
    (X10_missing_column_grey_or_KeyError sample_collaborators nat
       (sample_single
          (<["column" := PStr "nope"]>
             (<["colormap" := PDict [(PStr "ferry", PStr "blue")]]> ∅)))
       0 (sample_traj [3; 1; 2]%Z [10; 20; 30]%Z) "nope" _ _ _ _))))) _).
  - reflexivity.
  - vm_compute. reflexivity.
  - vm_compute. reflexivity.
  - vm_compute. reflexivity.
  - split; [reflexivity | discriminate].
Defined.

(** ** The interactive render of one trajectory, call by call *)

Lemma end_triangle_renders `{Collaborators} {D} (w : world D) traj t :
  heap w !! traj = Some t ->
  match end_render (self w) t with
  | None =>
      exists e w', _hvplot_end_triangle traj w = (Raise e, w')
                   /\ events w' = events w /\ heap w' = heap w
                   /\ self w' = set_kwargs (kwargs (self w')) (self w)
  | Some endc =>
      _hvplot_end_triangle traj w
      = (Ok (Drawn endc),
         with_event (Render endc)
           (with_self (set_kwargs (end_bag (self w))) w))
  end.
Proof.
  intros Ht. rewrite (end_triangle_run _ _ t) by done. unfold end_render.
  destruct (hover_ok _); [|by eexists _, _].
  destruct (end_table t); [|by eexists _, _].
  destruct (bind_keywords _ _); cbn; [done|by eexists _, _].
Qed.

Lemma hvplot_trajectory_renders `{Collaborators} {D} (w : world D) traj t :
  heap w !! traj = Some t ->
  match line_render (self w) t with
  | None =>
      exists e w', _hvplot_trajectory traj w = (Raise e, w')
                   /\ events w' = events w
                   /\ heap w' = heap w ++ [private_copy (column (self w)) t]
                   /\ self w' = set_kwargs (kwargs (self w')) (self w)
  | Some line =>
      match end_render (set_kwargs (line_bag (self w)) (self w)) t with
      | None =>
          exists e w', _hvplot_trajectory traj w = (Raise e, w')
                       /\ events w' = events w ++ [Render line]
                       /\ heap w' = heap w ++ [private_copy (column (self w)) t]
                       /\ self w' = set_kwargs (kwargs (self w')) (self w)
      | Some endc =>
          exists w', _hvplot_trajectory traj w
                     = (Ok (Over (Drawn line) (Drawn endc)), w')
                     /\ events w' = events w ++ [Render line; Render endc]
                     /\ heap w' = heap w ++ [private_copy (column (self w)) t]
                     /\ self w'
                        = set_kwargs
                            (end_bag (set_kwargs (line_bag (self w)) (self w)))
                            (self w)
      end
  end.
Proof.
  intros Ht. rewrite (hvplot_trajectory_run _ _ t) by done. cbv zeta.
  unfold line_render.
  destruct (line_table _ _) as [g|e]; cbv beta iota.
  2:{ eexists _, _; split; [reflexivity|]. cbn. by rewrite set_kwargs_same. }
  destruct (line_written _ _) as [ws|e]; cbv beta iota.
  2:{ eexists _, _; split; [reflexivity|]. cbn. by rewrite set_kwargs_same. }
  destruct (bind_keywords ws _) as [kws|]; cbn [fmap option_fmap option_map].
  2:{ eexists _, _. split; [reflexivity|]. done. }
  match goal with |- context [_hvplot_end_triangle traj ?W] =>
    pose proof (end_triangle_renders W traj t) as He end.
  cbn [heap self with_event with_self with_heap] in He.
  assert (Hlt : traj < List.length (heap w)) by (eapply lookup_lt_Some; eauto).
  rewrite lookup_app_l in He by done. specialize (He Ht).
  destruct (end_render _ t) as [endc|].
  - rewrite He. eexists. split; [reflexivity|]. cbn.
    rewrite <- app_assoc. done.
  - destruct He as (e & w' & -> & Hev & Hh & Hs). exists e, w'.
    split_and!; done.
Qed.

Lemma line_render_inv `{Collaborators} {D} (st : styler D) t line :
  line_render st t = Some line ->
  exists g ws kws,
    line_table (private_copy (column st) t) (crs t) = Ok g
    /\ line_written st t = Ok ws
    /\ bind_keywords ws (line_bag st) = Some kws
    /\ line = RenderCall LineHvplot (reproject (hvplot_is_geo st) t g)
                (args st) kws.
Proof.
  unfold line_render. destruct (line_table _ _) as [g|]; [|done].
  destruct (line_written _ _) as [ws|]; [|done].
  destruct (bind_keywords _ _) as [kws|] eqn:Eb; [|done].
  cbn. intros [= <-]. by exists g, ws, kws.
Qed.

Lemma end_render_inv `{Collaborators} {D} (st : styler D) t endc :
  end_render st t = Some endc ->
  exists g kws,
    hover_ok (kwargs st !! "hover_cols") = true
    /\ end_table t = Ok g
    /\ bind_keywords (end_written st) (end_bag st) = Some kws
    /\ endc = RenderCall EndTriangleHvplot (reproject (hvplot_is_geo st) t g)
                (args st) kws.
Proof.
  unfold end_render. destruct (hover_ok _); [|done].
  destruct (end_table _) as [g|]; [|done].
  destruct (bind_keywords _ _) as [kws|] eqn:Eb; [|done].
  cbn. intros [= <-]. by exists g, kws.
Qed.

(** The three ways an interactive render of one trajectory can go. *)
Lemma hvplot_trajectory_cases `{Collaborators} {D} (w : world D) traj :
  ((exists e, fst (_hvplot_trajectory traj w) = Raise e)
   /\ events (snd (_hvplot_trajectory traj w)) = events w
   /\ self (snd (_hvplot_trajectory traj w))
      = set_kwargs (kwargs (self (snd (_hvplot_trajectory traj w)))) (self w))
  \/ (exists t line,
        heap w !! traj = Some t
        /\ line_render (self w) t = Some line
        /\ end_render (set_kwargs (line_bag (self w)) (self w)) t = None
        /\ (exists e, fst (_hvplot_trajectory traj w) = Raise e)
        /\ events (snd (_hvplot_trajectory traj w)) = events w ++ [Render line]
        /\ self (snd (_hvplot_trajectory traj w))
           = set_kwargs (kwargs (self (snd (_hvplot_trajectory traj w))))
               (self w))
  \/ (exists t line endc,
        heap w !! traj = Some t
        /\ line_render (self w) t = Some line
        /\ end_render (set_kwargs (line_bag (self w)) (self w)) t = Some endc
        /\ fst (_hvplot_trajectory traj w) = Ok (Over (Drawn line) (Drawn endc))
        /\ events (snd (_hvplot_trajectory traj w))
           = events w ++ [Render line; Render endc]
        /\ self (snd (_hvplot_trajectory traj w))
           = set_kwargs (end_bag (set_kwargs (line_bag (self w)) (self w)))
               (self w)).
Proof.
  destruct (heap w !! traj) as [t|] eqn:Ht.
  2:{ left. rewrite hvplot_trajectory_dangling by done. cbn [fst snd].
      split_and!; eauto. by rewrite set_kwargs_same. }
  pose proof (hvplot_trajectory_renders w traj t Ht) as Hr.
  destruct (line_render (self w) t) as [line|] eqn:El.
  2:{ left. destruct Hr as (e & w' & -> & He & _ & Hs). cbn [fst snd]. eauto. }
  destruct (end_render _ t) as [endc|] eqn:Ee.
  - right. right. destruct Hr as (w' & -> & He & _ & Hs).
    exists t, line, endc. cbn [fst snd]. by split_and!.
  - right. left. destruct Hr as (e & w' & -> & He & _ & Hs).
    exists t, line. cbn [fst snd]. split_and!; eauto.
Qed.

(** X11: [_hvplot_trajectory] issues at most two renderer calls, first the
    line render and then the end-marker render.  It returns exactly when
    both were issued, and then returns the overlay of the two, the line
    first. *)
Theorem X11_hvplot_trajectory_line_then_marker :
  forall (C : Collaborators) (D : Type) (w : world D) (traj : nat),
    exists new,
      events (snd (_hvplot_trajectory traj w)) = events w ++ (Render <$> new)
      /\ (site <$> new = []
          \/ site <$> new = [LineHvplot]
          \/ site <$> new = [LineHvplot; EndTriangleHvplot])
      /\ (forall d, fst (_hvplot_trajectory traj w) = Ok d ->
            exists line endc,
              new = [line; endc] /\ d = Over (Drawn line) (Drawn endc))
      /\ (List.length new = 2 ->
            exists d, fst (_hvplot_trajectory traj w) = Ok d).
Proof.
  intros C D w traj.
  destruct (hvplot_trajectory_cases w traj)
    as [((e & Ho) & He & _)
       |[(t & line & _ & El & _ & (e & Ho) & He & _)
        |(t & line & endc & _ & El & Ee & Ho & He & _)]].
  - exists []. cbn. rewrite app_nil_r. split_and!; try done.
    + by left.
    + intros d Hd. congruence.
  - exists [line]. cbn. split_and!; try done.
    + right. left. apply line_render_inv in El as (? & ? & ? & _ & _ & _ & ->).
      reflexivity.
    + intros d Hd. congruence.
  - exists [line; endc]. cbn. split_and!; try done.
    + right. right.
      apply line_render_inv in El as (? & ? & ? & _ & _ & _ & ->).
      apply end_render_inv in Ee as (? & ? & _ & _ & _ & ->).
      reflexivity.
    + intros d Hd. rewrite Ho in Hd. injection Hd as <-. eauto.
    + eauto.
Qed.

Lemma end_bag_other {D} (st : styler D) k :
  k <> "hover_cols" -> k <> "tiles" -> k <> "color" ->
  end_bag st !! k = kwargs st !! k.
Proof.
  intros H1 H2 H3. unfold end_bag. cbv zeta.
  destruct (truthy (marker_color st)).
  - rewrite !lookup_insert_ne by done. by rewrite lookup_delete_ne.
  - rewrite !lookup_insert_ne by done. by rewrite lookup_delete_ne.
Qed.

Lemma end_bag_color {D} (st : styler D) :
  end_bag st !! "color"
  = if truthy (marker_color st) then Some (marker_color st)
    else kwargs st !! "color".
Proof.
  unfold end_bag. cbv zeta. destruct (truthy (marker_color st)).
  - by rewrite lookup_insert_eq.
  - rewrite lookup_insert_ne by done. by rewrite lookup_delete_ne.
Qed.

Lemma line_bag_colorbar {D} (st : styler D) :
  fixed_color st = false ->
  line_bag st !! "colorbar"
  = Some (default (PBool true) (kwargs st !! "colorbar")).
Proof.
  intros Hf. unfold line_bag. rewrite Hf.
  case_bool_decide as Hc.
  - by destruct Hc as [v ->].
  - rewrite lookup_insert_eq.
    destruct (kwargs st !! "colorbar") eqn:E; [|done].
    exfalso. apply Hc. eauto.
Qed.

Lemma line_bag_other {D} (st : styler D) k :
  k <> "colorbar" -> line_bag st !! k = kwargs st !! k.
Proof.
  intros Hk. unfold line_bag. destruct (fixed_color st); [done|].
  case_bool_decide; [done|]. by rewrite lookup_insert_ne.
Qed.

(** X12: the keywords of the interactive line render.  "line_width" and
    "geo" are the styler's.  Outside the fixed-color branch "colorbar" is
    the caller's, or [True] when the caller gave none, and it is in the bag
    when the method returns.  Inside the fixed-color branch "colorbar" is
    only what the bag has, and "label" is the maximum of the color-by-column
    of the trajectory. *)
Theorem X12_line_render_keywords :
  forall (C : Collaborators) (D : Type) (w : world D) (traj : nat),
    exists new,
      events (snd (_hvplot_trajectory traj w)) = events w ++ (Render <$> new)
      /\ (forall c, c ∈ new -> site c = LineHvplot ->
            keywords c !! "line_width" = Some (line_width (self w))
            /\ keywords c !! "geo" = Some (hvplot_is_geo (self w))
            /\ (fixed_color (self w) = false ->
                keywords c !! "colorbar"
                = Some (default (PBool true) (kwargs (self w) !! "colorbar")))
            /\ (fixed_color (self w) = true ->
                keywords c !! "colorbar" = kwargs (self w) !! "colorbar"
                /\ exists t s,
                     heap w !! traj = Some t
                     /\ frame_getitem (df t) (column (self w)) = Some s
                     /\ keywords c !! "label" = Some (series_max s)))
      /\ (forall d, fst (_hvplot_trajectory traj w) = Ok d ->
            fixed_color (self w) = false ->
            kwargs (self (snd (_hvplot_trajectory traj w))) !! "colorbar"
            = Some (default (PBool true) (kwargs (self w) !! "colorbar"))).
Proof.
  intros C D w traj.
  assert (Hline : forall t line,
            heap w !! traj = Some t -> line_render (self w) t = Some line ->
            site line = LineHvplot
            /\ keywords line !! "line_width" = Some (line_width (self w))
            /\ keywords line !! "geo" = Some (hvplot_is_geo (self w))
            /\ (fixed_color (self w) = false ->
                keywords line !! "colorbar"
                = Some (default (PBool true) (kwargs (self w) !! "colorbar")))
            /\ (fixed_color (self w) = true ->
                keywords line !! "colorbar" = kwargs (self w) !! "colorbar"
                /\ exists t s,
                     heap w !! traj = Some t
                     /\ frame_getitem (df t) (column (self w)) = Some s
                     /\ keywords line !! "label" = Some (series_max s))).
  { intros t line Ht El.
    apply line_render_inv in El as (g & ws & kws & _ & Ew & Eb & ->).
    cbn [site keywords]. unfold line_written in Ew.
    destruct (fixed_color (self w)) eqn:Hf.
    - destruct (color_outcome _ _ _) as [col|]; [|done].
      unfold column_max_of in Ew.
      destruct (frame_getitem (df t) (column (self w))) as [s|] eqn:Es; [|done].
      injection Ew as <-. split_and!; try done.
      + eapply bind_keywords_written; [exact Eb| by_compute | pick].
      + eapply bind_keywords_written; [exact Eb| by_compute | pick].
      + intros _. split.
        * erewrite bind_keywords_other; [|exact Eb|by_compute].
          unfold line_bag. by rewrite Hf.
        * exists t, s. split_and!; try done.
          eapply bind_keywords_written; [exact Eb| by_compute | pick].
    - injection Ew as <-. split_and!; try done.
      + eapply bind_keywords_written; [exact Eb| by_compute | pick].
      + eapply bind_keywords_written; [exact Eb| by_compute | pick].
      + intros _. erewrite bind_keywords_other; [|exact Eb|by_compute].
        by apply line_bag_colorbar. }
  destruct (hvplot_trajectory_cases w traj)
    as [((e & Ho) & He & _)
       |[(t & line & Ht & El & Ee & (e & Ho) & He & _)
        |(t & line & endc & Ht & El & Ee & Ho & He & Hs)]].
  - exists []. cbn. rewrite app_nil_r. split_and!; try done.
    + intros c Hc. by apply elem_of_nil in Hc.
    + intros d Hd. congruence.
  - exists [line]. cbn. split_and!; try done.
    + intros c Hc _. apply list_elem_of_singleton in Hc as ->.
      by apply (Hline t line Ht El).
    + intros d Hd. congruence.
  - exists [line; endc]. cbn. split_and!; try done.
    + intros c Hc Hsite. apply elem_of_cons in Hc as [->|Hc].
      * by apply (Hline t line Ht El).
      * apply list_elem_of_singleton in Hc as ->.
        apply end_render_inv in Ee as (? & ? & _ & _ & _ & ->). done.
    + intros d _ Hf. rewrite Hs. cbn [kwargs set_kwargs].
      rewrite end_bag_other by done. cbn [kwargs set_kwargs].
      by apply line_bag_colorbar.
Qed.

(** X13: [_hvplot_end_triangle] issues at most one renderer call: marker
    "triangle", angle bound to the "triangle_angle" column, the styler's
    marker size and geo flag, and as "color" the styler's marker color when
    that is set, else what the bag has.  When the method returns, that color
    is the bag's "color" option and "tiles" is not in the bag. *)
Theorem X13_end_marker_keywords :
  forall (C : Collaborators) (D : Type) (w : world D) (traj : nat),
    exists new,
      events (snd (_hvplot_end_triangle traj w)) = events w ++ (Render <$> new)
      /\ List.length new <= 1
      /\ (forall c, c ∈ new ->
            site c = EndTriangleHvplot
            /\ keywords c !! "marker" = Some (PStr "triangle")
            /\ keywords c !! "angle" = Some (PDim "triangle_angle")
            /\ keywords c !! "size" = Some (marker_size (self w))
            /\ keywords c !! "geo" = Some (hvplot_is_geo (self w))
            /\ keywords c !! "color"
               = (if truthy (marker_color (self w))
                  then Some (marker_color (self w))
                  else kwargs (self w) !! "color"))
      /\ (forall d, fst (_hvplot_end_triangle traj w) = Ok d ->
            exists c,
              new = [c] /\ d = Drawn c
              /\ kwargs (self (snd (_hvplot_end_triangle traj w))) !! "color"
                 = keywords c !! "color"
              /\ kwargs (self (snd (_hvplot_end_triangle traj w))) !! "tiles"
                 = None).
Proof.
  intros C D w traj.
  destruct (heap w !! traj) as [t|] eqn:Ht.
  2:{ destruct (end_triangle_dangling w traj Ht) as (e & w' & -> & He & _).
      exists []. cbn. rewrite app_nil_r. split_and!; try done.
      - lia.
      - intros c Hc. by apply elem_of_nil in Hc. }
  pose proof (end_triangle_renders w traj t Ht) as Hr.
  destruct (end_render (self w) t) as [endc|] eqn:Ee.
  2:{ destruct Hr as (e & w' & -> & He & _).
      exists []. cbn. rewrite app_nil_r. split_and!; try done.
      - lia.
      - intros c Hc. by apply elem_of_nil in Hc. }
  rewrite Hr. exists [endc]. cbn [fst snd].
  apply end_render_inv in Ee as (g & kws & _ & _ & Eb & ->).
  assert (Hcol : kws !! "color" = end_bag (self w) !! "color").
  { eapply bind_keywords_other; [exact Eb|by_compute]. }
  split_and!; try done.
  - intros c Hc. apply list_elem_of_singleton in Hc as ->. cbn [site keywords].
    unfold end_written in Eb. split_and!; try done.
    + eapply bind_keywords_written; [exact Eb| by_compute | pick].
    + eapply bind_keywords_written; [exact Eb| by_compute | pick].
    + eapply bind_keywords_written; [exact Eb| by_compute | pick].
    + eapply bind_keywords_written; [exact Eb| by_compute | pick].
    + by rewrite Hcol, end_bag_color.
  - intros d [= <-]. eexists. split_and!; try done.
    cbn. unfold end_bag. cbv zeta.
    destruct (truthy (marker_color (self w))).
    + rewrite !lookup_insert_ne by done. by rewrite lookup_delete_eq.
    + rewrite !lookup_insert_ne by done. by rewrite lookup_delete_eq.
Qed.

(** X14: for a live trajectory the tables handed to the interactive renderer
    are its line table and its end-point table, each reprojected to EPSG:4326
    exactly when the geo flag is set, the trajectory is not in
    latitude/longitude and its crs is not [None]. *)
Theorem X14_interactive_tables_are_reprojected :
  forall (C : Collaborators) (D : Type) (w : world D) (traj : nat)
         (t : trajectory),
    heap w !! traj = Some t ->
    exists new,
      events (snd (_hvplot_trajectory traj w)) = events w ++ (Render <$> new)
      /\ (forall c, c ∈ new -> site c = LineHvplot ->
            exists g,
              line_table (private_copy (column (self w)) t) (crs t) = Ok g
              /\ table c = reproject (hvplot_is_geo (self w)) t g)
      /\ (forall c, c ∈ new -> site c = EndTriangleHvplot ->
            exists g,
              end_table t = Ok g
              /\ table c = reproject (hvplot_is_geo (self w)) t g)
      /\ (forall g,
            reproject (hvplot_is_geo (self w)) t g
            = if truthy (hvplot_is_geo (self w)) && negb (is_latlon t)
                 && negb (is_none (crs t))
              then to_crs 4326 g else g).
Proof.
  intros C D w traj t Ht.
  assert (Hline : forall line, line_render (self w) t = Some line ->
            site line = LineHvplot
            /\ exists g,
                 line_table (private_copy (column (self w)) t) (crs t) = Ok g
                 /\ table line = reproject (hvplot_is_geo (self w)) t g).
  { intros line El.
    apply line_render_inv in El as (g & ws & kws & Eg & _ & _ & ->).
    split; [done|]. by exists g. }
  assert (Hend : forall endc,
            end_render (set_kwargs (line_bag (self w)) (self w)) t = Some endc ->
            site endc = EndTriangleHvplot
            /\ exists g,
                 end_table t = Ok g
                 /\ table endc = reproject (hvplot_is_geo (self w)) t g).
  { intros endc Ee.
    apply end_render_inv in Ee as (g & kws & _ & Eg & _ & ->).
    split; [done|]. by exists g. }
  destruct (hvplot_trajectory_cases w traj)
    as [((e & Ho) & He & _)
       |[(t' & line & Ht' & El & Ee & (e & Ho) & He & _)
        |(t' & line & endc & Ht' & El & Ee & Ho & He & Hs)]].
  - exists []. cbn. rewrite app_nil_r. split_and!; try done.
    + intros c Hc. by apply elem_of_nil in Hc.
    + intros c Hc. by apply elem_of_nil in Hc.
  - assert (t' = t) as -> by congruence.
    destruct (Hline _ El) as [Hsite Hg].
    exists [line]. cbn. split_and!; try done.
    + intros c Hc _. by apply list_elem_of_singleton in Hc as ->.
    + intros c Hc Hs. apply list_elem_of_singleton in Hc as ->. congruence.
  - assert (t' = t) as -> by congruence.
    destruct (Hline _ El) as [Hsite Hg]. destruct (Hend _ Ee) as [Hesite Hge].
    exists [line; endc]. cbn. split_and!; try done.
    + intros c Hc Hsc. apply elem_of_cons in Hc as [->|Hc]; [done|].
      apply list_elem_of_singleton in Hc as ->. congruence.
    + intros c Hc Hsc. apply elem_of_cons in Hc as [->|Hc]; [congruence|].
      by apply list_elem_of_singleton in Hc as ->.
Qed.

Lemma X14_witness :
  exists new,
    events (snd (@_hvplot_trajectory nat sample_collaborators 0
                   (sample_single ∅)))
    = [] ++ (Render <$> new).
Proof.
  destruct (X14_interactive_tables_are_reprojected sample_collaborators nat
              (sample_single ∅) 0 (sample_traj [3; 1; 2]%Z [10; 20; 30]%Z)
              eq_refl) as (new & He & _).
  exists new. exact He.
Defined.

(** X15: with the interactive modules importable, [hvplot] of the single
    styler first sets the overlay defaults, once, with the styler's width
    and height, and only then renders: at most the line and the end marker,
    whose overlay it returns. *)
Theorem X15_hvplot_configures_the_overlay_first :
  forall (C : Collaborators) (w : world nat),
    has_hvplot_pandas w && has_holoviews_opts w = true ->
    exists new,
      events (snd (hvplot w))
      = events w ++ OverlayDefaults (width (self w)) (height (self w))
                    :: (Render <$> new)
      /\ (site <$> new = []
          \/ site <$> new = [LineHvplot]
          \/ site <$> new = [LineHvplot; EndTriangleHvplot])
      /\ (forall d, fst (hvplot w) = Ok d ->
            exists line endc,
              new = [line; endc] /\ d = Over (Drawn line) (Drawn endc)).
Proof.
  intros C w Hcap. unfold hvplot.
  erewrite bind_run; [|by rewrite import_interactive_run, Hcap].
  erewrite bind_run; [|reflexivity].
  erewrite bind_run; [|reflexivity].
  set (w0 := with_event _ w).
  change (data (self w0)) with (data (self w)).
  destruct (hvplot_trajectory_cases w0 (data (self w)))
    as [((e & Ho) & He & _)
       |[(t & line & _ & El & _ & (e & Ho) & He & _)
        |(t & line & endc & _ & El & Ee & Ho & He & _)]].
  - exists []. rewrite He. subst w0. cbn. split_and!; try done.
    + by left.
    + intros d Hd. congruence.
  - exists [line]. rewrite He. subst w0. cbn. rewrite <- app_assoc.
    split_and!; try done.
    + right. left. apply line_render_inv in El as (? & ? & ? & _ & _ & _ & ->).
      reflexivity.
    + intros d Hd. congruence.
  - exists [line; endc]. rewrite He. subst w0. cbn. rewrite <- app_assoc.
    split_and!; try done.
    + right. right.
      apply line_render_inv in El as (? & ? & ? & _ & _ & _ & ->).
      apply end_render_inv in Ee as (? & ? & _ & _ & _ & ->).
      reflexivity.
    + intros d Hd. rewrite Ho in Hd. injection Hd as <-. eauto.
Qed.

Lemma X15_witness :
  exists new,
    events (snd (@hvplot sample_collaborators (sample_single ∅)))
    = [] ++ OverlayDefaults (PNum 900) (PNum 700) :: (Render <$> new).
Proof.
  destruct (X15_hvplot_configures_the_overlay_first sample_collaborators
              (sample_single ∅) eq_refl) as (new & He & _).
  exists new. exact He.
Defined.

(** ** The overlay of a collection *)

Lemma hvplot_member_run `{Collaborators} (w : world (list nat)) traj :
  _TrajectoryCollectionPlotter.hvplot_member traj w
  = match _hvplot_trajectory traj w with
    | (Ok o, w2) =>
        (Ok tt,
         with_self (set_hvplot_tiles (PBool false))
           (with_self (set_overlay (Some (onto (overlay (self w2)) o))) w2))
    | (Raise e, w2) => (Raise e, w2)
    end.
Proof.
  unfold _TrajectoryCollectionPlotter.hvplot_member. unfold bind at 1.
  destruct (_hvplot_trajectory traj w) as [[o|e] w2]; [|done].
  erewrite bind_run; [|reflexivity].
  by destruct (overlay (self w2)).
Qed.

(** The two ways one pass of the interactive loop can go. *)
Lemma hvplot_member_cases `{Collaborators} (w : world (list nat)) traj :
  (exists e w1 new,
     _TrajectoryCollectionPlotter.hvplot_member traj w = (Raise e, w1)
     /\ events w1 = events w ++ (Render <$> new) /\ List.length new <= 1)
  \/ (exists w1 line endc,
        _TrajectoryCollectionPlotter.hvplot_member traj w = (Ok tt, w1)
        /\ events w1 = events w ++ [Render line; Render endc]
        /\ self w1
           = set_hvplot_tiles (PBool false)
               (set_overlay
                  (Some (onto (overlay (self w))
                           (Over (Drawn line) (Drawn endc))))
                  (set_kwargs
                     (end_bag (set_kwargs (line_bag (self w)) (self w)))
                     (self w)))).
Proof.
  rewrite hvplot_member_run.
  destruct (hvplot_trajectory_cases w traj)
    as [((e & Ho) & He & _)
       |[(t & line & _ & _ & _ & (e & Ho) & He & _)
        |(t & line & endc & _ & _ & _ & Ho & He & Hs)]];
    destruct (_hvplot_trajectory traj w) as [o w2]; cbn [fst snd] in *; subst o.
  - left. exists e, w2, []. cbn. rewrite app_nil_r. split_and!; try done. lia.
  - left. exists e, w2, [line]. cbn. split_and!; try done.
  - right. eexists _, line, endc. split; [reflexivity|]. cbn.
    split; [done|]. by rewrite Hs.
Qed.

Lemma composite_cons acc d ds :
  composite acc (d :: ds) = composite (Some (onto acc d)) ds.
Proof. reflexivity. Qed.

Lemma overlay_loop `{Collaborators} (l : list nat) :
  forall w : world (list nat),
    exists new,
      events (snd (for_each l _TrajectoryCollectionPlotter.hvplot_member w))
      = events w ++ (Render <$> new)
      /\ (forall u,
            fst (for_each l _TrajectoryCollectionPlotter.hvplot_member w) = Ok u ->
            overlay (self (snd (for_each l
                                  _TrajectoryCollectionPlotter.hvplot_member w)))
            = composite (overlay (self w)) (pair_up new)
            /\ List.length new = 2 * List.length l).
Proof.
  induction l as [|x xs IH]; intros w.
  - exists []. cbn. rewrite app_nil_r. by split_and!.
  - cbn [for_each].
    destruct (hvplot_member_cases w x)
      as [(e & w1 & new & Em & He & _)|(w1 & line & endc & Em & He & Hs)].
    + rewrite (bind_raise _ _ _ _ _ Em). exists new. cbn.
      split; [done|]. intros u [=].
    + rewrite (bind_run _ _ _ _ _ Em).
      destruct (IH w1) as (new & He' & Hok).
      exists (line :: endc :: new). split.
      * rewrite He', He. cbn. by rewrite <- app_assoc.
      * intros u Hu. destruct (Hok u Hu) as [Ho Hl]. split.
        -- rewrite Ho, Hs. reflexivity.
        -- cbn. lia.
Qed.

(** X16: with the interactive modules importable, [hvplot] of a collection
    sets the overlay defaults once and then only renders.  When it returns,
    the result is the overlay left by earlier calls ([None] on a new styler)
    with one drawable per member composited on top, in the order of the
    collection, each the line render with its end-marker render: two
    renderer calls per member.  For an empty collection the result is the
    unchanged overlay, without a renderer call. *)
Theorem X16_collection_hvplot_composites_in_order :
  forall (C : Collaborators) (w : world (list nat)),
    has_hvplot_pandas w && has_holoviews_opts w = true ->
    exists new,
      events (snd (_TrajectoryCollectionPlotter.hvplot w))
      = events w ++ OverlayDefaults (width (self w)) (height (self w))
                    :: (Render <$> new)
      /\ (forall r, fst (_TrajectoryCollectionPlotter.hvplot w) = Ok r ->
            r = composite (overlay (self w)) (pair_up new)
            /\ List.length new = 2 * List.length (data (self w)))
      /\ (data (self w) = [] ->
          fst (_TrajectoryCollectionPlotter.hvplot w) = Ok (overlay (self w))
          /\ new = []).
Proof.
  intros C w Hcap. unfold _TrajectoryCollectionPlotter.hvplot.
  erewrite bind_run; [|by rewrite import_interactive_run, Hcap].
  erewrite bind_run; [|reflexivity].
  erewrite bind_run; [|reflexivity].
  set (w0 := with_event _ w).
  change (data (self w0)) with (data (self w)).
  destruct (overlay_loop (data (self w)) w0) as (new & He & Hok).
  exists new.
  destruct (for_each (data (self w)) _ w0) as [[u|e] w1] eqn:E;
    [rewrite (bind_run _ _ _ _ _ E) | rewrite (bind_raise _ _ _ _ _ E)];
    cbn [fst snd gets] in *.
  - split_and!.
    + rewrite He. subst w0. cbn. by rewrite <- app_assoc.
    + intros r [= <-]. destruct (Hok _ eq_refl) as [Ho Hl]. by split.
    + intros Hd. rewrite Hd in E. cbn in E. injection E as <- <-.
      split; [done|]. rewrite Hd in Hok.
      destruct (Hok _ eq_refl) as [_ Hl]. by destruct new.
  - split_and!.
    + rewrite He. subst w0. cbn. by rewrite <- app_assoc.
    + intros r [=].
    + intros Hd. rewrite Hd in E. discriminate E.
Qed.

Lemma X16_witness :
  exists new,
    events (snd (@_TrajectoryCollectionPlotter.hvplot sample_collaborators
                   (sample_collection ∅)))
    = [] ++ OverlayDefaults (PNum 900) (PNum 700) :: (Render <$> new).
Proof.
  destruct (X16_collection_hvplot_composites_in_order sample_collaborators
              (sample_collection ∅) eq_refl) as (new & He & _).
  exists new. exact He.
Defined.

(** X17: the end-marker render leaves the marker color in the bag as
    "color".  With a color-by-column, a color mapping and a marker color
    set, [hvplot] of a collection of two or more members therefore never
    returns: the line render of the second member meets "color" twice.  No
    more than the two renderer calls of the first member are issued. *)
Theorem X17_marker_color_stops_the_second_fixed_color_render :
  forall (C : Collaborators) (w : world (list nat)),
    fixed_color (self w) = true ->
    truthy (marker_color (self w)) = true ->
    2 <= List.length (data (self w)) ->
    (exists e, fst (_TrajectoryCollectionPlotter.hvplot w) = Raise e)
    /\ exists new,
         events (snd (_TrajectoryCollectionPlotter.hvplot w)) = events w ++ new
         /\ List.length (renders new) <= 2.
Proof.
  intros C w Hf Hm Hlen. unfold _TrajectoryCollectionPlotter.hvplot.
  destruct (has_hvplot_pandas w && has_holoviews_opts w) eqn:Hcap.
  2:{ erewrite bind_raise; [|by rewrite import_interactive_run, Hcap].
      cbn. split; [eauto|]. exists []. rewrite app_nil_r. split; [done|].
      cbn. lia. }
  erewrite bind_run; [|by rewrite import_interactive_run, Hcap].
  erewrite bind_run; [|reflexivity].
  erewrite bind_run; [|reflexivity].
  set (w0 := with_event _ w).
  change (data (self w0)) with (data (self w)).
  destruct (data (self w)) as [|r1 [|r2 rest]]; cbn in Hlen; try lia.
  cbn [for_each].
  destruct (hvplot_member_cases w0 r1)
    as [(e & w1 & new & Em & He & Hn)|(w1 & line & endc & Em & He & Hs)].
  - erewrite bind_raise; [|by erewrite bind_raise]. cbn [fst snd].
    split; [eauto|]. eexists. rewrite He. subst w0. cbn.
    rewrite <- app_assoc. split; [reflexivity|].
    cbn. rewrite renders_Render. lia.
  - assert (Hf1 : fixed_color (self w1) = true) by (by rewrite Hs).
    assert (Hc1 : is_Some (kwargs (self w1) !! "color")).
    { rewrite Hs. cbn [kwargs set_hvplot_tiles set_overlay set_kwargs].
      rewrite end_bag_color. cbn [marker_color set_kwargs].
      subst w0. cbn. rewrite Hm. eauto. }
    destruct (hvplot_trajectory_clash w1 r2 Hf1 Hc1) as (e & w2 & E2 & He2 & _).
    erewrite bind_raise.
    2:{ erewrite bind_run; [|exact Em]. erewrite bind_raise; [reflexivity|].
        rewrite hvplot_member_run, E2. reflexivity. }
    cbn [fst snd]. split; [eauto|]. eexists. rewrite He2, He. subst w0. cbn.
    rewrite <- app_assoc. split; [reflexivity|]. cbn. lia.
Qed.

Lemma X17_witness :
  exists e,
    fst (@_TrajectoryCollectionPlotter.hvplot sample_collaborators
           (sample_collection
              (<["column" := PStr "kind"]>
                 (<["colormap" := PDict [(PStr "ferry", PStr "blue")]]>
                    (<["marker_color" := PStr "red"]> ∅)))))
    = Raise e.
Proof.
  refine (proj1 (X17_marker_color_stops_the_second_fixed_color_render
    sample_collaborators
    (sample_collection
       (<["column" := PStr "kind"]>
          (<["colormap" := PDict [(PStr "ferry", PStr "blue")]]>
             (<["marker_color" := PStr "red"]> ∅)))) _ _ _)).
  - vm_compute. reflexivity.
  - vm_compute. reflexivity.
  - vm_compute. lia.
Defined.

(** ** The trajectories in the store *)

Section Spares.
Context {D : Type} `{Collaborators}.

Lemma heap_same_spares {A} n (m : M D A) : heap_same m -> spares n m.
Proof. intros Hm w o w' E Hn. apply Hm in E. by rewrite E. Qed.

Lemma heap_same_bind {A B} (m : M D A) (k : A -> M D B) :
  heap_same m -> (forall a, heap_same (k a)) -> heap_same (bind m k).
Proof.
  intros Hm Hk w o w' E.
  apply bind_inv in E as [(a & w1 & Em & E)|(e & Em & ->)].
  - apply Hm in Em. apply Hk in E. congruence.
  - by apply Hm in Em.
Qed.

Lemma heap_same_ret {A} (a : A) : heap_same (D := D) (ret a).
Proof. by intros w o w' [= <- <-]. Qed.
Lemma heap_same_gets {A} (f : world D -> A) : heap_same (gets f).
Proof. by intros w o w' [= <- <-]. Qed.
Lemma heap_same_raise {A} e : heap_same (D := D) (A := A) (raise e).
Proof. by intros w o w' [= <- <-]. Qed.
Lemma heap_same_or_raise {A} e (x : option A) :
  heap_same (D := D) (or_raise e x).
Proof. destruct x; by intros w o w' [= <- <-]. Qed.
Lemma heap_same_lift_builtin {A} (r : builtin_exn + A) :
  heap_same (D := D) (lift_builtin r).
Proof. destruct r; by intros w o w' [= <- <-]. Qed.
Lemma heap_same_lift_collaborator {A} (r : string + A) :
  heap_same (D := D) (lift_collaborator r).
Proof. destruct r; by intros w o w' [= <- <-]. Qed.
Lemma heap_same_modify_self (f : styler D -> styler D) :
  heap_same (modify (with_self f)).
Proof. by intros w o w' [= <- <-]. Qed.
Lemma heap_same_modify_event e : heap_same (D := D) (modify (with_event e)).
Proof. by intros w o w' [= <- <-]. Qed.
Lemma heap_same_modify_next n : heap_same (D := D) (modify (with_next_obj n)).
Proof. by intros w o w' [= <- <-]. Qed.
Lemma heap_same_kwargs_pop k d : heap_same (D := D) (kwargs_pop k d).
Proof. by intros w o w' [= <- <-]. Qed.

End Spares.

Create HintDb heap_same.
#[export] Hint Resolve heap_same_ret heap_same_gets heap_same_raise
  heap_same_or_raise heap_same_lift_builtin heap_same_lift_collaborator
  heap_same_modify_self heap_same_modify_event heap_same_modify_next
  heap_same_kwargs_pop : heap_same.

Ltac heap_same_walk :=
  repeat first
    [ progress intros
    | progress cbv zeta
    | solve [auto with heap_same]
    | apply heap_same_bind
    | match goal with
      | |- heap_same (if ?b then _ else _) => destruct b
      | |- heap_same (match ?x with _ => _ end) => destruct x
      end ].

Lemma heap_same_kwargs_set {D} k v : heap_same (D := D) (kwargs_set k v).
Proof. unfold kwargs_set. heap_same_walk. Qed.
Lemma heap_same_kwargs_getitem {D} k : heap_same (D := D) (kwargs_getitem k).
Proof. unfold kwargs_getitem. heap_same_walk. Qed.
Lemma heap_same_deref {D} r : heap_same (D := D) (deref r).
Proof. unfold deref. heap_same_walk. Qed.
Lemma heap_same_fresh_obj {D} : heap_same (D := D) fresh_obj.
Proof. unfold fresh_obj. heap_same_walk. Qed.
#[export] Hint Resolve heap_same_kwargs_set heap_same_kwargs_getitem
  heap_same_deref heap_same_fresh_obj : heap_same.

Lemma heap_same_new_subplot {D} s : heap_same (D := D) (new_subplot s).
Proof. unfold new_subplot. heap_same_walk. Qed.
Lemma heap_same_call {D} s g ws : heap_same (D := D) (call s g ws).
Proof. unfold call. heap_same_walk. Qed.
Lemma heap_same_import {D} : heap_same (D := D) import_interactive.
Proof. unfold import_interactive. heap_same_walk. Qed.
Lemma heap_same_overlay_defaults {D} : heap_same (D := D) overlay_defaults.
Proof. unfold overlay_defaults. heap_same_walk. Qed.
#[export] Hint Resolve heap_same_new_subplot heap_same_call heap_same_import
  heap_same_overlay_defaults : heap_same.

Section SparesMore.
Context {D : Type} `{Collaborators}.

Lemma spares_bind {A B} n (m : M D A) (k : A -> M D B) :
  spares n m -> (forall a, spares n (k a)) -> spares n (bind m k).
Proof.
  intros Hm Hk w o w' E Hn.
  apply bind_inv in E as [(a & w1 & Em & E)|(e & Em & ->)].
  - destruct (Hm _ _ _ Em Hn) as [Hn1 Ht1].
    destruct (Hk _ _ _ _ E Hn1) as [Hn2 Ht2]. split; [done|congruence].
  - by apply (Hm _ _ _ Em).
Qed.

Lemma spares_copy_bind {B} n r (k : nat -> M D B) :
  (forall temp, n <= temp -> spares n (k temp)) -> spares n (bind (copy r) k).
Proof.
  intros Hk w o w' E Hn.
  apply bind_inv in E as [(a & w1 & Em & E)|(e & Em & ->)].
  - destruct (heap w !! r) as [t|] eqn:Ht.
    + rewrite (copy_run _ _ _ Ht) in Em. injection Em as <- <-.
      destruct (Hk _ Hn _ _ _ E) as [Hn2 Ht2].
      * cbn. rewrite length_app. lia.
      * split; [done|]. rewrite Ht2. cbn. by rewrite take_app_le.
    + unfold copy in Em. rewrite (bind_raise _ _ _ (Builtin ReferenceError) w) in Em.
      * discriminate Em.
      * unfold deref. erewrite bind_run; [|reflexivity]. cbn. by rewrite Ht.
  - destruct (heap w !! r) as [t|] eqn:Ht.
    + rewrite (copy_run _ _ _ Ht) in Em. discriminate Em.
    + unfold copy in Em. rewrite (bind_raise _ _ _ (Builtin ReferenceError) w) in Em.
      * by injection Em as _ <-.
      * unfold deref. erewrite bind_run; [|reflexivity]. cbn. by rewrite Ht.
Qed.

Lemma spares_store n r t : n <= r -> spares (D := D) n (store r t).
Proof.
  intros Hr w o w' [= <- <-] Hn. cbn. rewrite length_insert.
  split; [done|]. by apply take_insert_ge.
Qed.

Lemma spares_add_speed n r : n <= r -> spares (D := D) n (add_speed r).
Proof.
  intros Hr. unfold add_speed. apply spares_bind.
  - apply heap_same_spares. auto with heap_same.
  - intros t. by apply spares_store.
Qed.

Lemma spares_df_setitem n r k s :
  n <= r -> spares (D := D) n (df_setitem r k s).
Proof.
  intros Hr. unfold df_setitem. apply spares_bind.
  - apply heap_same_spares. auto with heap_same.
  - intros t.
    destruct k; try solve [apply heap_same_spares; auto with heap_same].
    by apply spares_store.
Qed.

Lemma spares_for_each {X} n (l : list X) (body : X -> M D unit) :
  (forall x, spares n (body x)) -> spares n (for_each l body).
Proof.
  intros Hb. induction l as [|x xs IH]; cbn.
  - apply heap_same_spares. auto with heap_same.
  - apply spares_bind; auto.
Qed.

Lemma spares_for_enumerate {X} n (l : list X) (body : nat -> X -> M D unit) i :
  (forall j x, spares n (body j x)) -> spares n (for_enumerate i l body).
Proof.
  intros Hb. revert i. induction l as [|x xs IH]; intros i; cbn.
  - apply heap_same_spares. auto with heap_same.
  - apply spares_bind; auto.
Qed.

Lemma heap_same_comprehension {X Y} (f : X -> M D Y) l :
  (forall x, heap_same (f x)) -> heap_same (comprehension f l).
Proof.
  intros Hf. induction l as [|x xs IH]; cbn; heap_same_walk.
Qed.

Lemma spares_plot_trajectory n traj : spares (D := D) n (_plot_trajectory traj).
Proof.
  intros w o w' E Hn. apply plot_trajectory_spec in E as (_ & Hh & _).
  rewrite Hh. destruct (heap w !! traj).
  - rewrite length_app. split; [lia|]. by rewrite take_app_le.
  - done.
Qed.

Lemma spares_hvplot_trajectory n traj :
  spares (D := D) n (_hvplot_trajectory traj).
Proof.
  intros w o w' E Hn.
  assert (Hh : heap w' = heap w
               \/ exists t, heap w' = heap w ++ [t]).
  { destruct (heap w !! traj) as [t|] eqn:Ht.
    - right. pose proof (hvplot_trajectory_renders w traj t Ht) as Hr.
      destruct (line_render (self w) t).
      + destruct (end_render _ t).
        * destruct Hr as (w1 & E1 & _ & Hh & _). rewrite E in E1.
          injection E1 as _ <-. eauto.
        * destruct Hr as (e & w1 & E1 & _ & Hh & _). rewrite E in E1.
          injection E1 as _ <-. eauto.
      + destruct Hr as (e & w1 & E1 & _ & Hh & _). rewrite E in E1.
        injection E1 as _ <-. eauto.
    - left. rewrite hvplot_trajectory_dangling in E by done.
      by injection E as _ <-. }
  destruct Hh as [-> | [t ->]]; [done|].
  rewrite length_app. split; [lia|]. by rewrite take_app_le.
Qed.

End SparesMore.

Ltac spares_walk :=
  repeat first
    [ progress intros
    | progress cbv zeta
    | solve [apply heap_same_spares; heap_same_walk]
    | apply spares_plot_trajectory
    | apply spares_hvplot_trajectory
    | apply spares_for_each
    | apply spares_for_enumerate
    | apply spares_add_speed; assumption
    | apply spares_df_setitem; assumption
    | apply spares_copy_bind
    | apply spares_bind
    | match goal with
      | |- spares _ (if ?b then _ else _) => destruct b
      | |- spares _ (match ?x with _ => _ end) => destruct x
      end ].

Lemma spares_plot `{Collaborators} n : spares n plot.
Proof. unfold plot. spares_walk. Qed.

Lemma spares_hvplot `{Collaborators} n : spares n hvplot.
Proof. unfold hvplot. spares_walk. Qed.

Lemma spares_cache_speed `{Collaborators} n traj :
  spares n (_TrajectoryCollectionPlotter.cache_speed traj).
Proof. unfold _TrajectoryCollectionPlotter.cache_speed. spares_walk. Qed.

Lemma spares_get_min_max_speed `{Collaborators} n :
  spares n _TrajectoryCollectionPlotter.get_min_max_speed.
Proof.
  unfold _TrajectoryCollectionPlotter.get_min_max_speed.
  apply spares_bind; [spares_walk|intros trajs].
  apply spares_bind.
  { apply spares_for_each. intros x. apply spares_cache_speed. }
  intros _. apply heap_same_spares.
  repeat first [ progress intros | apply heap_same_bind
               | apply heap_same_comprehension | solve [auto with heap_same] ].
Qed.

Lemma spares_get_min_max_values `{Collaborators} n :
  spares n _TrajectoryCollectionPlotter.get_min_max_values.
Proof.
  unfold _TrajectoryCollectionPlotter.get_min_max_values.
  repeat first
    [ progress intros
    | progress cbv zeta
    | apply spares_get_min_max_speed
    | solve [apply heap_same_spares; heap_same_walk]
    | apply spares_bind
    | match goal with
      | |- spares _ (if ?b then _ else _) => destruct b
      | |- spares _ (match ?x with _ => _ end) => destruct x
      end ].
Qed.

Lemma spares_plot_member `{Collaborators} n i traj :
  spares n (_TrajectoryCollectionPlotter.plot_member i traj).
Proof. unfold _TrajectoryCollectionPlotter.plot_member. spares_walk. Qed.

Lemma spares_hvplot_member `{Collaborators} n traj :
  spares n (_TrajectoryCollectionPlotter.hvplot_member traj).
Proof. unfold _TrajectoryCollectionPlotter.hvplot_member. spares_walk. Qed.

Lemma spares_collection_plot `{Collaborators} n :
  spares n _TrajectoryCollectionPlotter.plot.
Proof.
  unfold _TrajectoryCollectionPlotter.plot.
  repeat first
    [ progress intros
    | progress cbv zeta
    | apply spares_get_min_max_values
    | apply spares_for_enumerate; intros; apply spares_plot_member
    | solve [apply heap_same_spares; heap_same_walk]
    | apply spares_bind
    | match goal with
      | |- spares _ (if ?b then _ else _) => destruct b
      end ].
Qed.

Lemma spares_collection_hvplot `{Collaborators} n :
  spares n _TrajectoryCollectionPlotter.hvplot.
Proof.
  unfold _TrajectoryCollectionPlotter.hvplot.
  repeat first
    [ progress intros
    | apply spares_for_each; intros; apply spares_hvplot_member
    | solve [apply heap_same_spares; heap_same_walk]
    | apply spares_bind ].
Qed.

Lemma spares_prefix {D A} (m : M D A) (w : world D) :
  spares (List.length (heap w)) m -> heap w `prefix_of` heap (snd (m w)).
Proof.
  intros Hm. destruct (m w) as [o w'] eqn:E. cbn.
  destruct (Hm _ _ _ E (le_n _)) as [_ Ht].
  rewrite firstn_all in Ht.
  exists (drop (List.length (heap w)) (heap w')).
  rewrite <- (take_drop (List.length (heap w)) (heap w')) at 1.
  by rewrite Ht.
Qed.

(** X18: none of the four entry points changes or removes a trajectory
    object that was in the store before the call, whatever the outcome: the
    store afterwards starts with the store before.  Speed is computed on
    copies, and a direction column added for the end marker is dropped
    again. *)
Theorem X18_entry_points_spare_the_trajectories :
  forall (C : Collaborators) (w1 : world nat) (w2 : world (list nat)),
    heap w1 `prefix_of` heap (snd (plot w1))
    /\ heap w1 `prefix_of` heap (snd (hvplot w1))
    /\ heap w2 `prefix_of` heap (snd (_TrajectoryCollectionPlotter.plot w2))
    /\ heap w2 `prefix_of` heap (snd (_TrajectoryCollectionPlotter.hvplot w2)).
Proof.
  intros C w1 w2. split_and!; apply spares_prefix.
  - apply spares_plot.
  - apply spares_hvplot.
  - apply spares_collection_plot.
  - apply spares_collection_hvplot.
Qed.

(** ** The collection: no members, the speed cache, the cached speeds drawn *)

(** X19: an empty collection.  With a color-by-column set, [plot] raises
    [IndexError] when it looks for the first member, before a figure is
    made, and leaves the state as it was.  Without one it returns the axis,
    from a new figure when the styler had none, and renders nothing.  With
    the interactive modules importable, [hvplot] sets the overlay defaults
    and returns the overlay it had. *)
Theorem X19_empty_collection :
  forall (C : Collaborators) (w : world (list nat)),
    data (self w) = [] ->
    _TrajectoryCollectionPlotter.plot w
    = (if truthy (column (self w))
       then (Raise (Builtin IndexError), w)
       else (Ok (if truthy (ax (self w)) then ax (self w)
                 else PObj (next_obj w)),
             with_axis w))
    /\ renders (events (with_axis w)) = renders (events w)
    /\ (has_hvplot_pandas w && has_holoviews_opts w = true ->
        _TrajectoryCollectionPlotter.hvplot w
        = (Ok (overlay (self w)),
           with_event
             (OverlayDefaults (width (self w)) (height (self w))) w)).
Proof.
  intros C w Hd. split_and!.
  - unfold _TrajectoryCollectionPlotter.plot.
    erewrite bind_run; [|reflexivity].
    destruct (truthy (column (self w))) eqn:Hc.
    + erewrite bind_raise; [reflexivity|].
      erewrite bind_raise; [reflexivity|].
      unfold _TrajectoryCollectionPlotter.get_min_max_values.
      erewrite bind_run; [|reflexivity].
      erewrite bind_raise; [reflexivity|]. by rewrite Hd.
    + erewrite bind_run; [|reflexivity].
      pose proof (ensure_axis_run w) as E. unfold bind at 1 in E.
      cbn [gets] in E. unfold bind at 1. cbn [gets].
      unfold bind at 1. rewrite E. clear E.
      erewrite bind_run; [|reflexivity].
      assert (Hd' : data (self (with_axis w)) = []).
      { rewrite <- Hd. apply fixed_color_with_axis. }
      rewrite Hd'. cbn [for_enumerate].
      erewrite bind_run; [|reflexivity].
      unfold gets. do 2 f_equal.
      unfold with_axis. by destruct (truthy (ax (self w))).
  - destruct (with_axis_self w) as (_ & -> & _). rewrite renders_app.
    destruct (truthy (ax (self w))); cbn; by rewrite app_nil_r.
  - intros Hcap. unfold _TrajectoryCollectionPlotter.hvplot.
    erewrite bind_run; [|by rewrite import_interactive_run, Hcap].
    erewrite bind_run; [|reflexivity].
    erewrite bind_run; [|reflexivity].
    cbn [data self with_event]. rewrite Hd. cbn [for_each].
    erewrite bind_run; [|reflexivity]. reflexivity.
Qed.

Lemma X19_witness :
  fst (@_TrajectoryCollectionPlotter.plot sample_collaborators
         (fresh_world sample_heap true true true
            (_TrajectoryCollectionPlotter.__init__ [] []
               (<["column" := PStr "speed"]> ∅))))
  = Raise (Builtin IndexError).
Proof.
  rewrite (proj1 (X19_empty_collection sample_collaborators
    (fresh_world sample_heap true true true
       (_TrajectoryCollectionPlotter.__init__ [] []
          (<["column" := PStr "speed"]> ∅))) eq_refl)).
  reflexivity.
Defined.

Lemma comprehension_min_empty {D} (w : world D) (zs : list (list Z)) :
  Exists (fun l => l = []) zs ->
  comprehension (fun s => lift_builtin (py_min s)) ((fun l : list Z => PNum <$> l) <$> zs) w
  = (Raise (Builtin ValueError), w).
Proof.
  induction zs as [|l zs IH]; intros Hex.
  - by apply Exists_nil in Hex.
  - cbn [fmap list_fmap comprehension].
    destruct l as [|z l].
    + by erewrite bind_raise.
    + destruct (py_min_nums (z :: l)) as (m & Em & _); [done|].
      erewrite bind_run; [|by rewrite Em].
      erewrite bind_raise; [reflexivity|].
      apply IH. apply Exists_cons in Hex as [Hex|Hex]; [done|exact Hex].
Qed.

Lemma speed_series_fmap `{Collaborators} (ts : list trajectory) :
  speed_series <$> ts
  = (fun l : list Z => PNum <$> l) <$> (compute_speed <$> ts).
Proof. by rewrite <- list_fmap_compose. Qed.

(** The outcome and the cache of [get_min_max_speed]. *)
Lemma get_min_max_speed_cache `{Collaborators} (w : world (list nat)) ts :
  Forall2 (fun r t => heap w !! r = Some t) (data (self w)) ts ->
  Forall (fun t => column (self w) = PStr (speed_column_name t)) ts ->
  exists o w1 w',
    for_each (data (self w)) _TrajectoryCollectionPlotter.cache_speed w
    = (Ok tt, w1)
    /\ _TrajectoryCollectionPlotter.get_min_max_speed w = (o, w')
    /\ self w' = self w1 /\ events w' = events w1 /\ heap w' = heap w1
    /\ _speeds (self w1) = _speeds (self w) ++ (speed_series <$> ts)
    /\ (_speeds (self w) = [] ->
        ts = [] \/ Exists (fun t => compute_speed t = []) ts ->
        o = Raise (Builtin ValueError)).
Proof.
  intros Hv Hc.
  destruct (cache_speeds_run _ _ w Hv Hc) as (w1 & E1 & Hs1).
  destruct (_TrajectoryCollectionPlotter.get_min_max_speed w) as [o w'] eqn:E.
  exists o, w1, w'. split; [done|]. split; [done|].
  unfold _TrajectoryCollectionPlotter.get_min_max_speed in E.
  rewrite (bind_run _ _ _ _ _ (eq_refl : gets _ w = (Ok _, w))) in E.
  rewrite (bind_run _ _ _ _ _ E1) in E.
  match type of E with ?m w1 = _ =>
    assert (Hk : keeps m)
      by (repeat first [ progress intros | apply keeps_bind
                       | apply keeps_comprehension | solve [auto with keeps] ]);
    assert (Hh : heap_same m)
      by (repeat first [ progress intros | apply heap_same_bind
                       | apply heap_same_comprehension
                       | solve [auto with heap_same] ])
  end.
  destruct (Hk _ _ _ E) as [Hs He]. pose proof (Hh _ _ _ E) as Hheap.
  split_and!; try done.
  intros H0 Hcase. rewrite H0 in Hs1. cbn [app] in Hs1.
  rewrite (bind_run _ _ _ _ _ (eq_refl : gets _ w1 = (Ok _, w1))) in E.
  rewrite Hs1 in E.
  destruct Hcase as [-> | Hex].
  - cbn in E. rewrite (bind_run _ _ _ [] w1) in E by reflexivity.
    rewrite (bind_raise _ _ _ (Builtin ValueError) w1) in E by reflexivity.
    by injection E as <- _.
  - rewrite speed_series_fmap in E.
    rewrite (bind_raise _ _ _ (Builtin ValueError) w1) in E.
    + congruence.
    + apply comprehension_min_empty.
      apply Exists_fmap. exact Hex.
Qed.

Lemma prefix_lookup_live {D} (w w' : world D) refs ts :
  heap w `prefix_of` heap w' ->
  Forall2 (fun r t => heap w !! r = Some t) refs ts ->
  Forall2 (fun r t => heap w' !! r = Some t) refs ts.
Proof.
  intros Hp Hv. eapply Forall2_impl; [exact Hv|].
  intros r t Hr. eapply prefix_lookup_Some; [exact Hr | exact Hp].
Qed.

(** X20: for live members whose speed column is the color-by-column,
    [get_min_max_speed] appends the speed series of every member, in the
    order of the collection, to the cache, whatever its outcome, and never
    empties the cache: a second call appends the same series again.
    It logs no event and spares the trajectories in the store.  On a new
    styler it raises [ValueError] for an empty collection and for a member
    whose speed series is empty. *)
Theorem X20_speed_cache_grows_with_every_call :
  forall (C : Collaborators) (w : world (list nat)) (ts : list trajectory),
    Forall2 (fun r t => heap w !! r = Some t) (data (self w)) ts ->
    Forall (fun t => column (self w) = PStr (speed_column_name t)) ts ->
    let once := snd (_TrajectoryCollectionPlotter.get_min_max_speed w) in
    let twice := snd (_TrajectoryCollectionPlotter.get_min_max_speed once) in
    _speeds (self once) = _speeds (self w) ++ (speed_series <$> ts)
    /\ _speeds (self twice)
       = _speeds (self w) ++ (speed_series <$> ts) ++ (speed_series <$> ts)
    /\ events once = events w
    /\ heap w `prefix_of` heap once
    /\ (_speeds (self w) = [] ->
        ts = [] \/ Exists (fun t => compute_speed t = []) ts ->
        fst (_TrajectoryCollectionPlotter.get_min_max_speed w)
        = Raise (Builtin ValueError)).
Proof.
  intros C w ts Hv Hc once twice.
  pose proof (spares_prefix _ w (spares_get_min_max_speed _)) as Hpre.
  fold once in Hpre.
  destruct (get_min_max_speed_cache w ts Hv Hc)
    as (o & w1 & w' & E1 & E & Hs & He & Hh & Hs1 & Hval).
  pose proof (keeps_options_get_min_max_speed _ _ _ E) as [Hev (sp & Hsp)].
  assert (Honce : once = w') by (subst once; by rewrite E).
  assert (Hv' : Forall2 (fun r t => heap once !! r = Some t)
                  (data (self once)) ts).
  { rewrite Honce, Hsp. cbn [data set_speeds]. rewrite <- Honce.
    by eapply prefix_lookup_live. }
  assert (Hc' : Forall (fun t => column (self once)
                                 = PStr (speed_column_name t)) ts).
  { rewrite Honce, Hsp. exact Hc. }
  destruct (get_min_max_speed_cache once ts Hv' Hc')
    as (o2 & w2 & w2' & _ & E2 & Hs2 & _ & _ & Hs12 & _).
  split_and!.
  - rewrite Honce, Hs. exact Hs1.
  - subst twice. rewrite E2. cbn [snd]. rewrite Hs2, Hs12.
    rewrite Honce, Hs, Hs1. by rewrite <- app_assoc.
  - by rewrite Honce.
  - exact Hpre.
  - intros H0 Hcase. rewrite E. cbn [fst]. by apply Hval.
Qed.

Lemma X20_witness :
  _speeds (self (snd (@_TrajectoryCollectionPlotter.get_min_max_speed
                        sample_collaborators
                        (sample_collection (<["column" := PStr "speed"]> ∅)))))
  = [] ++ [PNum <$> [3; 1; 2]%Z; PNum <$> [7; 5; 6]%Z].
Proof.
  refine (proj1 (X20_speed_cache_grows_with_every_call sample_collaborators
    (sample_collection (<["column" := PStr "speed"]> ∅))
    [sample_traj [3; 1; 2]%Z [10; 20; 30]%Z;
     sample_traj [7; 5; 6]%Z [40; 50; 60]%Z] _ _)).
  - repeat constructor.
  - repeat constructor.
Defined.









